(** * bedrux_tui: process supervision, resource telemetry and the log buffer

    A shallow embedding of [bedrux_tui/util.py], [bedrux_tui/log_buffer.py],
    [bedrux_tui/stats.py] and [bedrux_tui/controller.py], of the command
    history of [bedrux_tui/app.py] and [bedrux_tui/widgets.py] and of the
    archive names of [bedrux_tui/backup.py], together with the parts of
    the Python runtime those modules call ([str] methods, [textwrap.fill],
    [collections.deque], the UTF-8 codec, the stream reader's
    [readline]).

    Conventions.
    - A Python [str] is a list of Unicode code points ([N]); a [bytes]
      object is a list of [Byte.byte].
    - A Python [int] is a [Z]; a Python [float] is idealised as an exact
      rational ([Q]), so rounding is outside the model.
    - A call that may raise returns a [result]; every modelled exception
      is an [Exception], so [except Exception] catches each of them. *)

From Stdlib Require Import ZArith NArith QArith Qabs List String Ascii Bool Lia Lqa Arith.
From Stdlib Require Import DecimalString.
From Stdlib Require Strings.Byte.
Import ListNotations.

(** ** Python values *)

Module Py.

Definition char := N.
Definition str := list char.
Definition bytes := list Byte.byte.

(** Exceptions that the modelled code can meet. *)
Inductive exn : Type :=
| ValueError
| ZeroDivisionError
| TimeoutError
| OSError.

Inductive result (A : Type) : Type :=
| Ok (a : A)
| Raise (e : exn).
Arguments Ok {A} a.
Arguments Raise {A} e.

(** A literal: the code points of an ASCII string constant. *)
Definition lit (s : string) : str :=
  List.map N_of_ascii (list_ascii_of_string s).

Definition len (s : str) : Z := Z.of_nat (List.length s).

(** [repr] of an [int], as an f-string renders it. *)
Definition str_of_int (z : Z) : str :=
  lit (NilEmpty.string_of_int (Z.to_int z)).

Definition str_eqb (a b : str) : bool :=
  if list_eq_dec N.eq_dec a b then true else false.

(** *** Character classes *)

Definition LF : char := 10%N.
Definition CR : char := 13%N.
Definition TAB : char := 9%N.
Definition SPACE : char := 32%N.
Definition HYPHEN : char := 45%N.

(** The line boundaries of [str.splitlines]. *)
Definition is_linebreak (c : char) : bool :=
  ((10 <=? c) && (c <=? 13) || (28 <=? c) && (c <=? 30)
   || (c =? 0x85) || (c =? 0x2028) || (c =? 0x2029))%N.

(** [str.isspace] on one code point: what [str.strip()] removes. *)
Definition isspace (c : char) : bool :=
  ((9 <=? c) && (c <=? 13) || (28 <=? c) && (c <=? 32)
   || (c =? 0x85) || (c =? 0xA0) || (c =? 0x1680)
   || (0x2000 <=? c) && (c <=? 0x200A)
   || (c =? 0x2028) || (c =? 0x2029) || (c =? 0x202F)
   || (c =? 0x205F) || (c =? 0x3000))%N.

(** [s.strip() == ''] *)
Definition strip_is_empty (s : str) : bool := forallb isspace s.

(** *** [str.splitlines()] *)

(** [skip_lf] records that the previous character was a carriage return,
    so that a line feed right after it belongs to the same boundary. *)
Fixpoint splitlines_from (skip_lf : bool) (cur : str) (s : str) : list str :=
  match s with
  | [] => match cur with [] => [] | _ => [cur] end
  | c :: rest =>
      if skip_lf && (c =? LF)%N then splitlines_from false cur rest
      else if (c =? CR)%N then cur :: splitlines_from true [] rest
      else if is_linebreak c then cur :: splitlines_from false [] rest
      else splitlines_from false (cur ++ [c]) rest
  end.

Definition splitlines (s : str) : list str := splitlines_from false [] s.

(** *** Slices [s[:e]] and [s[b:]] with Python's index normalisation *)

Definition norm_index (s : str) (i : Z) : nat :=
  let i' := if (i <? 0)%Z then Z.max 0 (i + len s) else Z.min i (len s) in
  Z.to_nat i'.

Definition slice_to (s : str) (e : Z) : str := firstn (norm_index s e) s.
Definition slice_from (s : str) (b : Z) : str := skipn (norm_index s b) s.

(** [s.rfind(c, 0, e)]: the highest index below [e] holding [c], or -1. *)
Fixpoint rfind_in (c : char) (s : str) (i : Z) : Z :=
  match s with
  | [] => (-1)%Z
  | x :: rest =>
      let r := rfind_in c rest (i + 1) in
      if (0 <=? r)%Z then r else if (x =? c)%N then i else (-1)%Z
  end.

Definition rfind (c : char) (s : str) (e : Z) : Z :=
  rfind_in c (slice_to s e) 0.

(** *** [str.expandtabs(tabsize)] *)

Fixpoint expandtabs_from (tabsize : Z) (col : Z) (s : str) : str :=
  match s with
  | [] => []
  | c :: rest =>
      if (c =? TAB)%N then
        if (0 <? tabsize)%Z then
          let incr := (tabsize - col mod tabsize)%Z in
          repeat SPACE (Z.to_nat incr) ++ expandtabs_from tabsize (col + incr) rest
        else expandtabs_from tabsize col rest
      else
        c :: expandtabs_from tabsize
               (if (c =? LF)%N || (c =? CR)%N then 0 else col + 1)%Z rest
  end.

Definition expandtabs (tabsize : Z) (s : str) : str :=
  expandtabs_from tabsize 0 s.

(** [sep.join(parts)] *)
Fixpoint join (sep : str) (parts : list str) : str :=
  match parts with
  | [] => []
  | [p] => p
  | p :: rest => p ++ sep ++ join sep rest
  end.

(** *** [str.encode("utf-8", errors="replace")] *)

Definition byte_of_N (n : N) : Byte.byte :=
  match Byte.of_N n with Some b => b | None => Byte.x00 end.

(** A lone surrogate cannot be encoded; with [errors="replace"] the codec
    writes a question mark in its place. *)
Definition utf8_char (c : char) : bytes :=
  (if c <? 0x80 then [byte_of_N c]
   else if c <? 0x800 then
     [byte_of_N (N.lor 0xC0 (N.shiftr c 6));
      byte_of_N (N.lor 0x80 (N.land c 0x3F))]
   else if (0xD800 <=? c) && (c <=? 0xDFFF) then [byte_of_N 63]
   else if c <? 0x10000 then
     [byte_of_N (N.lor 0xE0 (N.shiftr c 12));
      byte_of_N (N.lor 0x80 (N.land (N.shiftr c 6) 0x3F));
      byte_of_N (N.lor 0x80 (N.land c 0x3F))]
   else
     [byte_of_N (N.lor 0xF0 (N.land (N.shiftr c 18) 0x07));
      byte_of_N (N.lor 0x80 (N.land (N.shiftr c 12) 0x3F));
      byte_of_N (N.lor 0x80 (N.land (N.shiftr c 6) 0x3F));
      byte_of_N (N.lor 0x80 (N.land c 0x3F))])%N.

Definition encode_utf8_replace (s : str) : bytes := flat_map utf8_char s.

(** *** [bytes.decode("utf-8", errors="replace")]

    The decoder reads one sequence at a time.  An ill-formed sequence is
    replaced by U+FFFD up to the byte at which it went wrong, and decoding
    goes on from that byte; a sequence cut short by the end of the data is
    replaced as a whole. *)

Definition REPLACEMENT : char := 0xFFFD%N.

Definition is_continuation (b : N) : bool := ((0x80 <=? b) && (b <? 0xC0))%N.

(** The character decoded at the head of [bs] and the number of bytes it
    takes. *)
Definition decode_step (bs : list N) : char * nat :=
  match bs with
  | [] => (REPLACEMENT, 0%nat)
  | ch :: r1 =>
      (if ch <? 0x80 then (ch, 1%nat)
       else if ch <? 0xC2 then (REPLACEMENT, 1%nat)
       else if ch <? 0xE0 then
         match r1 with
         | [] => (REPLACEMENT, 1%nat)
         | ch2 :: _ =>
             if is_continuation ch2
             then (N.shiftl ch 6 + ch2 - (N.shiftl 0xC0 6 + 0x80), 2%nat)
             else (REPLACEMENT, 1%nat)
         end
       else if ch <? 0xF0 then
         match r1 with
         | [] => (REPLACEMENT, 1%nat)
         | ch2 :: r2 =>
             if negb (is_continuation ch2)
                || (if ch2 <? 0xA0 then ch =? 0xE0 else ch =? 0xED)
             then (REPLACEMENT, 1%nat)
             else
               match r2 with
               | [] => (REPLACEMENT, 2%nat)
               | ch3 :: _ =>
                   if is_continuation ch3
                   then (N.shiftl ch 12 + N.shiftl ch2 6 + ch3
                         - (N.shiftl 0xE0 12 + N.shiftl 0x80 6 + 0x80), 3%nat)
                   else (REPLACEMENT, 2%nat)
               end
         end
       else if ch <? 0xF5 then
         match r1 with
         | [] => (REPLACEMENT, 1%nat)
         | ch2 :: r2 =>
             if negb (is_continuation ch2)
                || (if ch2 <? 0x90 then ch =? 0xF0 else ch =? 0xF4)
             then (REPLACEMENT, 1%nat)
             else
               match r2 with
               | [] => (REPLACEMENT, 2%nat)
               | ch3 :: r3 =>
                   if negb (is_continuation ch3) then (REPLACEMENT, 2%nat)
                   else
                     match r3 with
                     | [] => (REPLACEMENT, 3%nat)
                     | ch4 :: _ =>
                         if is_continuation ch4
                         then (N.shiftl ch 18 + N.shiftl ch2 12
                               + N.shiftl ch3 6 + ch4
                               - (N.shiftl 0xF0 18 + N.shiftl 0x80 12
                                  + N.shiftl 0x80 6 + 0x80), 4%nat)
                         else (REPLACEMENT, 3%nat)
                     end
               end
         end
       else (REPLACEMENT, 1%nat))%N
  end.

(** [skip] counts the bytes of the current sequence still to pass. *)
Fixpoint decode_from (skip : nat) (bs : list N) : str :=
  match bs with
  | [] => []
  | _ :: rest =>
      match skip with
      | S k => decode_from k rest
      | O => let '(c, n) := decode_step bs in c :: decode_from (n - 1) rest
      end
  end.

Definition decode_utf8_replace (data : bytes) : str :=
  decode_from 0 (List.map Byte.to_N data).

(** *** [str.rstrip(chars)], [str.strip()], [str.rsplit(sep, maxsplit)] *)

Fixpoint dropwhile (P : char -> bool) (s : str) : str :=
  match s with
  | c :: rest => if P c then dropwhile P rest else s
  | [] => []
  end.

(** [s.rstrip(chars)], [chars] given as the set it denotes. *)
Definition rstrip (chars : char -> bool) (s : str) : str :=
  rev (dropwhile chars (rev s)).

(** [s.strip()] *)
Definition strip (s : str) : str :=
  rstrip isspace (dropwhile isspace s).

(** [s.rsplit(sep, maxsplit)] for a separator of one character, read from
    the right: [acc] is the field being collected and [fields] those
    already closed. *)
Fixpoint rsplit_from (sep : char) (maxsplit : nat) (reversed : str)
         (acc : str) (fields : list str) : list str :=
  match reversed with
  | [] => acc :: fields
  | c :: rest =>
      match maxsplit with
      | O => (rev reversed ++ acc) :: fields
      | S m =>
          if (c =? sep)%N then rsplit_from sep m rest [] (acc :: fields)
          else rsplit_from sep maxsplit rest (c :: acc) fields
      end
  end.

Definition rsplit (sep : char) (maxsplit : nat) (s : str) : list str :=
  rsplit_from sep maxsplit (rev s) [] [].

(** [xs[i]] of a list: a negative index counts from the end, and an index
    outside the list raises. *)
Inductive index_error : Type := IndexError.

Definition getitem {A : Type} (xs : list A) (i : Z) : A + index_error :=
  let j := if (i <? 0)%Z then (i + Z.of_nat (List.length xs))%Z else i in
  if (j <? 0)%Z then inr IndexError
  else match nth_error xs (Z.to_nat j) with
       | Some x => inl x
       | None => inr IndexError
       end.

(** *** [asyncio.StreamReader.readline()]

    The controller creates the child without [limit=], so the readers of
    its pipes have the default limit of [2 ** 16] bytes. *)
Definition STREAM_LIMIT : Z := 65536.

(** The index of the first line feed of [data]. *)
Fixpoint find_lf (data : bytes) : option nat :=
  match data with
  | [] => None
  | b :: rest =>
      if (Byte.to_N b =? 10)%N then Some 0%nat
      else match find_lf rest with Some i => Some (S i) | None => None end
  end.

(** The first answer of [readline()] on a stream that delivers [data] and
    then ends.  A line is handed over with its line feed; what is left at
    the end of the stream is handed over as it is; and a line whose line
    feed lies more than the limit into the data, or data of more than the
    limit with no line feed, makes [readline()] raise [ValueError]. *)
Definition readline (data : bytes) : result bytes :=
  match find_lf data with
  | Some i =>
      if (STREAM_LIMIT <? Z.of_nat i)%Z then Raise ValueError
      else Ok (firstn (S i) data)
  | None =>
      if (STREAM_LIMIT <? Z.of_nat (List.length data))%Z then Raise ValueError
      else Ok data
  end.

End Py.

Import Py.

(** ** [bedrux_tui/util.py] *)

Module Util.

(** [clamp(value, lo, hi)] *)
Definition clamp (value lo hi : Q) : Q :=
  if Qlt_le_dec hi value then hi
  else if Qlt_le_dec value lo then lo
  else value.

(** [keep_last(items, max_items)]; the last branch is the slice
    [items[-max_items:]] taken when [0 < max_items < len(items)]. *)
Definition keep_last (items : list str) (max_items : Z) : list str :=
  if (max_items <=? 0)%Z then []
  else if (Z.of_nat (List.length items) <=? max_items)%Z then items
  else skipn (List.length items - Z.to_nat max_items) items.

(** [split_lines(text)]: [str(text).splitlines()], or the one empty line when that is empty *)
Definition split_lines (text : str) : list str :=
  match splitlines text with
  | [] => [ [] ]
  | ls => ls
  end.

(** [is_blank(value)]: [value is None or not str(value).strip()] *)
Definition is_blank (value : option str) : bool :=
  match value with
  | None => true
  | Some s => match strip s with [] => true | _ => false end
  end.

End Util.

(** ** [textwrap.fill] with the default [TextWrapper] options

    [expand_tabs], [replace_whitespace], [break_long_words],
    [drop_whitespace] and [break_on_hyphens] are on, [tabsize] is 8, both
    indents are empty, [fix_sentence_endings] is off and [max_lines] is
    [None].  The regular expression classes [\w] and [\d] are modelled on
    the ASCII range; code points above it count as non-word characters. *)

Module TextWrap.

(** [_whitespace = '\t\n\x0b\x0c\r '] *)
Definition is_ws (c : char) : bool :=
  ((9 <=? c) && (c <=? 13) || (c =? 32))%N.

Definition is_digit (c : char) : bool := ((48 <=? c) && (c <=? 57))%N.

(** [letter = [^\d\W]].  The classes are those of ASCII text; a letter
    or a digit beyond ASCII counts as punctuation here, so a break that
    [textwrap] places at a hyphen or a dash next to such a character may
    fall elsewhere in this model. *)
Definition is_letter (c : char) : bool :=
  ((65 <=? c) && (c <=? 90) || (97 <=? c) && (c <=? 122) || (c =? 95))%N.

(** [\w] *)
Definition is_word (c : char) : bool := is_letter c || is_digit c.

(** [word_punct]: a [\w] character, one of [! & . , ?], the double
    quote or the apostrophe. *)
Definition is_word_punct (c : char) : bool :=
  (is_word c || (c =? 33) || (c =? 34) || (c =? 39) || (c =? 38)
   || (c =? 46) || (c =? 44) || (c =? 63))%N.

(** [_munge_whitespace] *)
Definition munge_whitespace (text : str) : str :=
  List.map (fun c => if is_ws c then SPACE else c) (expandtabs 8 text).

(** *** [wordsep_re.split]

    Positions are indices into the text; [at_ t p P] holds when position
    [p] exists and its character satisfies [P]; [back t p d P] looks [d]
    characters behind [p]. *)

Definition at_ (t : str) (p : nat) (P : char -> bool) : bool :=
  match nth_error t p with Some c => P c | None => false end.

Definition back (t : str) (p d : nat) (P : char -> bool) : bool :=
  (d <=? p)%nat && at_ t (p - d) P.

Definition is_hyphen (c : char) : bool := (c =? HYPHEN)%N.

(** Length of the longest prefix of [l] whose characters satisfy [P]. *)
Fixpoint span (P : char -> bool) (l : str) : nat :=
  match l with
  | c :: rest => if P c then S (span P rest) else 0
  | [] => 0
  end.

(** [-{2,}] followed by [\w], tried at position [p]: the number of
    dashes matched, or 0 when there is no such match. *)
Definition dashes_then_word (t : str) (p : nat) : nat :=
  let n := span is_hyphen (skipn p t) in
  if (2 <=? n)%nat && at_ t (p + n) is_word then n else 0%nat.

(** The hyphenation point: a [-] at [p], after two letters or after
    letter-hyphen-letter, and before a letter, an optional hyphen and a
    letter. *)
Definition hyphen_break (t : str) (p : nat) : bool :=
  at_ t p is_hyphen
  && (back t p 2 is_letter && back t p 1 is_letter
      || back t p 3 is_letter && back t p 2 is_hyphen && back t p 1 is_letter)
  && at_ t (p + 1) is_letter
  && (at_ t (p + 2) is_hyphen && at_ t (p + 3) is_letter
      || at_ t (p + 2) is_letter).

Definition word_stop (t : str) (p : nat) : bool :=
  (List.length t <=? p)%nat || at_ t p is_ws.

Definition before_em_dash (t : str) (p : nat) : bool :=
  negb (dashes_then_word t p =? 0)%nat && back t p 1 is_word_punct.

(** The lazy [nws+?] of the third alternative: the first position after
    [p - 1] at which one of its three endings matches; the result is the
    end of the chunk. *)
Fixpoint word_end (fuel : nat) (t : str) (p : nat) : nat :=
  match fuel with
  | O => p
  | S fuel' =>
      if hyphen_break t p then S p
      else if word_stop t p || before_em_dash t p then p
      else word_end fuel' t (S p)
  end.

(** The end of the chunk that starts at [s], alternatives in the order
    of the pattern. *)
Definition chunk_end (t : str) (s : nat) : nat :=
  if at_ t s is_ws then (s + span is_ws (skipn s t))%nat
  else
    let n := dashes_then_word t s in
    if negb (n =? 0)%nat && back t s 1 is_word_punct then (s + n)%nat
    else word_end (List.length t - s) t (S s).

Fixpoint split_from (fuel : nat) (t : str) (s : nat) : list str :=
  match fuel with
  | O => []
  | S fuel' =>
      if (List.length t <=? s)%nat then []
      else
        let e := chunk_end t s in
        firstn (e - s) (skipn s t) :: split_from fuel' t e
  end.

(** [_split]: the non-empty chunks *)
Definition split (text : str) : list str :=
  filter (fun c => negb (len c =? 0)%Z) (split_from (List.length text) text 0).

(** [_split_chunks] *)
Definition split_chunks (text : str) : list str :=
  split (munge_whitespace text).

(** *** [_handle_long_word]

    The chunks are kept in reading order, the next chunk first, where
    the library keeps a reversed stack and pops from its end. *)
Definition handle_long_word (chunks : list str) (cur_line : list str)
           (cur_len width : Z) : list str * list str :=
  match chunks with
  | [] => (chunks, cur_line)
  | chunk :: rest =>
      let space_left := if (width <? 1)%Z then 1%Z else (width - cur_len)%Z in
      let hyphen := rfind HYPHEN chunk space_left in
      let end_ :=
        if (space_left <? len chunk)%Z
           && (0 <? hyphen)%Z
           && existsb (fun c => negb (is_hyphen c)) (slice_to chunk hyphen)
        then (hyphen + 1)%Z
        else space_left in
      (slice_from chunk end_ :: rest, cur_line ++ [slice_to chunk end_])
  end.

(** The inner [while chunks] loop: take chunks while they fit. *)
Fixpoint take_fitting (chunks : list str) (cur_line : list str)
         (cur_len width : Z) : list str * list str * Z :=
  match chunks with
  | [] => (chunks, cur_line, cur_len)
  | c :: rest =>
      if (cur_len + len c <=? width)%Z
      then take_fitting rest (cur_line ++ [c]) (cur_len + len c)%Z width
      else (chunks, cur_line, cur_len)
  end.

(** Drop a trailing all-whitespace chunk of the line. *)
Definition drop_trailing_ws (cur_line : list str) : list str :=
  match rev cur_line with
  | last :: before => if strip_is_empty last then rev before else cur_line
  | [] => cur_line
  end.

Definition nonempty {A} (l : list A) : bool :=
  match l with [] => false | _ => true end.

(** One pass of the outer [while chunks] loop: the chunks left and the
    lines so far. *)
Definition wrap_step (chunks lines : list str) (width : Z)
  : list str * list str :=
  let chunks1 :=
    match chunks with
    | c :: rest => if strip_is_empty c && nonempty lines then rest else chunks
    | [] => chunks
    end in
  let '(chunks2, cur_line, cur_len) := take_fitting chunks1 [] 0%Z width in
  let '(chunks3, cur_line2) :=
    match chunks2 with
    | c :: _ =>
        if (width <? len c)%Z
        then handle_long_word chunks2 cur_line cur_len width
        else (chunks2, cur_line)
    | [] => (chunks2, cur_line)
    end in
  let cur_line3 := drop_trailing_ws cur_line2 in
  (chunks3, if nonempty cur_line3 then lines ++ [List.concat cur_line3] else lines).

(** What a pass consumes: characters and chunks. *)
Definition weight (chunks : list str) : nat :=
  (List.length (List.concat chunks) + List.length chunks)%nat.

Fixpoint wrap_loop (fuel : nat) (chunks lines : list str) (width : Z)
  : list str :=
  match fuel with
  | O => lines
  | S fuel' =>
      match chunks with
      | [] => lines
      | _ => let '(chunks', lines') := wrap_step chunks lines width in
             wrap_loop fuel' chunks' lines' width
      end
  end.

(** [_wrap_chunks] *)
Definition wrap_chunks (chunks : list str) (width : Z) : result (list str) :=
  if (width <=? 0)%Z then Raise ValueError
  else Ok (wrap_loop (weight chunks) chunks [] width).

(** [wrap] *)
Definition wrap (text : str) (width : Z) : result (list str) :=
  wrap_chunks (split_chunks text) width.

(** [fill]: ["\n".join(self.wrap(text))] *)
Definition fill (text : str) (width : Z) : result str :=
  match wrap text width with
  | Ok lines => Ok (join [LF] lines)
  | Raise e => Raise e
  end.

End TextWrap.

(** ** [bedrux_tui/log_buffer.py] *)

Module LogBuffer.

Record t : Type := mk {
  max_messages : Z;
  messages : list str
}.

(** [LogBuffer(max_messages=n)] *)
Definition new (n : Z) : t := mk n [].

(** [append(message)] *)
Definition append (b : t) (message : str) : t :=
  mk (max_messages b)
     (Util.keep_last (messages b ++ [message]) (max_messages b)).

(** The two nested [for] loops of [render]: one [textwrap.fill] per
    part of every message, the first failure ending the call. *)
Fixpoint render_parts (parts : list str) (width : Z) (rendered : list str)
  : result (list str) :=
  match parts with
  | [] => Ok rendered
  | part :: rest =>
      match TextWrap.fill part width with
      | Ok s => render_parts rest width (rendered ++ [s])
      | Raise e => Raise e
      end
  end.

Fixpoint render_messages (msgs : list str) (width : Z) (rendered : list str)
  : result (list str) :=
  match msgs with
  | [] => Ok rendered
  | msg :: rest =>
      match render_parts (Util.split_lines msg) width rendered with
      | Ok rendered' => render_messages rest width rendered'
      | Raise e => Raise e
      end
  end.

(** [render(width)] *)
Definition render (b : t) (width : Z) : result (list str) :=
  let width := Z.max 20 width in
  render_messages (messages b) width [].

(** [clear()] *)
Definition clear (b : t) : t := mk (max_messages b) [].

Definition appends (b : t) (texts : list str) : t :=
  fold_left append texts b.

End LogBuffer.

(** ** [bedrux_tui/stats.py] *)

Module Stats.

Record ResourceSample : Type := mkSample {
  cpu_percent : Q;
  sys_cpu_percent : Q;
  raw_cpu_sum : Q;
  rss_mb : Z;
  total_ram_mb : Z
}.

(** *** [collections.deque(maxlen=n)] *)

Record deque : Type := mkDeque {
  maxlen : Z;
  items : list Q
}.

(** [deque.append(x)]: the item is added on the right, and the leftmost
    one is dropped when that makes the deque longer than [maxlen]. *)
Definition deque_append (d : deque) (x : Q) : deque :=
  let l := items d ++ [x] in
  mkDeque (maxlen d)
          (if (maxlen d <? Z.of_nat (List.length l))%Z then tl l else l).

(** [sum(xs)] and [sum(xs) / len(xs)] *)
Definition qsum (xs : list Q) : Q := fold_left Qplus xs 0.

Definition mean (xs : list Q) : result Q :=
  match xs with
  | [] => Raise ZeroDivisionError
  | _ => Ok (qsum xs / inject_Z (Z.of_nat (List.length xs)))
  end.

(** [int(x)] of a float: truncation towards zero. *)
Definition int_of_float (x : Q) : Z := Z.quot (Qnum x) (Zpos (Qden x)).

(** *** What [psutil] reports during one [sample] call *)

(** One process of the tree: [cpu_percent(interval=None)] and
    [memory_info().rss], either of which may raise. *)
Record ps_process : Type := mkProc {
  ps_pid : Z;
  ps_cpu_percent : result Q;
  ps_rss : result Z
}.

Record observation : Type := mkObs {
  target : ps_process;
  (** [proc.children(recursive=True)] *)
  children : result (list ps_process);
  (** [psutil.cpu_percent(interval=None)] *)
  system_cpu_percent : result Q;
  (** [psutil.virtual_memory().total] *)
  virtual_memory_total : result Z
}.

(** *** The sampler *)

Record t : Type := mkSampler {
  cpu_history : deque;
  cpu_count : Z;
  warmed : bool
}.

(** [StatsSampler(cpu_history_size=n)]; [logical_cpus] is the answer of
    [psutil.cpu_count(logical=True)], [None] when it is unknown. *)
Definition new (cpu_history_size : Z) (logical_cpus : option Z) : t :=
  mkSampler (mkDeque (Z.max 1 cpu_history_size) [])
            (match logical_cpus with
             | Some n => if (n =? 0)%Z then 1%Z else n
             | None => 1%Z
             end)
            false.

(** The body of the first [for p in procs] loop: a failed read leaves
    what was added before it. *)
Definition accumulate (acc : Q * Z) (p : ps_process) : Q * Z :=
  let '(cpu_sum, rss_bytes) := acc in
  match ps_cpu_percent p with
  | Raise _ => (cpu_sum, rss_bytes)
  | Ok c =>
      match ps_rss p with
      | Raise _ => (cpu_sum + c, rss_bytes)
      | Ok r => (cpu_sum + c, (rss_bytes + r)%Z)
      end
  end.

Definition procs_of (o : observation) : list ps_process :=
  match children o with
  | Ok ch => target o :: ch
  | Raise _ => [target o]
  end.

Definition totals (o : observation) : Q * Z :=
  fold_left accumulate (procs_of o) (0, 0%Z).

Definition mib (bytes : Z) : Z :=
  int_of_float (inject_Z bytes / 1024 / 1024).

(** [clamp(normalized, 0.0, 100.0)] for the observation [o]. *)
Definition cpu_display (ncpu : Z) (o : observation) : Q :=
  let cpu_sum := fst (totals o) in
  let normalized :=
    if (ncpu =? 0)%Z then cpu_sum else cpu_sum / inject_Z ncpu in
  Util.clamp normalized 0 100.

(** [sample(proc)].  The second loop of the warm-up pass only calls
    [cpu_percent] again and drops the answers. *)
Definition sample (s : t) (o : observation)
  : t * result (option ResourceSample) :=
  let cpu_sum := fst (totals o) in
  let rss_bytes := snd (totals o) in
  if negb (warmed s) then
    (mkSampler (cpu_history s) (cpu_count s) true, Ok None)
  else
    let rss_mb := Z.max 0 (mib rss_bytes) in
    let history := deque_append (cpu_history s) (cpu_display (cpu_count s) o) in
    let s' := mkSampler history (cpu_count s) (warmed s) in
    match mean (items history) with
    | Raise e => (s', Raise e)
    | Ok cpu_smoothed =>
        let sys_cpu :=
          match system_cpu_percent o with Ok v => v | Raise _ => 0 end in
        let total_ram_mb :=
          match virtual_memory_total o with
          | Ok total => mib total
          | Raise _ => Z.max 4096 rss_mb
          end in
        (s', Ok (Some (mkSample cpu_smoothed sys_cpu cpu_sum rss_mb
                                (Z.max 1 total_ram_mb))))
    end.

(** A run of [sample] calls: the final sampler and every answer. *)
Fixpoint samples (s : t) (os : list observation)
  : t * list (result (option ResourceSample)) :=
  match os with
  | [] => (s, [])
  | o :: rest =>
      let '(s1, r) := sample s o in
      let '(s2, rs) := samples s1 rest in
      (s2, r :: rs)
  end.

Definition after (s : t) (os : list observation) : t := fst (samples s os).

(** The answer of [sample] is "not ready". *)
Definition not_ready (r : result (option ResourceSample)) : bool :=
  match r with Ok None => true | _ => false end.

End Stats.

(** ** [bedrux_tui/controller.py]

    A method is a computation over the controller's fields that records,
    in program order, every call it makes to the outside: the two
    callbacks, the process API and the operating system.  The answers of
    the outside come from an [os] record, one field per call site; the
    coroutine itself is taken to run to its end without being cancelled. *)

Module Controller.

Inductive signal : Type := SIGTERM | SIGKILL.

Inductive pipe : Type := Pipe (fd : Z).

(** An [asyncio.subprocess.Process] as the controller reads it. *)
Record process : Type := mkProcess {
  pid : option Z;
  returncode : option Z;
  stdin : option pipe;
  stdout : option pipe;
  stderr : option pipe
}.

Inductive task : Type :=
| ReadStream (stream : option pipe)
| WaitForExit.

Inductive event : Type :=
| Log (line : str)                      (* self._log(line) *)
| Status (online : bool)                (* self._on_status(online) *)
| Spawn (cmd : str) (cwd : option str)  (* create_subprocess_shell *)
| SetProc (p : option process)          (* self._proc = p *)
| CreateTask (t : task)
| Cancel (t : task)
| Gather (ts : list task)
| StdinWrite (data : bytes)
| StdinDrain
| StdinClose
| StdinWaitClosed
| Getpgid (pid : Z)
| Killpg (pgid : Z) (s : signal)
| Terminate                             (* proc.terminate() *)
| Kill                                  (* proc.kill() *)
| WaitFor (timeout : Q)                 (* wait_for(proc.wait(), timeout) *)
| Wait.                                 (* proc.wait() *)

(** The answers of the outside world during one method call. *)
Record os : Type := mkOs {
  create_subprocess_shell : result process;
  task_done : task -> bool;
  stdin_close : result unit;
  stdin_has_wait_closed : bool;
  stdin_wait_closed : result unit;
  stdin_drain : result unit;
  getpgid_term : result Z;
  killpg_term : result unit;
  proc_terminate : result unit;
  wait_graceful : result unit;
  getpgid_kill : result Z;
  killpg_kill : result unit;
  proc_kill : result unit;
  wait_forced : result unit;
  wait_final : result unit
}.

Record t : Type := mkCtl {
  server_cmd : str;
  cwd : option str;
  proc : option process;
  reader_tasks : list task;
  wait_task : option task
}.

(** [ServerController(server_cmd=..., cwd=...)] *)
Definition new (server_cmd : str) (cwd : option str) : t :=
  mkCtl server_cmd cwd None [] None.

(** *** The monad of methods *)

Definition M (A : Type) : Type := t -> result A * t * list event.

Definition ret {A} (a : A) : M A := fun c => (Ok a, c, []).

Definition raise {A} (e : exn) : M A := fun c => (Raise e, c, []).

Definition bind {A B} (m : M A) (k : A -> M B) : M B :=
  fun c =>
    match m c with
    | (Ok a, c1, tr1) =>
        let '(r, c2, tr2) := k a c1 in (r, c2, tr1 ++ tr2)
    | (Raise e, c1, tr1) => (Raise e, c1, tr1)
    end.

(** [try: m  except Exception: h] *)
Definition try_except {A} (m : M A) (h : exn -> M A) : M A :=
  fun c =>
    match m c with
    | (Ok a, c1, tr1) => (Ok a, c1, tr1)
    | (Raise e, c1, tr1) =>
        let '(r, c2, tr2) := h e c1 in (r, c2, tr1 ++ tr2)
    end.

(** [try: m  except asyncio.TimeoutError: h] *)
Definition try_except_timeout {A} (m : M A) (h : M A) : M A :=
  fun c =>
    match m c with
    | (Raise TimeoutError, c1, tr1) =>
        let '(r, c2, tr2) := h c1 in (r, c2, tr1 ++ tr2)
    | other => other
    end.

Definition emit (e : event) : M unit := fun c => (Ok tt, c, [e]).

Definition get : M t := fun c => (Ok c, c, []).

Definition put (c : t) : M unit := fun _ => (Ok tt, c, []).

(** A call to the outside: recorded, then answered. *)
Definition call {A} (e : event) (answer : result A) : M A :=
  fun c => (answer, c, [e]).

Declare Scope ctl_scope.
Delimit Scope ctl_scope with ctl.
Notation "x <- m ;; k" := (bind m (fun x => k))
  (at level 61, m at next level, right associativity) : ctl_scope.
Notation "m ;; k" := (bind m (fun _ => k))
  (at level 61, right associativity) : ctl_scope.
Local Open Scope ctl_scope.

Definition pass : M unit := ret tt.

Definition log (line : str) : M unit := emit (Log line).
Definition on_status (online : bool) : M unit := emit (Status online).

(** [self._proc = p].  The handle is the one field that the rest of the
    program reads, through [process], [pid] and [is_running()], so its
    assignments are part of what a run shows. *)
Definition set_proc (p : option process) : M unit :=
  c <- get ;;
  put (mkCtl (server_cmd c) (cwd c) p (reader_tasks c) (wait_task c)) ;;
  emit (SetProc p).

Definition set_reader_tasks (ts : list task) : M unit :=
  c <- get ;;
  put (mkCtl (server_cmd c) (cwd c) (proc c) ts (wait_task c)).

Definition set_wait_task (w : option task) : M unit :=
  c <- get ;;
  put (mkCtl (server_cmd c) (cwd c) (proc c) (reader_tasks c) w).

(** *** Accessors *)

(** The [pid] property. *)
Definition pid_of (c : t) : option Z :=
  match proc c with Some p => pid p | None => None end.

(** [is_running()] *)
Definition is_running (c : t) : bool :=
  match proc c with
  | Some p => match returncode p with None => true | Some _ => false end
  | None => false
  end.

(** *** [start()] *)

Definition start (env : os) : M unit :=
  c <- get ;;
  if is_running c then log (lit "Server is already running.")
  else
    match cwd c with
    | Some (ch :: d) => log (lit "Working directory: " ++ ch :: d)
    | _ => pass
    end ;;
    log (lit "Starting server: " ++ server_cmd c) ;;
    p <- call (Spawn (server_cmd c) (cwd c)) (create_subprocess_shell env) ;;
    set_proc (Some p) ;;
    on_status true ;;
    match pid p with
    | Some n => log (lit "Server started (PID=" ++ str_of_int n ++ lit ").")
    | None => pass
    end ;;
    emit (CreateTask (ReadStream (stdout p))) ;;
    emit (CreateTask (ReadStream (stderr p))) ;;
    set_reader_tasks [ReadStream (stdout p); ReadStream (stderr p)] ;;
    emit (CreateTask WaitForExit) ;;
    set_wait_task (Some WaitForExit).

(** *** [_cancel_readers()]

    [gather(..., return_exceptions=True)] hands failures back as values,
    and the closing test on the wait task changes nothing. *)
Definition cancel_readers (env : os) : M unit :=
  c <- get ;;
  let tasks := filter (fun t => negb (task_done env t)) (reader_tasks c) in
  fold_right (fun t k => emit (Cancel t) ;; k) pass tasks ;;
  match tasks with
  | [] => pass
  | _ => emit (Gather tasks)
  end ;;
  set_reader_tasks [].

(** *** [_close_stdin(proc)] *)
Definition close_stdin (env : os) (p : process) : M unit :=
  match stdin p with
  | None => pass
  | Some _ =>
      try_except
        (call StdinClose (stdin_close env) ;;
         if stdin_has_wait_closed env
         then call StdinWaitClosed (stdin_wait_closed env)
         else pass)
        (fun _ => pass)
  end.

(** *** [_terminate_process(proc)] *)

(** Signal the process group, or the process itself when that fails. *)
Definition signal_group (n : Z) (s : signal)
           (getpgid : result Z) (killpg : result unit)
           (direct : event) (direct_answer : result unit) : M unit :=
  try_except
    (pgid <- call (Getpgid n) getpgid ;;
     call (Killpg pgid s) killpg)
    (fun _ => try_except (call direct direct_answer) (fun _ => pass)).

Definition terminate_process (env : os) (p : process) : M unit :=
  match pid p with
  | None => pass
  | Some n =>
      signal_group n SIGTERM (getpgid_term env) (killpg_term env)
                   Terminate (proc_terminate env) ;;
      timed_out <-
        try_except_timeout
          (call (WaitFor 5) (wait_graceful env) ;; ret false)
          (log (lit "Server did not stop in time; force killing...") ;;
           ret true) ;;
      if timed_out : bool then
        signal_group n SIGKILL (getpgid_kill env) (killpg_kill env)
                     Kill (proc_kill env) ;;
        try_except
          (call (WaitFor 3) (wait_forced env))
          (fun _ => try_except (call Wait (wait_final env)) (fun _ => pass))
      else pass
  end.

(** *** [stop()] *)
Definition stop (env : os) : M unit :=
  c <- get ;;
  match proc c with
  | None => pass
  | Some p =>
      log (lit "Stopping server...") ;;
      cancel_readers env ;;
      close_stdin env p ;;
      terminate_process env p ;;
      set_proc None ;;
      on_status false
  end.

(** *** [send_command(command)] *)
Definition send_command (env : os) (command : str) : M unit :=
  c <- get ;;
  match proc c with
  | Some (mkProcess _ _ (Some _) _ _) =>
      emit (StdinWrite (encode_utf8_replace (command ++ [LF]))) ;;
      call StdinDrain (stdin_drain env)
  | _ => log (lit "Server is not running.")
  end.

(** *** Reading a trace *)

Definition is_online (e : event) : bool :=
  match e with Status true => true | _ => false end.

Definition is_spawn (e : event) : bool :=
  match e with Spawn _ _ => true | _ => false end.

Definition is_signal (e : event) : bool :=
  match e with Killpg _ _ | Terminate | Kill => true | _ => false end.

Definition is_wait (e : event) : bool :=
  match e with WaitFor _ | Wait => true | _ => false end.

Definition is_set_proc (e : event) : bool :=
  match e with SetProc _ => true | _ => false end.

(** A stretch of the trace with no signal, no wait and no assignment to
    the handle in it. *)
Definition quiet (tr : list event) : Prop :=
  Forall (fun e => is_signal e = false /\ is_wait e = false
                   /\ is_set_proc e = false) tr.

Definition count (f : event -> bool) (tr : list event) : nat :=
  List.length (filter f tr).

(** The graceful step: [SIGTERM] to the group of [n], or
    [proc.terminate()] once the lookup or the group signal has failed. *)
Inductive graceful_step (n : Z) : list event -> Prop :=
| graceful_group g :
    graceful_step n [Getpgid n; Killpg g SIGTERM]
| graceful_no_group :
    graceful_step n [Getpgid n; Terminate]
| graceful_group_failed g :
    graceful_step n [Getpgid n; Killpg g SIGTERM; Terminate].

(** The forced step: the same with [SIGKILL] and [proc.kill()]. *)
Inductive forced_step (n : Z) : list event -> Prop :=
| forced_group g :
    forced_step n [Getpgid n; Killpg g SIGKILL]
| forced_no_group :
    forced_step n [Getpgid n; Kill]
| forced_group_failed g :
    forced_step n [Getpgid n; Killpg g SIGKILL; Kill].

(** The waits that follow the forced step: at most 3 time units, and
    then, when that wait fails, one wait without a bound. *)
Inductive forced_wait : list event -> Prop :=
| forced_wait_bounded : forced_wait [WaitFor 3]
| forced_wait_then_unbounded : forced_wait [WaitFor 3; Wait].

(** *** [_read_stream(stream)] *)

Definition ESC : char := 27%N.

(** [[0-9;]] and [[mKHF]] of [_ANSI_RE] *)
Definition is_param (c : char) : bool :=
  ((48 <=? c) && (c <=? 57) || (c =? 59))%N.

Definition is_final (c : char) : bool :=
  ((c =? 109) || (c =? 75) || (c =? 72) || (c =? 70))%N.

(** [_ANSI_RE.sub] with the empty replacement: the matches are taken from left to right
    and do not overlap.  [in_params] tells that the scan is inside a
    match, after its [ESC [] and parameters so far. *)
Fixpoint ANSI_RE_sub (in_params : bool) (s : str) : str :=
  match s with
  | [] => []
  | c :: rest =>
      if in_params && is_param c then ANSI_RE_sub true rest
      else if in_params && is_final c then ANSI_RE_sub false rest
      else
        match rest with
        | c2 :: rest2 =>
            if ((c =? ESC) && (c2 =? 91))%N then ANSI_RE_sub true rest2
            else c :: ANSI_RE_sub false rest
        | [] => [c]
        end
  end.

Definition is_crlf (c : char) : bool := ((c =? CR) || (c =? LF))%N.

(** What the loop body logs for one line read. *)
Definition clean_line (line : bytes) : str :=
  ANSI_RE_sub false (rstrip is_crlf (decode_utf8_replace line)).

(** [answers] are the answers of [stream.readline()] in order.  An empty
    line, or the end of the list, is the end of the input; a call that
    raises is not caught, so it ends the loop and the reader with it. *)
Fixpoint read_lines (answers : list (result bytes)) : M unit :=
  match answers with
  | [] => pass
  | Ok [] :: _ => pass
  | Ok line :: rest => log (clean_line line) ;; read_lines rest
  | Raise e :: _ => raise e
  end.

Definition read_stream (stream : option (list (result bytes))) : M unit :=
  match stream with
  | None => pass
  | Some answers => read_lines answers
  end.

(** *** [_wait_for_exit()] *)

(** [try: m  finally: f] *)
Definition try_finally {A} (m : M A) (f : M unit) : M A :=
  fun c =>
    let '(r, c1, tr1) := m c in
    match f c1 with
    | (Ok _, c2, tr2) => (r, c2, tr1 ++ tr2)
    | (Raise e, c2, tr2) => (Raise e, c2, tr1 ++ tr2)
    end.

(** The [try] statement of the watcher; [waited] is the answer of
    [proc.wait()], the return code once the child is gone. *)
Definition exit_teardown (env : os) (waited : result Z) : M unit :=
  try_finally
    (rc <- call Wait waited ;;
     log (lit "Server exited (code " ++ str_of_int rc ++ lit ")."))
    (cancel_readers env ;;
     set_proc None ;;
     on_status false).

Definition wait_for_exit (env : os) (waited : result Z) : M unit :=
  c <- get ;;
  match proc c with
  | None => pass
  | Some _ => exit_teardown env waited
  end.

Definition is_offline (e : event) : bool :=
  match e with Status false => true | _ => false end.

Definition is_log (e : event) : bool :=
  match e with Log _ => true | _ => false end.

End Controller.

(** ** The command history: [bedrux_tui/app.py] and [bedrux_tui/widgets.py] *)

Module History.

(** [xs[-200:]] *)
Definition last_200 (xs : list str) : list str :=
  skipn (List.length xs - 200) xs.

(** The opening of [BedruxMonitorApp.on_input_submitted]: the command is
    the stripped value of the event, and a non-empty command that differs
    from the latest entry is appended to [cmd_history], which is then cut
    to its last 200 entries.  The result is the command and the history
    after the statement. *)
Definition remember_command (cmd_history : list str) (value : option str)
  : str * list str :=
  let command := strip (match value with Some v => v | None => [] end) in
  match command with
  | [] => (command, cmd_history)
  | _ =>
      match rev cmd_history with
      | latest :: _ =>
          if str_eqb latest command then (command, cmd_history)
          else (command, last_200 (cmd_history ++ [command]))
      | [] => (command, last_200 (cmd_history ++ [command]))
      end
  end.

(** The fields of a [HistoryInput] that its key handlers use.  [hist_pos]
    and [saved] are [None] while the attribute is unset ([hist_pos] also
    when it holds [None]). *)
Record input : Type := mkInput {
  value : str;
  cursor_position : Z;
  hist_pos : option Z;
  saved : option str
}.

(** [on_blur()] *)
Definition on_blur (w : input) : input :=
  mkInput (value w) (cursor_position w) None (saved w).

(** [key_up()]; [history] is [app.cmd_history], empty without an app.
    The position is stored before the entry is read, so a failed read
    leaves it set. *)
Definition key_up (history : list str) (w : input)
  : input * (unit + index_error) :=
  match history with
  | [] => (w, inl tt)
  | _ =>
      let '(pos, saved') :=
        match hist_pos w with
        | None => (Z.of_nat (List.length history) - 1, Some (value w))%Z
        | Some p => (Z.max 0 (p - 1), saved w)
        end in
      match getitem history pos with
      | inl entry => (mkInput entry (len entry) (Some pos) saved', inl tt)
      | inr e =>
          (mkInput (value w) (cursor_position w) (Some pos) saved', inr e)
      end
  end.

(** [key_down()] *)
Definition key_down (history : list str) (w : input)
  : input * (unit + index_error) :=
  match history, hist_pos w with
  | [], _ | _, None => (w, inl tt)
  | _, Some pos =>
      if (pos <? Z.of_nat (List.length history) - 1)%Z then
        match getitem history (pos + 1) with
        | inl entry =>
            (mkInput entry (len entry) (Some (pos + 1)%Z) (saved w), inl tt)
        | inr e =>
            (mkInput (value w) (cursor_position w) (Some (pos + 1)%Z) (saved w),
             inr e)
        end
      else
        let v := match saved w with Some s => s | None => [] end in
        (mkInput v (len v) None (saved w), inl tt)
  end.

Inductive key : Type := Up | Down.

(** A run of key presses, stopped by the first failure. *)
Fixpoint press (keys : list key) (history : list str) (w : input)
  : input * (unit + index_error) :=
  match keys with
  | [] => (w, inl tt)
  | k :: rest =>
      match (match k with Up => key_up | Down => key_down end) history w with
      | (w', inl _) => press rest history w'
      | (w', inr e) => (w', inr e)
      end
  end.

End History.

(** ** The names of backup archives: [bedrux_tui/backup.py] *)

Module Backup.

(** The clock reading that [datetime.datetime.now()] hands to
    [strftime]. *)
Record datetime : Type := mkDatetime {
  year : Z; month : Z; day : Z;
  hour : Z; minute : Z; second : Z
}.

Definition digit (n : Z) : char := (48 + Z.to_N n)%N.

(** A zero-padded field of two digits, as [%m %d %H %M %S] give. *)
Definition two_digits (n : Z) : str := [digit (n / 10); digit (n mod 10)].

(** [%Y] for a year of four digits (1000 to 9999). *)
Definition four_digits (n : Z) : str :=
  two_digits (n / 100) ++ two_digits (n mod 100).

Definition UNDERSCORE : char := 95%N.

(** [now.strftime("%Y%m%d_%H%M%S")] *)
Definition strftime_stamp (now : datetime) : str :=
  four_digits (year now) ++ two_digits (month now) ++ two_digits (day now)
  ++ [UNDERSCORE]
  ++ two_digits (hour now) ++ two_digits (minute now) ++ two_digits (second now).

Section Names.

(** [str.isalnum] on one character, a table of the Unicode database. *)
Variable isalnum : char -> bool.

(** The [safe_name] of [make_backup]. *)
Definition safe_name (instance_name : str) : str :=
  List.map (fun c => if isalnum c || (c =? HYPHEN)%N || (c =? UNDERSCORE)%N
                     then c else UNDERSCORE)
           instance_name.

(** The file name of the archive that [make_backup] writes. *)
Definition archive_name (instance_name : str) (now : datetime) : str :=
  safe_name instance_name ++ [UNDERSCORE] ++ strftime_stamp now ++ lit ".zip".

End Names.

(** [PurePath.stem] of a file name: the name without its last suffix. *)
Definition stem (name : str) : str :=
  let i := rfind 46%N name (len name) in
  if ((0 <? i) && (i <? len name - 1))%Z then slice_to name i else name.

(** [s[a:b]] for two indices that are not negative. *)
Definition slice (s : str) (a b : Z) : str := slice_from (slice_to s b) a.

(** The parsing of a stem in [list_backups]: the instance name and the
    timestamp shown for it. *)
Definition parse_stem (stem : str) : str * str :=
  match rsplit UNDERSCORE 2 stem with
  | instance_name :: date_part :: time_part :: _ =>
      (instance_name,
       slice date_part 0 4 ++ lit "-" ++ slice date_part 4 6 ++ lit "-"
       ++ slice date_part 6 8 ++ lit " "
       ++ slice time_part 0 2 ++ lit ":" ++ slice time_part 2 4 ++ lit ":"
       ++ slice time_part 4 6)
  | _ => (stem, lit "unknown")
  end.

(** The instance name under which [restore_backup] restores: the new
    name when one is given, the name parsed from the stem of the archive
    otherwise, and that name with [_restored_] and a timestamp after it
    when the directory of that instance is already there.  [dir_exists]
    answers [(target_path / name).exists()], and [now] is the clock
    reading taken in that case. *)
Definition restored_name (new_name : option str) (stem : str)
           (dir_exists : str -> bool) (now : datetime) : str :=
  let instance_name :=
    match new_name with
    | Some (c :: name) => c :: name
    | _ =>
        match rsplit UNDERSCORE 2 stem with
        | instance_name :: _ :: _ :: _ => instance_name
        | _ => stem
        end
    end in
  if dir_exists instance_name
  then instance_name ++ lit "_restored_" ++ strftime_stamp now
  else instance_name.

End Backup.

(** ** Vocabulary of the properties *)

(** The [k] most recent entries of [l], oldest first. *)
Definition most_recent {A} (k : nat) (l : list A) : list A :=
  skipn (List.length l - k) l.

(** [line] is a stretch of [msg] that begins and ends at word boundaries:
    it does not start or end with a blank, what precedes it in [msg] is
    nothing or ends with a blank, and what follows is nothing or begins
    with one. *)
Definition word_slice (line msg : str) : Prop :=
  exists before after_,
    msg = before ++ line ++ after_
    /\ hd_error line <> Some SPACE
    /\ hd_error (rev line) <> Some SPACE
    /\ (before = [] \/ hd_error (rev before) = Some SPACE)
    /\ (after_ = [] \/ hd_error after_ = Some SPACE).

(** A CPU figure on the 0 to 100 scale. *)
Definition percentage (x : Q) : Prop := 0 <= x /\ x <= 100.

(** What every sampler built by [Stats.new] satisfies from then on: room
    for at least one reading, no more readings than there is room for,
    and every reading a percentage. *)
Definition window_ok (s : Stats.t) : Prop :=
  (1 <= Stats.maxlen (Stats.cpu_history s))%Z
  /\ (Z.of_nat (List.length (Stats.items (Stats.cpu_history s)))
      <= Stats.maxlen (Stats.cpu_history s))%Z
  /\ Forall percentage (Stats.items (Stats.cpu_history s)).

(** One process that reports [cpu] percent and [rss] bytes, with nothing
    else failing and no children. *)
Definition lone_process (pid : Z) (cpu : Q) (rss : Z) : Stats.observation :=
  Stats.mkObs (Stats.mkProc pid (Ok cpu) (Ok rss)) (Ok []) (Ok 0) (Ok 8589934592%Z).

Definition target_pid (o : Stats.observation) : Z :=
  Stats.ps_pid (Stats.target o).

(** A child with its three pipes, an operating system on which every
    call succeeds and the child leaves on the first signal, one on which
    the child outlives the graceful wait, and a controller that owns the
    child. *)
Definition example_process : Controller.process :=
  Controller.mkProcess (Some 4242%Z) None
    (Some (Controller.Pipe 7)) (Some (Controller.Pipe 8)) (Some (Controller.Pipe 9)).

Definition cooperative_os : Controller.os :=
  Controller.mkOs (Ok example_process) (fun _ => false)
    (Ok tt) true (Ok tt) (Ok tt)
    (Ok 4242%Z) (Ok tt) (Ok tt) (Ok tt)
    (Ok 4242%Z) (Ok tt) (Ok tt) (Ok tt) (Ok tt).

Definition stubborn_os : Controller.os :=
  Controller.mkOs (Ok example_process) (fun _ => false)
    (Ok tt) true (Ok tt) (Ok tt)
    (Ok 4242%Z) (Ok tt) (Ok tt) (Raise TimeoutError)
    (Ok 4242%Z) (Ok tt) (Ok tt) (Ok tt) (Ok tt).

Definition idle_controller : Controller.t :=
  Controller.new (lit "./bedrock_server") (Some (lit "/srv/bedrock")).

Definition running_controller : Controller.t :=
  Controller.mkCtl (lit "./bedrock_server") (Some (lit "/srv/bedrock"))
    (Some example_process)
    [Controller.ReadStream (Some (Controller.Pipe 8));
     Controller.ReadStream (Some (Controller.Pipe 9))]
    (Some Controller.WaitForExit).

(** What a signalling step has to show for the answers it gets: the
    group of [n] is looked up; [s] goes to the group that the lookup
    named, and to no other; and the call on the process itself is made
    exactly when the lookup or the group signal failed. *)
Definition group_then_process
           (n : Z) (s : Controller.signal) (direct : Controller.event)
           (getpgid : result Z) (killpg : result unit)
  : list Controller.event :=
  match getpgid, killpg with
  | Ok g, Ok _ => [Controller.Getpgid n; Controller.Killpg g s]
  | Ok g, Raise _ => [Controller.Getpgid n; Controller.Killpg g s; direct]
  | Raise _, _ => [Controller.Getpgid n; direct]
  end.

(** The waits after the forced step: one of at most 3 time units, and one
    without a bound exactly when that one failed. *)
Definition waits_after_kill (wait_forced : result unit)
  : list Controller.event :=
  match wait_forced with
  | Ok _ => [Controller.WaitFor 3]
  | Raise _ => [Controller.WaitFor 3; Controller.Wait]
  end.

(** The reader tasks that are not done, and what cancelling them shows:
    one [cancel()] each, in order, and one [gather] of them all when
    there is any. *)
Definition pending_readers (env : Controller.os) (c : Controller.t)
  : list Controller.task :=
  filter (fun t => negb (Controller.task_done env t)) (Controller.reader_tasks c).

Definition cancellation (ts : list Controller.task) : list Controller.event :=
  List.map Controller.Cancel ts
  ++ match ts with [] => [] | _ :: _ => [Controller.Gather ts] end.

(** The forced signals, the two status reports and the creation of a
    background task, as events of a trace. *)
Definition is_forced (e : Controller.event) : bool :=
  match e with
  | Controller.Killpg _ Controller.SIGKILL | Controller.Kill => true
  | _ => false
  end.

Definition is_status (e : Controller.event) : bool :=
  match e with Controller.Status _ => true | _ => false end.

Definition is_create_task (e : Controller.event) : bool :=
  match e with Controller.CreateTask _ => true | _ => false end.

Definition is_write (e : Controller.event) : bool :=
  match e with
  | Controller.StdinWrite _ | Controller.StdinDrain => true
  | _ => false
  end.

(** A Unicode scalar value: a code point that is not a surrogate, the
    characters that UTF-8 can carry. *)
Definition scalar (c : char) : bool :=
  ((c <? 0xD800) || (0xE000 <=? c) && (c <? 0x110000))%N.

Definition not_esc (c : char) : bool := negb (c =? Controller.ESC)%N.

Definition not_lf (c : char) : bool := negb (c =? LF)%N.

(** The characters a reader sees: everything but white space. *)
Definition visible (c : char) : bool := negb (isspace c).

Definition ink (s : str) : str := filter visible s.

Definition no_linebreak (s : str) : bool :=
  forallb (fun c => negb (is_linebreak c)) s.

(** No entry of the history equals the one after it. *)
Fixpoint adjacent_distinct (h : list str) : bool :=
  match h with
  | a :: (b :: _) as rest => negb (str_eqb a b) && adjacent_distinct rest
  | _ => true
  end.

(** The browsing position, when there is one, points into the history. *)
Definition position_ok (history : list str) (w : History.input) : Prop :=
  match History.hist_pos w with
  | None => True
  | Some p => (0 <= p < Z.of_nat (List.length history))%Z
  end.

(** A clock reading with a year of four digits. *)
Definition on_the_clock (now : Backup.datetime) : Prop :=
  (1000 <= Backup.year now <= 9999)%Z
  /\ (1 <= Backup.month now <= 12)%Z
  /\ (1 <= Backup.day now <= 31)%Z
  /\ (0 <= Backup.hour now <= 23)%Z
  /\ (0 <= Backup.minute now <= 59)%Z
  /\ (0 <= Backup.second now <= 59)%Z.

(** The timestamp that [list_backups] shows for a clock reading. *)
Definition shown_timestamp (now : Backup.datetime) : str :=
  Backup.four_digits (Backup.year now) ++ lit "-"
  ++ Backup.two_digits (Backup.month now) ++ lit "-"
  ++ Backup.two_digits (Backup.day now) ++ lit " "
  ++ Backup.two_digits (Backup.hour now) ++ lit ":"
  ++ Backup.two_digits (Backup.minute now) ++ lit ":"
  ++ Backup.two_digits (Backup.second now).

Definition no_underscore (s : str) : bool :=
  forallb (fun c => negb (c =? Backup.UNDERSCORE)%N) s.

(** What [safe_name] lets through. *)
Definition allowed_in_names (isalnum : char -> bool) (c : char) : bool :=
  isalnum c || (c =? HYPHEN)%N || (c =? Backup.UNDERSCORE)%N.

Definition example_clock : Backup.datetime :=
  Backup.mkDatetime 2026 11 4 9 5 30.

(** The buffer of the rendering example of the specification. *)
Definition example_message : str := lit "a very long line of text".

Definition example_buffer : LogBuffer.t :=
  LogBuffer.append (LogBuffer.new 10) example_message.

Definition example_rendering : str :=
  lit "a very long line of" ++ [LF] ++ lit "text".

(** ** The log buffer *)

Section KeepLast.

Variable A : Type.

Lemma most_recent_length (k : nat) (l : list A) :
  List.length (most_recent k l) = Nat.min k (List.length l).
Proof.
  unfold most_recent. rewrite length_skipn. lia.
Qed.

Lemma most_recent_all (k : nat) (l : list A) :
  (List.length l <= k)%nat -> most_recent k l = l.
Proof.
  intros H. unfold most_recent.
  replace (List.length l - k)%nat with 0%nat by lia. reflexivity.
Qed.

(** Trimming, adding one entry and trimming again is trimming once. *)
Lemma most_recent_snoc (k : nat) (l : list A) (x : A) :
  most_recent k (most_recent k l ++ [x]) = most_recent k (l ++ [x]).
Proof.
  unfold most_recent.
  rewrite !skipn_app, skipn_skipn, !length_app, !length_skipn. simpl.
  f_equal; f_equal; lia.
Qed.

End KeepLast.

(** [keep_last] with a positive cap keeps the most recent entries. *)
Lemma keep_last_most_recent (items : list str) (n : Z) :
  (0 <= n)%Z -> Util.keep_last items n = most_recent (Z.to_nat n) items.
Proof.
  intros Hn. unfold Util.keep_last.
  destruct (Z.leb_spec n 0) as [H0 | H0].
  - assert (n = 0%Z) by lia. subst n. unfold most_recent. simpl.
    rewrite Nat.sub_0_r, skipn_all. reflexivity.
  - destruct (Z.leb_spec (Z.of_nat (List.length items)) n) as [H1 | H1].
    + rewrite most_recent_all by lia. reflexivity.
    + reflexivity.
Qed.

Lemma keep_last_nonpositive (items : list str) (n : Z) :
  (n <= 0)%Z -> Util.keep_last items n = [].
Proof.
  intros Hn. unfold Util.keep_last.
  destruct (Z.leb_spec n 0); [reflexivity | lia].
Qed.

Lemma append_messages (b : LogBuffer.t) (t : str) :
  LogBuffer.messages (LogBuffer.append b t)
  = Util.keep_last (LogBuffer.messages b ++ [t]) (LogBuffer.max_messages b).
Proof. reflexivity. Qed.

Lemma append_max_messages (b : LogBuffer.t) (t : str) :
  LogBuffer.max_messages (LogBuffer.append b t) = LogBuffer.max_messages b.
Proof. reflexivity. Qed.

Lemma appends_max_messages (texts : list str) (b : LogBuffer.t) :
  LogBuffer.max_messages (LogBuffer.appends b texts) = LogBuffer.max_messages b.
Proof.
  revert b. induction texts as [| t texts IH]; intros b; simpl.
  - reflexivity.
  - unfold LogBuffer.appends in *. simpl. rewrite IH. reflexivity.
Qed.

Lemma appends_snoc (texts : list str) (t : str) (b : LogBuffer.t) :
  LogBuffer.appends b (texts ++ [t])
  = LogBuffer.append (LogBuffer.appends b texts) t.
Proof.
  unfold LogBuffer.appends. rewrite fold_left_app. reflexivity.
Qed.

(** After at least one append the store is the trimmed history. *)
Lemma appends_messages (b : LogBuffer.t) (texts : list str) (t : str) :
  (0 <= LogBuffer.max_messages b)%Z ->
  LogBuffer.messages (LogBuffer.append (LogBuffer.appends b texts) t)
  = most_recent (Z.to_nat (LogBuffer.max_messages b))
                (LogBuffer.messages b ++ texts ++ [t]).
Proof.
  intros Hn. revert t.
  induction texts as [| u texts IH] using rev_ind; intros t.
  - simpl. apply keep_last_most_recent. exact Hn.
  - rewrite appends_snoc, append_messages, append_max_messages.
    rewrite appends_max_messages, IH.
    rewrite keep_last_most_recent by exact Hn.
    rewrite most_recent_snoc.
    rewrite <- !app_assoc. reflexivity.
Qed.

(** C2.  Whatever was appended before, after an append to a buffer of
    capacity [max_messages] the store holds at most [max_messages]
    entries, and they are the most recently appended messages in the
    order in which they were appended. *)
Theorem log_buffer_keeps_most_recent
        (b : LogBuffer.t) (texts : list str) (t : str) :
  (0 <= LogBuffer.max_messages b)%Z ->
  let b' := LogBuffer.append (LogBuffer.appends b texts) t in
  (Z.of_nat (List.length (LogBuffer.messages b')) <= LogBuffer.max_messages b)%Z
  /\ LogBuffer.messages b'
     = most_recent (Z.to_nat (LogBuffer.max_messages b))
                   (LogBuffer.messages b ++ texts ++ [t])
  /\ LogBuffer.max_messages b' = LogBuffer.max_messages b.
Proof.
  intros Hn b'. subst b'.
  rewrite appends_messages by exact Hn.
  rewrite most_recent_length, append_max_messages, appends_max_messages.
  repeat split. lia.
Qed.

Lemma log_buffer_keeps_most_recent_witness :
  let b := LogBuffer.new 2 in
  (0 <= LogBuffer.max_messages b)%Z
  /\ LogBuffer.messages
       (LogBuffer.append (LogBuffer.appends b [lit "one"; lit "two"]) (lit "three"))
     = [lit "two"; lit "three"].
Proof.
  split; [simpl; lia |].
  destruct (log_buffer_keeps_most_recent
              (LogBuffer.new 2) [lit "one"; lit "two"] (lit "three"))
    as (_ & H & _); [simpl; lia |].
  rewrite H. reflexivity.
Defined.

(** C9.  With [max_messages <= 0] the store is empty after every append,
    and [render] then returns the empty list at every width. *)
Theorem log_buffer_nonpositive_cap_is_empty
        (b : LogBuffer.t) (t : str) (width : Z) :
  (LogBuffer.max_messages b <= 0)%Z ->
  LogBuffer.messages (LogBuffer.append b t) = []
  /\ LogBuffer.render (LogBuffer.append b t) width = Ok []
  /\ LogBuffer.max_messages (LogBuffer.append b t) = LogBuffer.max_messages b.
Proof.
  intros Hn.
  assert (H : LogBuffer.messages (LogBuffer.append b t) = []).
  { rewrite append_messages. apply keep_last_nonpositive. exact Hn. }
  repeat split.
  - exact H.
  - unfold LogBuffer.render. rewrite H. reflexivity.
Qed.

Lemma log_buffer_nonpositive_cap_is_empty_witness :
  (LogBuffer.max_messages (LogBuffer.new (-3)) <= 0)%Z
  /\ LogBuffer.render (LogBuffer.append (LogBuffer.new (-3)) (lit "lost")) 80
     = Ok [].
Proof.
  split; [simpl; lia |].
  apply (log_buffer_nonpositive_cap_is_empty
           (LogBuffer.new (-3)) (lit "lost") 80).
  simpl; lia.
Defined.

(** ** Wrapping

    [wrap_loop] and [split_from] run on a budget computed from their
    input; the lemmas below show that the budget is never the reason for
    which they stop, so that they are the loops of the library. *)

Section Wrapping.

Import TextWrap.

Lemma weight_cons (c : str) (cs : list str) :
  weight (c :: cs) = S (List.length c + weight cs).
Proof.
  unfold weight. simpl. rewrite length_app. lia.
Qed.

(** The inner loop either takes nothing, because the next chunk does not
    fit, or leaves strictly less to do. *)
Lemma take_fitting_progress (chunks : list str) :
  forall (cur_line : list str) (cur_len width : Z)
         (chunks2 cur_line2 : list str) (cur_len2 : Z),
    take_fitting chunks cur_line cur_len width = (chunks2, cur_line2, cur_len2) ->
    (chunks2 = chunks /\ cur_line2 = cur_line /\ cur_len2 = cur_len
     /\ match chunks with
        | c :: _ => (width < cur_len + len c)%Z
        | [] => True
        end)
    \/ (weight chunks2 < weight chunks)%nat.
Proof.
  induction chunks as [| c rest IH]; intros cl n w chunks2 cl2 n2 H; simpl in H.
  - injection H as <- <- <-. left. auto.
  - destruct (Z.leb_spec (n + len c) w) as [Hfit | Hfit].
    + right. rewrite weight_cons.
      destruct (IH _ _ _ _ _ _ H) as [(-> & _) | Hlt]; lia.
    + injection H as <- <- <-. left. auto.
Qed.

Lemma slice_from_length (s : str) (b : Z) :
  (List.length (slice_from s b) <= List.length s)%nat.
Proof.
  unfold slice_from. rewrite length_skipn. lia.
Qed.

Lemma slice_from_shorter (s : str) (b : Z) :
  (1 <= b)%Z -> s <> [] ->
  (List.length (slice_from s b) < List.length s)%nat.
Proof.
  intros Hb Hs. unfold slice_from, norm_index, len.
  rewrite length_skipn.
  destruct s as [| x s]; [contradiction |]. simpl List.length.
  destruct (Z.ltb_spec b 0); lia.
Qed.

(** Breaking a long word never adds work, and removes some when the line
    is still empty. *)
Lemma handle_long_word_progress
      (c : str) (rest cur_line : list str) (cur_len width : Z) :
  (weight (fst (handle_long_word (c :: rest) cur_line cur_len width))
   <= weight (c :: rest))%nat
  /\ (cur_len = 0%Z -> (1 <= width)%Z -> (width < len c)%Z ->
      (weight (fst (handle_long_word (c :: rest) cur_line cur_len width))
       < weight (c :: rest))%nat).
Proof.
  unfold handle_long_word. cbv zeta. cbn [fst]. rewrite !weight_cons.
  split.
  - pose proof (slice_from_length c
      (if ((if (width <? 1)%Z then 1%Z else (width - cur_len)%Z) <? len c)%Z
          && (0 <? rfind HYPHEN c
                     (if (width <? 1)%Z then 1%Z else (width - cur_len)%Z))%Z
          && existsb (fun c0 => negb (is_hyphen c0))
               (slice_to c
                  (rfind HYPHEN c
                     (if (width <? 1)%Z then 1%Z else (width - cur_len)%Z)))
       then (rfind HYPHEN c
               (if (width <? 1)%Z then 1%Z else (width - cur_len)%Z) + 1)%Z
       else if (width <? 1)%Z then 1%Z else (width - cur_len)%Z)).
    lia.
  - intros -> Hw Hc.
    assert (Hne : c <> []).
    { intros ->. unfold len in Hc. simpl in Hc. lia. }
    destruct (Z.ltb_spec width 1) as [? | _]; [lia |].
    rewrite Z.sub_0_r.
    match goal with
    | |- (S (List.length (slice_from c ?e) + _) < _)%nat =>
        assert (He : (1 <= e)%Z)
    end.
    { destruct (_ && _ && _) eqn:E; [| lia].
      apply andb_prop in E as [E _]. apply andb_prop in E as [_ E].
      apply Z.ltb_lt in E. lia. }
    pose proof (slice_from_shorter c _ He Hne). lia.
Qed.

(** Every pass of the outer loop leaves strictly less to do. *)
Lemma wrap_step_progress (chunks lines : list str) (width : Z) :
  chunks <> [] -> (1 <= width)%Z ->
  (weight (fst (wrap_step chunks lines width)) < weight chunks)%nat.
Proof.
  intros Hne Hw. unfold wrap_step.
  destruct chunks as [| c rest]; [contradiction |].
  set (chunks1 := if strip_is_empty c && nonempty lines then rest else c :: rest).
  assert (H1 : (chunks1 = c :: rest) \/ (weight chunks1 < weight (c :: rest))%nat).
  { subst chunks1. destruct (_ && _); [right; rewrite weight_cons; lia | left; reflexivity]. }
  destruct (take_fitting chunks1 [] 0 width) as [[chunks2 cur_line] cur_len] eqn:Htake.
  destruct (take_fitting_progress _ _ _ _ _ _ _ Htake)
    as [(-> & -> & -> & Hhead) | Hlt].
  - (* nothing taken *)
    destruct H1 as [H1 | H1].
    + rewrite H1 in *. simpl in Hhead.
      destruct (Z.ltb_spec width (len c)) as [Hlong | Hshort]; [| lia].
      destruct (handle_long_word (c :: rest) [] 0 width) as [chunks3 cl] eqn:Hh.
      cbn [fst].
      pose proof (handle_long_word_progress c rest [] 0 width) as [_ Hp].
      rewrite Hh in Hp. cbn [fst] in Hp. apply Hp; [reflexivity | lia | lia].
    + destruct chunks1 as [| c1 r1]; [cbn [fst]; exact H1 |].
      destruct (width <? len c1)%Z.
      * destruct (handle_long_word (c1 :: r1) [] 0 width) as [chunks3 cl] eqn:Hh.
        cbn [fst].
        pose proof (handle_long_word_progress c1 r1 [] 0 width) as [Hp _].
        rewrite Hh in Hp. cbn [fst] in Hp. lia.
      * cbn [fst]. exact H1.
  - (* something taken *)
    assert (H2 : (weight chunks2 < weight (c :: rest))%nat)
      by (destruct H1 as [H1 | H1]; [rewrite <- H1 |]; lia).
    destruct chunks2 as [| c2 r2]; [cbn [fst]; exact H2 |].
    destruct (width <? len c2)%Z.
    + destruct (handle_long_word (c2 :: r2) cur_line cur_len width)
        as [chunks3 cl] eqn:Hh.
      cbn [fst].
      pose proof (handle_long_word_progress c2 r2 cur_line cur_len width) as [Hp _].
      rewrite Hh in Hp. cbn [fst] in Hp. lia.
    + cbn [fst]. exact H2.
Qed.

Lemma weight_zero (chunks : list str) : weight chunks = 0%nat -> chunks = [].
Proof.
  destruct chunks; [reflexivity | rewrite weight_cons; discriminate].
Qed.

(** A budget of [weight chunks] is enough: a larger one gives the same
    lines. *)
Lemma wrap_loop_budget (width : Z) (fuel : nat) :
  (1 <= width)%Z ->
  forall (fuel' : nat) (chunks lines : list str),
    (weight chunks <= fuel)%nat -> (weight chunks <= fuel')%nat ->
    wrap_loop fuel chunks lines width = wrap_loop fuel' chunks lines width.
Proof.
  intros Hw. induction fuel as [| fuel IH]; intros fuel' chunks lines H H'.
  - assert (chunks = []) by (apply weight_zero; lia). subst chunks.
    destruct fuel'; reflexivity.
  - destruct chunks as [| c rest]; [destruct fuel'; reflexivity |].
    destruct fuel' as [| fuel']; [rewrite weight_cons in H'; lia |].
    simpl wrap_loop.
    pose proof (wrap_step_progress (c :: rest) lines width) as Hp.
    destruct (wrap_step (c :: rest) lines width) as [chunks' lines'].
    cbn [fst] in Hp.
    assert ((weight chunks' < weight (c :: rest))%nat)
      by (apply Hp; [discriminate | exact Hw]).
    apply IH; lia.
Qed.

(** The loop equation of [_wrap_chunks]: with chunks left, one pass and
    then the loop again on what that pass leaves. *)
Lemma wrap_loop_unfold (chunks lines : list str) (width : Z) :
  (1 <= width)%Z -> chunks <> [] ->
  wrap_loop (weight chunks) chunks lines width
  = wrap_loop (weight (fst (wrap_step chunks lines width)))
              (fst (wrap_step chunks lines width))
              (snd (wrap_step chunks lines width)) width.
Proof.
  intros Hw Hne.
  pose proof (wrap_step_progress chunks lines width Hne Hw) as Hp.
  destruct chunks as [| c rest]; [contradiction |].
  rewrite weight_cons in *. simpl wrap_loop.
  destruct (wrap_step (c :: rest) lines width) as [chunks' lines'].
  cbn [fst snd] in *.
  apply wrap_loop_budget; [exact Hw | lia | lia].
Qed.

End Wrapping.

Section Splitting.

Import TextWrap.

Lemma at_in_range (t : str) (p : nat) (P : char -> bool) :
  at_ t p P = true -> (p < List.length t)%nat.
Proof.
  unfold at_. destruct (nth_error t p) eqn:E; [| discriminate].
  intros _. apply nth_error_Some. rewrite E. discriminate.
Qed.

Lemma span_length (P : char -> bool) (l : str) :
  (span P l <= List.length l)%nat.
Proof.
  induction l as [| c l IH]; simpl; [lia |].
  destruct (P c); lia.
Qed.

Lemma span_positive (P : char -> bool) (t : str) (s : nat) :
  at_ t s P = true -> (1 <= span P (skipn s t))%nat.
Proof.
  unfold at_. rewrite <- hd_error_skipn.
  destruct (skipn s t) as [| c l]; simpl; [discriminate |].
  intros ->. lia.
Qed.

(** The word scan stays inside the text and never goes back. *)
Lemma word_end_bounds (t : str) (fuel : nat) :
  forall p, (p <= List.length t)%nat ->
            (p <= word_end fuel t p <= List.length t)%nat.
Proof.
  induction fuel as [| fuel IH]; intros p Hp; simpl; [lia |].
  destruct (hyphen_break t p) eqn:Hh.
  - unfold hyphen_break in Hh.
    repeat (apply andb_prop in Hh as [Hh _]).
    apply at_in_range in Hh. lia.
  - destruct (word_stop t p || before_em_dash t p) eqn:Hs; [lia |].
    apply orb_false_elim in Hs as [Hs _].
    unfold word_stop in Hs. apply orb_false_elim in Hs as [Hs _].
    apply Nat.leb_gt in Hs.
    specialize (IH (S p)). lia.
Qed.

(** One step of budget per position left is enough for the word scan. *)
Lemma word_end_budget (t : str) (fuel : nat) :
  forall fuel' p,
    (p <= List.length t)%nat ->
    (List.length t - p < fuel)%nat -> (List.length t - p < fuel')%nat ->
    word_end fuel t p = word_end fuel' t p.
Proof.
  induction fuel as [| fuel IH]; intros fuel' p Hp H H'; [lia |].
  destruct fuel' as [| fuel']; [lia |]. simpl.
  destruct (hyphen_break t p); [reflexivity |].
  destruct (word_stop t p || before_em_dash t p) eqn:Hs; [reflexivity |].
  apply orb_false_elim in Hs as [Hs _].
  unfold word_stop in Hs. apply orb_false_elim in Hs as [Hs _].
  apply Nat.leb_gt in Hs.
  apply IH; lia.
Qed.

(** Every chunk is non-empty and ends inside the text. *)
Lemma chunk_end_bounds (t : str) (s : nat) :
  (s < List.length t)%nat ->
  (s < chunk_end t s <= List.length t)%nat.
Proof.
  intros Hs. unfold chunk_end.
  destruct (at_ t s is_ws) eqn:Hws.
  - pose proof (span_positive is_ws t s Hws).
    pose proof (span_length is_ws (skipn s t)) as Hl.
    rewrite length_skipn in Hl. lia.
  - cbv zeta.
    destruct (negb (dashes_then_word t s =? 0)%nat && back t s 1 is_word_punct)
      eqn:Hd.
    + apply andb_prop in Hd as [Hd _].
      apply negb_true_iff, Nat.eqb_neq in Hd.
      unfold dashes_then_word in *.
      destruct ((2 <=? span is_hyphen (skipn s t))%nat
                && at_ t (s + span is_hyphen (skipn s t)) is_word) eqn:E;
        [| contradiction].
      apply andb_prop in E as [E1 E2].
      apply Nat.leb_le in E1. apply at_in_range in E2. lia.
    + pose proof (word_end_bounds t (List.length t - s) (S s)). lia.
Qed.

(** The chunks are consecutive stretches of the text: glued together
    they give back what was split. *)
Lemma split_from_concat (t : str) (fuel : nat) :
  forall s, (s <= List.length t)%nat -> (List.length t - s <= fuel)%nat ->
            List.concat (split_from fuel t s) = skipn s t.
Proof.
  induction fuel as [| fuel IH]; intros s Hs Hf; simpl.
  - rewrite skipn_all2 by lia. reflexivity.
  - destruct (Nat.leb_spec (List.length t) s) as [Hend | Hin].
    + rewrite skipn_all2 by lia. reflexivity.
    + pose proof (chunk_end_bounds t s Hin) as He.
      simpl. rewrite IH by lia.
      replace (chunk_end t s) with ((chunk_end t s - s) + s)%nat at 2 by lia.
      rewrite <- skipn_skipn. apply firstn_skipn.
Qed.

(** One step of budget per character left is enough for the split. *)
Lemma split_from_budget (t : str) (fuel : nat) :
  forall fuel' s,
    (List.length t - s <= fuel)%nat -> (List.length t - s <= fuel')%nat ->
    split_from fuel t s = split_from fuel' t s.
Proof.
  induction fuel as [| fuel IH]; intros fuel' s H H'.
  - destruct fuel' as [| fuel']; [reflexivity |]. simpl.
    destruct (Nat.leb_spec (List.length t) s); [reflexivity | lia].
  - destruct fuel' as [| fuel']; simpl;
      destruct (Nat.leb_spec (List.length t) s) as [Hend | Hin];
      try reflexivity; try lia.
    pose proof (chunk_end_bounds t s Hin).
    f_equal. apply IH; lia.
Qed.

Lemma concat_nonempty (l : list str) :
  List.concat (filter (fun c => negb (len c =? 0)%Z) l) = List.concat l.
Proof.
  induction l as [| c l IH]; [reflexivity |].
  cbn [filter]. destruct c as [| x c].
  - exact IH.
  - change (negb (len (x :: c) =? 0)%Z) with true.
    cbn [List.concat]. rewrite IH. reflexivity.
Qed.

(** [_split] loses nothing of its text. *)
Lemma split_concat (text : str) : List.concat (split text) = text.
Proof.
  unfold split. rewrite concat_nonempty.
  rewrite split_from_concat by lia. reflexivity.
Qed.

End Splitting.

(** ** Rendering *)

Lemma render_example_at_20 :
  LogBuffer.render example_buffer 20 = Ok [example_rendering].
Proof. vm_compute. reflexivity. Qed.

Lemma render_below_minimum (b : LogBuffer.t) (width : Z) :
  (width <= 20)%Z -> LogBuffer.render b width = LogBuffer.render b 20.
Proof.
  intros H. unfold LogBuffer.render.
  rewrite (Z.max_l 20 width) by exact H. reflexivity.
Qed.

Lemma example_rendering_lines :
  splitlines example_rendering = [lit "a very long line of"; lit "text"].
Proof. vm_compute. reflexivity. Qed.

(** The claim of C3 fails on the code: [render(10)] wraps at the enforced
    minimum of 20 columns, so it returns a single entry, and the first of
    the two lines in that entry has 19 characters. *)
Lemma render_example_not_within_10 :
  ~ (exists out,
        LogBuffer.render example_buffer 10 = Ok out
        /\ (1 < List.length out)%nat)
  /\ ~ (exists out,
        LogBuffer.render example_buffer 10 = Ok out
        /\ Forall (fun l => (len l <= 10)%Z) (flat_map splitlines out)).
Proof.
  rewrite render_below_minimum by lia. rewrite render_example_at_20.
  split; intros (out & Hout & H); injection Hout as <-.
  - simpl in H. lia.
  - unfold flat_map in H. rewrite app_nil_r, example_rendering_lines in H.
    inversion H as [| ? ? Hlen _]. vm_compute in Hlen. apply Hlen. reflexivity.
Qed.

(** C3, amended.  At every requested width up to 20 the example buffer
    renders as one entry, the message wrapped at 20 columns: two lines
    joined by a line feed, each at most 20 characters long and each a
    stretch of the message between word boundaries. *)
Theorem render_example_wraps_at_minimum_width (width : Z) :
  (width <= 20)%Z ->
  LogBuffer.render example_buffer width = Ok [example_rendering]
  /\ splitlines example_rendering = [lit "a very long line of"; lit "text"]
  /\ Forall (fun l => (len l <= 20)%Z /\ word_slice l example_message)
            (splitlines example_rendering).
Proof.
  intros H. rewrite render_below_minimum by exact H.
  split; [exact render_example_at_20 |].
  split; [exact example_rendering_lines |].
  rewrite example_rendering_lines.
  repeat constructor.
  - vm_compute. discriminate.
  - exists [], (lit " text").
    repeat split; try (vm_compute; discriminate); auto.
  - vm_compute. discriminate.
  - exists (lit "a very long line of "), [].
    repeat split; try (vm_compute; discriminate); auto.
Qed.

Lemma render_example_wraps_at_minimum_width_witness :
  (10 <= 20)%Z
  /\ LogBuffer.render example_buffer 10 = Ok [example_rendering].
Proof.
  split; [lia |].
  apply (render_example_wraps_at_minimum_width 10). lia.
Defined.

(** ** The resource sampler *)

Section Window.

Lemma clamp_percentage (v : Q) : percentage (Util.clamp v 0 100).
Proof.
  unfold percentage, Util.clamp.
  destruct (Qlt_le_dec 100 v); [lra |].
  destruct (Qlt_le_dec v 0); lra.
Qed.

(** The running sum of [sum(xs)] stays within the bounds of its terms. *)
Lemma fold_sum_bounds (xs : list Q) :
  Forall percentage xs ->
  forall a, 0 <= a ->
    0 <= fold_left Qplus xs a
    /\ fold_left Qplus xs a
       <= a + 100 * inject_Z (Z.of_nat (List.length xs)).
Proof.
  induction 1 as [| x xs [Hx0 Hx1] _ IH]; intros a Ha.
  - simpl. change (inject_Z 0) with 0. lra.
  - simpl fold_left. destruct (IH (a + x)) as [IH0 IH1]; [lra |].
    split; [exact IH0 |].
    change (List.length (x :: xs)) with (S (List.length xs)).
    rewrite Nat2Z.inj_succ. unfold Z.succ. rewrite inject_Z_plus.
    change (inject_Z 1) with 1. lra.
Qed.

Lemma mean_percentage (xs : list Q) :
  xs <> [] -> Forall percentage xs ->
  exists m, Stats.mean xs = Ok m /\ percentage m.
Proof.
  intros Hne Hall. destruct xs as [| x xs]; [contradiction |].
  eexists. split; [reflexivity |].
  set (l := x :: xs) in *.
  assert (Hn : 0 < inject_Z (Z.of_nat (List.length l))).
  { change 0 with (inject_Z 0). rewrite <- Zlt_Qlt. subst l. simpl. lia. }
  destruct (fold_sum_bounds l Hall 0) as [H0 H1]; [lra |].
  unfold percentage, Stats.qsum. split.
  - apply Qle_shift_div_l; [exact Hn | lra].
  - apply Qle_shift_div_r; [exact Hn | lra].
Qed.

Lemma deque_append_maxlen (d : Stats.deque) (x : Q) :
  Stats.maxlen (Stats.deque_append d x) = Stats.maxlen d.
Proof. reflexivity. Qed.

(** With room for one reading the window is never empty after a push. *)
Lemma deque_append_nonempty (d : Stats.deque) (x : Q) :
  (1 <= Stats.maxlen d)%Z -> Stats.items (Stats.deque_append d x) <> [].
Proof.
  intros Hm. unfold Stats.deque_append. simpl.
  destruct (Z.ltb_spec (Stats.maxlen d)
              (Z.of_nat (List.length (Stats.items d ++ [x])))) as [H | H].
  - rewrite length_app in H. simpl in H.
    destruct (Stats.items d) as [| y ys]; simpl in *; [lia |].
    destruct ys; discriminate.
  - destruct (Stats.items d); discriminate.
Qed.

Lemma deque_append_length (d : Stats.deque) (x : Q) :
  (1 <= Stats.maxlen d)%Z ->
  (Z.of_nat (List.length (Stats.items d)) <= Stats.maxlen d)%Z ->
  (Z.of_nat (List.length (Stats.items (Stats.deque_append d x)))
   <= Stats.maxlen d)%Z.
Proof.
  intros Hm Hlen. unfold Stats.deque_append. simpl.
  destruct (Z.ltb_spec (Stats.maxlen d)
              (Z.of_nat (List.length (Stats.items d ++ [x])))) as [H | H].
  - rewrite length_app in H. simpl in H.
    destruct (Stats.items d) as [| y ys]; simpl in *; [lia |].
    rewrite length_app. simpl. lia.
  - exact H.
Qed.

Lemma deque_append_percentage (d : Stats.deque) (x : Q) :
  Forall percentage (Stats.items d) -> percentage x ->
  Forall percentage (Stats.items (Stats.deque_append d x)).
Proof.
  intros Hall Hx. unfold Stats.deque_append. simpl.
  assert (H : Forall percentage (Stats.items d ++ [x])).
  { apply Forall_app. split; [exact Hall | constructor; [exact Hx | constructor]]. }
  destruct (_ <? _)%Z; [| exact H].
  destruct (Stats.items d ++ [x]); [constructor |].
  inversion H; assumption.
Qed.

End Window.

Lemma new_window_ok (n : Z) (cpus : option Z) : window_ok (Stats.new n cpus).
Proof.
  unfold window_ok. simpl. repeat split; [lia | lia | constructor].
Qed.

(** A warm-up call: "not ready", and only the flag changes. *)
Lemma sample_cold (s : Stats.t) (o : Stats.observation) :
  Stats.warmed s = false ->
  Stats.sample s o
  = (Stats.mkSampler (Stats.cpu_history s) (Stats.cpu_count s) true, Ok None).
Proof.
  intros H. unfold Stats.sample. rewrite H. reflexivity.
Qed.

(** The sampler after a call made once it is warm. *)
Lemma sample_warm_state (s : Stats.t) (o : Stats.observation) :
  Stats.warmed s = true ->
  fst (Stats.sample s o)
  = Stats.mkSampler
      (Stats.deque_append (Stats.cpu_history s)
                          (Stats.cpu_display (Stats.cpu_count s) o))
      (Stats.cpu_count s) true.
Proof.
  intros H. unfold Stats.sample. rewrite H. cbn [negb]. cbv zeta.
  destruct (Stats.mean _); reflexivity.
Qed.

(** The answer of a call made once it is warm, given the window mean. *)
Lemma sample_warm_answer (s : Stats.t) (o : Stats.observation) (m : Q) :
  Stats.warmed s = true ->
  Stats.mean (Stats.items
                (Stats.deque_append (Stats.cpu_history s)
                                    (Stats.cpu_display (Stats.cpu_count s) o)))
  = Ok m ->
  exists smp,
    snd (Stats.sample s o) = Ok (Some smp)
    /\ Stats.cpu_percent smp = m
    /\ (0 <= Stats.rss_mb smp)%Z
    /\ (1 <= Stats.total_ram_mb smp)%Z.
Proof.
  intros H Hm. unfold Stats.sample. rewrite H. cbn [negb]. cbv zeta.
  rewrite Hm. cbn [snd].
  eexists. split; [reflexivity |]. cbn [Stats.cpu_percent Stats.rss_mb Stats.total_ram_mb].
  repeat split; lia.
Qed.

Lemma sample_keeps_window (s : Stats.t) (o : Stats.observation) :
  window_ok s -> window_ok (fst (Stats.sample s o)).
Proof.
  intros (Hm & Hlen & Hall).
  destruct (Stats.warmed s) eqn:Hw.
  - rewrite sample_warm_state by exact Hw. unfold window_ok. simpl.
    repeat split.
    + exact Hm.
    + apply deque_append_length; assumption.
    + apply deque_append_percentage; [exact Hall | apply clamp_percentage].
  - rewrite sample_cold by exact Hw. unfold window_ok. simpl. auto.
Qed.

Lemma sample_warms (s : Stats.t) (o : Stats.observation) :
  Stats.warmed (fst (Stats.sample s o)) = true.
Proof.
  destruct (Stats.warmed s) eqn:Hw.
  - rewrite sample_warm_state by exact Hw. reflexivity.
  - rewrite sample_cold by exact Hw. reflexivity.
Qed.

Lemma sample_keeps_capacity (s : Stats.t) (o : Stats.observation) :
  Stats.maxlen (Stats.cpu_history (fst (Stats.sample s o)))
  = Stats.maxlen (Stats.cpu_history s).
Proof.
  destruct (Stats.warmed s) eqn:Hw.
  - rewrite sample_warm_state by exact Hw. reflexivity.
  - rewrite sample_cold by exact Hw. reflexivity.
Qed.

Lemma after_cons (s : Stats.t) (o : Stats.observation) (os : list Stats.observation) :
  Stats.after s (o :: os) = Stats.after (fst (Stats.sample s o)) os.
Proof.
  unfold Stats.after. simpl.
  destruct (Stats.sample s o) as [s1 r]. simpl.
  destruct (Stats.samples s1 os) as [s2 rs]. reflexivity.
Qed.

(** After one call or more the sampler is warm, its window is in order
    and its capacity is the one it was built with. *)
Lemma after_calls (os : list Stats.observation) :
  forall (s : Stats.t) (o : Stats.observation),
    window_ok s ->
    window_ok (Stats.after s (o :: os))
    /\ Stats.warmed (Stats.after s (o :: os)) = true
    /\ Stats.maxlen (Stats.cpu_history (Stats.after s (o :: os)))
       = Stats.maxlen (Stats.cpu_history s).
Proof.
  induction os as [| o' os IH]; intros s o Hok.
  - rewrite after_cons. unfold Stats.after. simpl.
    auto using sample_keeps_window, sample_warms, sample_keeps_capacity.
  - rewrite after_cons.
    destruct (IH (fst (Stats.sample s o)) o') as (H1 & H2 & H3).
    + apply sample_keeps_window. exact Hok.
    + rewrite H3, sample_keeps_capacity. auto.
Qed.

Lemma after_nil (s : Stats.t) : Stats.after s [] = s.
Proof. reflexivity. Qed.

(** The claim of C4 fails on the code: the warm-up flag belongs to the
    sampler, not to a process.  A sampler that has served process 100
    answers the first call for process 200 with a snapshot. *)
Lemma first_sample_of_second_process_is_ready :
  let s := Stats.after (Stats.new 5 (Some 4%Z)) [lone_process 100 12 1048576] in
  let o := lone_process 200 40 2097152 in
  ~ In (target_pid o) (List.map target_pid [lone_process 100 12 1048576])
  /\ Stats.not_ready (snd (Stats.sample s o)) = false.
Proof.
  split.
  - simpl. intros [H | []]. discriminate H.
  - vm_compute. reflexivity.
Qed.

(** C4, amended.  The first [sample] call on a new sampler answers "not
    ready", whatever the process; every later call on that sampler, for
    the same process or another one, answers with a snapshot whose
    smoothed CPU percent lies in [0, 100] and whose resident memory is a
    non-negative integer. *)
Theorem sampler_warms_up_once
        (n : Z) (cpus : option Z)
        (o0 : Stats.observation) (os : list Stats.observation)
        (o : Stats.observation) :
  snd (Stats.sample (Stats.new n cpus) o0) = Ok None
  /\ exists smp,
      snd (Stats.sample (Stats.after (Stats.new n cpus) (o0 :: os)) o)
      = Ok (Some smp)
      /\ percentage (Stats.cpu_percent smp)
      /\ (0 <= Stats.rss_mb smp)%Z.
Proof.
  split; [reflexivity |].
  destruct (after_calls os (Stats.new n cpus) o0 (new_window_ok n cpus))
    as ((Hm & Hlen & Hall) & Hw & _).
  set (s := Stats.after (Stats.new n cpus) (o0 :: os)) in *.
  destruct (mean_percentage
              (Stats.items
                 (Stats.deque_append (Stats.cpu_history s)
                    (Stats.cpu_display (Stats.cpu_count s) o))))
    as (m & Hmean & Hperc).
  - apply deque_append_nonempty. exact Hm.
  - apply deque_append_percentage; [exact Hall | apply clamp_percentage].
  - destruct (sample_warm_answer s o m Hw Hmean) as (smp & Hs & Hc & Hr & _).
    exists smp. rewrite Hc. auto.
Qed.

(** C5.  With [cpu_history_size=3], once the sampler is warm, readings
    that normalise to 10, 20 and 90 give the smoothed value 40; a fourth
    reading of 30 evicts the 10 and gives 140/3, which is 46.67 to two
    decimals.  The window then holds the last three readings. *)
Theorem rolling_mean_of_three
        (cpus : option Z) (o0 o1 o2 o3 o4 : Stats.observation) :
  let s := Stats.new 3 cpus in
  let d := Stats.cpu_display (Stats.cpu_count s) in
  d o1 == 10 -> d o2 == 20 -> d o3 == 90 -> d o4 == 30 ->
  exists a b,
    snd (Stats.sample (Stats.after s [o0; o1; o2]) o3) = Ok (Some a)
    /\ Stats.cpu_percent a == 40
    /\ snd (Stats.sample (Stats.after s [o0; o1; o2; o3]) o4) = Ok (Some b)
    /\ Stats.cpu_percent b == 140 # 3
    /\ Qabs (Stats.cpu_percent b - 46.67) < 0.005
    /\ Stats.items (Stats.cpu_history (Stats.after s [o0; o1; o2; o3; o4]))
       = [d o2; d o3; d o4].
Proof.
  intros s d H1 H2 H3 H4.
  set (c := Stats.cpu_count s) in *.
  assert (S1 : Stats.after s [o0] = Stats.mkSampler (Stats.mkDeque 3 []) c true)
    by reflexivity.
  assert (S2 : Stats.after s [o0; o1]
               = Stats.mkSampler (Stats.mkDeque 3 [d o1]) c true).
  { rewrite !after_cons, after_nil. rewrite after_cons, after_nil in S1.
    rewrite S1, sample_warm_state by reflexivity. reflexivity. }
  assert (S3 : Stats.after s [o0; o1; o2]
               = Stats.mkSampler (Stats.mkDeque 3 [d o1; d o2]) c true).
  { rewrite !after_cons, after_nil. rewrite !after_cons, after_nil in S2.
    rewrite S2, sample_warm_state by reflexivity. reflexivity. }
  assert (S4 : Stats.after s [o0; o1; o2; o3]
               = Stats.mkSampler (Stats.mkDeque 3 [d o1; d o2; d o3]) c true).
  { rewrite !after_cons, after_nil. rewrite !after_cons, after_nil in S3.
    rewrite S3, sample_warm_state by reflexivity. reflexivity. }
  assert (S5 : Stats.after s [o0; o1; o2; o3; o4]
               = Stats.mkSampler (Stats.mkDeque 3 [d o2; d o3; d o4]) c true).
  { rewrite !after_cons, after_nil. rewrite !after_cons, after_nil in S4.
    rewrite S4, sample_warm_state by reflexivity. reflexivity. }
  destruct (sample_warm_answer
              (Stats.mkSampler (Stats.mkDeque 3 [d o1; d o2]) c true) o3
              ((0 + d o1 + d o2 + d o3) / 3) eq_refl eq_refl)
    as (a & Ha & Hca & _).
  destruct (sample_warm_answer
              (Stats.mkSampler (Stats.mkDeque 3 [d o1; d o2; d o3]) c true) o4
              ((0 + d o2 + d o3 + d o4) / 3) eq_refl eq_refl)
    as (b & Hb & Hcb & _).
  exists a, b. rewrite S3, S4, S5, Ha, Hb, Hca, Hcb.
  assert (Eb : (0 + d o2 + d o3 + d o4) / 3 == 140 # 3)
    by (rewrite H2, H3, H4; reflexivity).
  repeat split.
  - rewrite H1, H2, H3. reflexivity.
  - exact Eb.
  - rewrite Eb. reflexivity.
Qed.

Lemma rolling_mean_of_three_witness :
  let o cpu := lone_process 4242 cpu 314572800 in
  let d := Stats.cpu_display (Stats.cpu_count (Stats.new 3 (Some 1%Z))) in
  d (o 10) == 10 /\ d (o 20) == 20 /\ d (o 90) == 90 /\ d (o 30) == 30
  /\ exists a b,
      snd (Stats.sample (Stats.after (Stats.new 3 (Some 1%Z)) [o 0; o 10; o 20])
                        (o 90)) = Ok (Some a)
      /\ Stats.cpu_percent a == 40
      /\ snd (Stats.sample (Stats.after (Stats.new 3 (Some 1%Z))
                                        [o 0; o 10; o 20; o 90])
                           (o 30)) = Ok (Some b)
      /\ Stats.cpu_percent b == 140 # 3.
Proof.
  intros o d.
  assert (H1 : d (o 10) == 10) by (vm_compute; reflexivity).
  assert (H2 : d (o 20) == 20) by (vm_compute; reflexivity).
  assert (H3 : d (o 90) == 90) by (vm_compute; reflexivity).
  assert (H4 : d (o 30) == 30) by (vm_compute; reflexivity).
  repeat (split; [assumption |]).
  destruct (rolling_mean_of_three (Some 1%Z) (o 0) (o 10) (o 20) (o 90) (o 30)
              H1 H2 H3 H4)
    as (a & b & Ha & Hca & Hb & Hcb & _).
  exists a, b. auto.
Defined.

(** C10.  Whatever [cpu_history_size] is, the window has capacity
    [max(1, cpu_history_size)]; so after a call made once the sampler is
    warm the window holds between one reading and that many, its mean is
    defined, and the call does not end in a division by zero. *)
Theorem window_never_empty
        (n : Z) (cpus : option Z)
        (o0 : Stats.observation) (os : list Stats.observation)
        (o : Stats.observation) :
  let s := Stats.after (Stats.new n cpus) (o0 :: os) in
  let h := Stats.cpu_history (fst (Stats.sample s o)) in
  Stats.maxlen (Stats.cpu_history (Stats.new n cpus)) = Z.max 1 n
  /\ Stats.maxlen h = Z.max 1 n
  /\ Stats.items h <> []
  /\ (Z.of_nat (List.length (Stats.items h)) <= Z.max 1 n)%Z
  /\ (exists m, Stats.mean (Stats.items h) = Ok m)
  /\ snd (Stats.sample s o) <> Raise ZeroDivisionError.
Proof.
  intros s h.
  destruct (after_calls os (Stats.new n cpus) o0 (new_window_ok n cpus))
    as ((Hm & Hlen & Hall) & Hw & Hcap).
  fold s in Hm, Hlen, Hall, Hw, Hcap. simpl in Hcap.
  assert (Hh : h = Stats.deque_append (Stats.cpu_history s)
                     (Stats.cpu_display (Stats.cpu_count s) o)).
  { unfold h. rewrite sample_warm_state by exact Hw. reflexivity. }
  assert (Hne : Stats.items h <> []).
  { rewrite Hh. apply deque_append_nonempty. exact Hm. }
  split; [reflexivity |].
  split; [rewrite Hh, deque_append_maxlen; exact Hcap |].
  split; [exact Hne |].
  split.
  { rewrite Hh. rewrite <- Hcap. apply deque_append_length; assumption. }
  assert (Hmean : exists m, Stats.mean (Stats.items h) = Ok m).
  { destruct (Stats.items h) as [| x xs]; [contradiction |].
    eexists. reflexivity. }
  split; [exact Hmean |].
  destruct Hmean as (m & Hmean). rewrite Hh in Hmean.
  destruct (sample_warm_answer s o m Hw Hmean) as (smp & Hs & _).
  rewrite Hs. discriminate.
Qed.

(** ** The process controller *)

Import Controller.

(** C8.  [stop()] with no process handle returns at once: no exception,
    no callback, no call to the outside, and the controller is as it
    was. *)
Theorem stop_without_process_is_noop (env : os) (c : Controller.t) :
  proc c = None -> stop env c = (Ok tt, c, []).
Proof.
  intros H. unfold stop, bind, get. rewrite H. reflexivity.
Qed.

Lemma stop_without_process_is_noop_witness :
  proc idle_controller = None
  /\ stop cooperative_os idle_controller = (Ok tt, idle_controller, []).
Proof.
  split; [reflexivity |].
  apply (stop_without_process_is_noop cooperative_os idle_controller).
  reflexivity.
Defined.

(** The codec on a few code points of each encoded length. *)
Example utf8_samples :
  encode_utf8_replace [0x41; 0xE9; 0x20AC; 0x1F600; 0xD800]%N
  = [Byte.x41; Byte.xc3; Byte.xa9; Byte.xe2; Byte.x82; Byte.xac;
     Byte.xf0; Byte.x9f; Byte.x98; Byte.x80; Byte.x3f].
Proof. reflexivity. Qed.

Lemma encode_line (command : str) :
  encode_utf8_replace (command ++ [LF])
  = encode_utf8_replace command ++ [Byte.x0a].
Proof.
  unfold encode_utf8_replace. rewrite flat_map_app. reflexivity.
Qed.

(** C6.  With a process handle whose input pipe exists, [send_command]
    makes exactly two calls: one write of the UTF-8 bytes of the text
    followed by one line feed byte, then the drain that flushes it; for
    [say hi] the bytes written are those of [say hi] and a line feed. *)
Theorem send_command_writes_line
        (env : os) (c : Controller.t) (p : process) (w : pipe) (command : str) :
  proc c = Some p -> stdin p = Some w ->
  send_command env command c
  = (stdin_drain env, c,
     [StdinWrite (encode_utf8_replace command ++ [Byte.x0a]); StdinDrain])
  /\ send_command env (lit "say hi") c
     = (stdin_drain env, c,
        [StdinWrite [Byte.x73; Byte.x61; Byte.x79; Byte.x20;
                     Byte.x68; Byte.x69; Byte.x0a];
         StdinDrain]).
Proof.
  intros Hp Hw.
  assert (H : forall text,
             send_command env text c
             = (stdin_drain env, c,
                [StdinWrite (encode_utf8_replace text ++ [Byte.x0a]); StdinDrain])).
  { intros text. unfold send_command, bind, get. rewrite Hp.
    destruct p as [pid0 rc0 in0 out0 err0]. simpl in Hw. subst in0.
    unfold emit, call. rewrite encode_line.
    destruct (stdin_drain env); reflexivity. }
  split; [apply H |]. rewrite H. reflexivity.
Qed.

Lemma send_command_writes_line_witness :
  proc running_controller = Some example_process
  /\ stdin example_process = Some (Pipe 7)
  /\ send_command cooperative_os (lit "say hi") running_controller
     = (Ok tt, running_controller,
        [StdinWrite [Byte.x73; Byte.x61; Byte.x79; Byte.x20;
                     Byte.x68; Byte.x69; Byte.x0a];
         StdinDrain]).
Proof.
  split; [reflexivity |]. split; [reflexivity |].
  apply (send_command_writes_line cooperative_os running_controller
           example_process (Pipe 7) (lit "say hi"));
    reflexivity.
Defined.

(** [start()] on a controller that is not running, when the spawn
    succeeds: the new handle is stored, "online" is reported once and one
    process is spawned. *)
Lemma start_spawns (env : os) (c : Controller.t) (p : process) :
  is_running c = false ->
  create_subprocess_shell env = Ok p ->
  exists tr,
    start env c
    = (Ok tt,
       mkCtl (server_cmd c) (cwd c) (Some p)
             [ReadStream (stdout p); ReadStream (stderr p)] (Some WaitForExit),
       tr)
    /\ count is_online tr = 1%nat
    /\ count is_spawn tr = 1%nat.
Proof.
  intros Hrun Hspawn.
  unfold start, bind, get. rewrite Hrun.
  unfold call, log, on_status, emit, pass, ret, set_proc, set_reader_tasks,
    set_wait_task, bind, get, put.
  rewrite Hspawn.
  destruct (cwd c) as [[| ch d] |] eqn:Hcwd, (pid p) as [n |];
    cbn [app server_cmd cwd proc reader_tasks wait_task];
    rewrite ?Hcwd;
    eexists; (split; [reflexivity | split; reflexivity]).
Qed.

(** [start()] on a running controller only logs the notice. *)
Lemma start_already_running (env : os) (c : Controller.t) :
  is_running c = true ->
  start env c = (Ok tt, c, [Log (lit "Server is already running.")]).
Proof.
  intros Hrun. unfold start, bind, get. rewrite Hrun. reflexivity.
Qed.

(** C7.  Two [start()] calls in a row, the first of which spawns a child
    that is still active at the second: "online" is reported once, one
    process is spawned, and the second call logs that the server is
    already running and changes nothing. *)
Theorem start_twice_spawns_once
        (env1 env2 : os) (c : Controller.t) (p : process) :
  is_running c = false ->
  create_subprocess_shell env1 = Ok p ->
  returncode p = None ->
  exists c1 tr1,
    start env1 c = (Ok tt, c1, tr1)
    /\ start env2 c1 = (Ok tt, c1, [Log (lit "Server is already running.")])
    /\ proc c1 = Some p
    /\ count is_online (tr1 ++ [Log (lit "Server is already running.")]) = 1%nat
    /\ count is_spawn (tr1 ++ [Log (lit "Server is already running.")]) = 1%nat.
Proof.
  intros Hrun Hspawn Hrc.
  destruct (start_spawns env1 c p Hrun Hspawn) as (tr1 & Hstart & Hon & Hsp).
  eexists. exists tr1. split; [exact Hstart |].
  split.
  - apply start_already_running. unfold is_running. simpl. rewrite Hrc. reflexivity.
  - split; [reflexivity |].
    unfold count in *. rewrite !filter_app, !length_app, Hon, Hsp.
    split; reflexivity.
Qed.

Lemma start_twice_spawns_once_witness :
  is_running idle_controller = false
  /\ create_subprocess_shell cooperative_os = Ok example_process
  /\ returncode example_process = None
  /\ exists c1 tr1,
      start cooperative_os idle_controller = (Ok tt, c1, tr1)
      /\ start stubborn_os c1
         = (Ok tt, c1, [Log (lit "Server is already running.")])
      /\ proc c1 = Some example_process
      /\ count is_online (tr1 ++ [Log (lit "Server is already running.")]) = 1%nat
      /\ count is_spawn (tr1 ++ [Log (lit "Server is already running.")]) = 1%nat.
Proof.
  split; [reflexivity |]. split; [reflexivity |]. split; [reflexivity |].
  apply (start_twice_spawns_once cooperative_os stubborn_os
           idle_controller example_process);
    reflexivity.
Defined.

(** *** The escalating shutdown *)

Lemma cancel_each (ts : list task) (c : Controller.t) :
  fold_right (fun t k => bind (emit (Cancel t)) (fun _ => k)) pass ts c
  = (Ok tt, c, List.map Cancel ts).
Proof.
  induction ts as [| t ts IH]; simpl.
  - reflexivity.
  - unfold bind at 1. unfold emit at 1. rewrite IH. reflexivity.
Qed.

Lemma quiet_app (tr1 tr2 : list event) :
  quiet tr1 -> quiet tr2 -> quiet (tr1 ++ tr2).
Proof.
  intros H1 H2. apply Forall_app. split; assumption.
Qed.

Lemma quiet_cancels (ts : list task) : quiet (List.map Cancel ts).
Proof.
  induction ts; simpl; constructor; auto.
Qed.

(** Tearing the readers down empties the task list and sends nothing. *)
Lemma cancel_readers_quiet (env : os) (c : Controller.t) :
  exists tr,
    cancel_readers env c
    = (Ok tt, mkCtl (server_cmd c) (cwd c) (proc c) [] (wait_task c), tr)
    /\ quiet tr.
Proof.
  unfold cancel_readers. unfold bind at 1. unfold get.
  set (tasks := filter (fun t => negb (task_done env t)) (reader_tasks c)).
  unfold bind at 1. rewrite cancel_each.
  destruct tasks as [| t ts] eqn:Ht.
  - exists []. split; [reflexivity | constructor].
  - exists (List.map Cancel (t :: ts) ++ [Gather (t :: ts)]).
    split; [reflexivity |].
    apply quiet_app; [apply quiet_cancels | repeat constructor].
Qed.

(** Closing the input pipe never fails and sends nothing. *)
Lemma close_stdin_quiet (env : os) (p : process) (c : Controller.t) :
  exists tr, close_stdin env p c = (Ok tt, c, tr) /\ quiet tr.
Proof.
  unfold close_stdin, try_except, bind, call, pass, ret.
  destruct (stdin p); [| eexists; split; [reflexivity | constructor]].
  destruct (stdin_close env) as [[] | e1];
    [destruct (stdin_has_wait_closed env);
     [destruct (stdin_wait_closed env) as [[] | e2] |] |];
    eexists; (split; [reflexivity | repeat constructor]).
Qed.

(** The group signal with its fallback: the lookup is always made, and
    the last call of the step is a signalling call. *)
Lemma signal_group_run
      (n : Z) (s : signal) (getpgid : result Z) (killpg : result unit)
      (direct : event) (direct_answer : result unit) (c : Controller.t) :
  exists tr,
    signal_group n s getpgid killpg direct direct_answer c = (Ok tt, c, tr)
    /\ ((exists g, tr = [Getpgid n; Killpg g s])
        \/ tr = [Getpgid n; direct]
        \/ (exists g, tr = [Getpgid n; Killpg g s; direct])).
Proof.
  unfold signal_group, try_except, bind, call, pass, ret.
  destruct getpgid as [g | e1];
    [destruct killpg as [[] | e2] |];
    destruct direct_answer as [[] | e3];
    eexists; (split; [reflexivity |]);
    first [ left; eexists; reflexivity
          | right; left; reflexivity
          | right; right; eexists; reflexivity ].
Qed.

(** A child that outlives the graceful wait gets both steps, in order,
    and the controller's fields are untouched meanwhile. *)
Lemma terminate_process_escalates
      (env : os) (p : process) (n : Z) (c : Controller.t) :
  pid p = Some n ->
  wait_graceful env = Raise TimeoutError ->
  exists graceful forced waits,
    terminate_process env p c
    = (Ok tt, c,
       graceful
       ++ [WaitFor 5; Log (lit "Server did not stop in time; force killing...")]
       ++ forced ++ waits)
    /\ graceful_step n graceful
    /\ forced_step n forced
    /\ forced_wait waits.
Proof.
  intros Hpid Hwait. unfold terminate_process. rewrite Hpid.
  destruct (signal_group_run n SIGTERM (getpgid_term env) (killpg_term env)
              Terminate (proc_terminate env) c) as (g & Hg & Hgs).
  destruct (signal_group_run n SIGKILL (getpgid_kill env) (killpg_kill env)
              Kill (proc_kill env) c) as (f & Hf & Hfs).
  unfold bind at 1. rewrite Hg.
  unfold bind at 1. unfold try_except_timeout, bind at 1, call at 1.
  rewrite Hwait. unfold bind at 1, log, emit, ret.
  unfold bind at 1. rewrite Hf.
  exists g, f.
  assert (Hw : exists w,
             try_except (call (WaitFor 3) (wait_forced env))
               (fun _ => try_except (call Wait (wait_final env)) (fun _ => pass)) c
             = (Ok tt, c, w) /\ forced_wait w).
  { unfold try_except, call, pass, ret.
    destruct (wait_forced env) as [[] | e1];
      [| destruct (wait_final env) as [[] | e2]];
      eexists; (split; [reflexivity | constructor]). }
  destruct Hw as (w & Hw & Hws). rewrite Hw. exists w.
  split; [cbn [app]; rewrite <- ?app_assoc; reflexivity |].
  split; [| split; [| exact Hws]].
  - destruct Hgs as [(g0 & ->) | [-> | (g0 & ->)]]; constructor.
  - destruct Hfs as [(g0 & ->) | [-> | (g0 & ->)]]; constructor.
Qed.

(** The calls of one signalling step, read off the answers it got. *)
Lemma signal_group_trace
      (n : Z) (s : signal) (getpgid : result Z) (killpg : result unit)
      (direct : event) (direct_answer : result unit) (c : Controller.t) :
  signal_group n s getpgid killpg direct direct_answer c
  = (Ok tt, c, group_then_process n s direct getpgid killpg).
Proof.
  unfold signal_group, group_then_process, try_except, bind, call, pass, ret.
  destruct getpgid as [g | e1];
    [destruct killpg as [[] | e2] |];
    destruct direct_answer as [[] | e3]; reflexivity.
Qed.

(** The whole of [_terminate_process] for a child that outlives the
    graceful wait. *)
Lemma terminate_process_trace
      (env : os) (p : process) (n : Z) (c : Controller.t) :
  pid p = Some n ->
  wait_graceful env = Raise TimeoutError ->
  terminate_process env p c
  = (Ok tt, c,
     group_then_process n SIGTERM Terminate (getpgid_term env) (killpg_term env)
     ++ [WaitFor 5; Log (lit "Server did not stop in time; force killing...")]
     ++ group_then_process n SIGKILL Kill (getpgid_kill env) (killpg_kill env)
     ++ waits_after_kill (wait_forced env)).
Proof.
  intros Hpid Hwait. unfold terminate_process. rewrite Hpid.
  unfold bind at 1. rewrite signal_group_trace.
  unfold bind at 1. unfold try_except_timeout, bind at 1, call at 1.
  rewrite Hwait. unfold bind at 1, log, emit, ret.
  unfold bind at 1. rewrite signal_group_trace.
  assert (Hw : try_except (call (WaitFor 3) (wait_forced env))
                 (fun _ => try_except (call Wait (wait_final env))
                             (fun _ => pass)) c
               = (Ok tt, c, waits_after_kill (wait_forced env))).
  { unfold try_except, call, pass, ret, waits_after_kill.
    destruct (wait_forced env) as [[] | e1];
      [| destruct (wait_final env) as [[] | e2]]; reflexivity. }
  rewrite Hw. cbn [app]. rewrite <- ?app_assoc. reflexivity.
Qed.

(** C1.  [stop()] on a controller whose child outlives the graceful wait.
    Before the graceful step nothing is signalled, nothing is waited for
    and the handle is not assigned.  The graceful step looks up the group
    of the child and sends [SIGTERM] to that group, and calls
    [proc.terminate()] exactly when the lookup or the group signal
    failed; it is followed by a wait of at most 5.  Then comes the forced
    step, the same with [SIGKILL] and [proc.kill()], and a wait of at
    most 3, with one unbounded wait exactly when that one failed.  Only
    after all of these is the handle set to [None], once, and "offline"
    reported, last. *)
Theorem stop_escalates
        (env : os) (c : Controller.t) (p : process) (n : Z) :
  proc c = Some p ->
  pid p = Some n ->
  wait_graceful env = Raise TimeoutError ->
  exists before,
    stop env c
    = (Ok tt, mkCtl (server_cmd c) (cwd c) None [] (wait_task c),
       before
       ++ group_then_process n SIGTERM Terminate
            (getpgid_term env) (killpg_term env)
       ++ [WaitFor 5; Log (lit "Server did not stop in time; force killing...")]
       ++ group_then_process n SIGKILL Kill
            (getpgid_kill env) (killpg_kill env)
       ++ waits_after_kill (wait_forced env)
       ++ [SetProc None; Status false])
    /\ quiet before
    /\ is_running (mkCtl (server_cmd c) (cwd c) None [] (wait_task c)) = false.
Proof.
  intros Hproc Hpid Hwait.
  destruct (cancel_readers_quiet env c) as (tr1 & H1 & Hq1).
  set (c1 := mkCtl (server_cmd c) (cwd c) (proc c) [] (wait_task c)) in *.
  destruct (close_stdin_quiet env p c1) as (tr2 & H2 & Hq2).
  pose proof (terminate_process_trace env p n c1 Hpid Hwait) as H3.
  exists (Log (lit "Stopping server...") :: tr1 ++ tr2).
  split; [| split; [| reflexivity]].
  - unfold stop. unfold bind at 1. unfold get. rewrite Hproc.
    unfold bind at 1. unfold log at 1, emit at 1.
    unfold bind at 1. rewrite H1.
    unfold bind at 1. rewrite H2.
    unfold bind at 1. rewrite H3.
    cbv beta iota zeta delta [bind set_proc get put on_status emit].
    cbn [app]. rewrite <- !app_assoc. cbn [app]. rewrite <- ?app_assoc.
    reflexivity.
  - constructor; [repeat split; reflexivity | apply quiet_app; assumption].
Qed.

Lemma stop_escalates_witness :
  proc running_controller = Some example_process
  /\ pid example_process = Some 4242%Z
  /\ wait_graceful stubborn_os = Raise TimeoutError
  /\ exists before,
      stop stubborn_os running_controller
      = (Ok tt,
         mkCtl (server_cmd running_controller) (cwd running_controller)
               None [] (wait_task running_controller),
         before
         ++ [Getpgid 4242; Killpg 4242 SIGTERM]
         ++ [WaitFor 5; Log (lit "Server did not stop in time; force killing...")]
         ++ [Getpgid 4242; Killpg 4242 SIGKILL]
         ++ [WaitFor 3]
         ++ [SetProc None; Status false])
      /\ quiet before
      /\ is_running
           (mkCtl (server_cmd running_controller) (cwd running_controller)
                  None [] (wait_task running_controller)) = false.
Proof.
  split; [reflexivity |]. split; [reflexivity |]. split; [reflexivity |].
  apply (stop_escalates stubborn_os running_controller example_process 4242);
    reflexivity.
Defined.

(** ** More on the process controller *)

Lemma count_app (f : event -> bool) (tr1 tr2 : list event) :
  count f (tr1 ++ tr2) = (count f tr1 + count f tr2)%nat.
Proof.
  unfold count. rewrite filter_app, length_app. reflexivity.
Qed.

Lemma count_cancels (f : event -> bool) (ts : list task) :
  (forall t, f (Cancel t) = false) -> count f (List.map Cancel ts) = 0%nat.
Proof.
  intros Hf. unfold count.
  induction ts as [| t ts IH]; simpl; [reflexivity |].
  rewrite Hf. exact IH.
Qed.

(** The two teardown steps before the signals report no status, send no
    forced signal and leave the handle alone. *)
Lemma cancel_readers_calm (env : os) (c : Controller.t) :
  exists tr,
    cancel_readers env c
    = (Ok tt, mkCtl (server_cmd c) (cwd c) (proc c) [] (wait_task c), tr)
    /\ count is_status tr = 0%nat
    /\ count is_forced tr = 0%nat
    /\ (reader_tasks c = [] -> tr = []).
Proof.
  unfold cancel_readers. unfold bind at 1. unfold get.
  set (tasks := filter (fun t => negb (task_done env t)) (reader_tasks c)).
  unfold bind at 1. rewrite cancel_each.
  destruct tasks as [| t ts] eqn:Ht.
  - exists []. repeat split; reflexivity.
  - exists (List.map Cancel (t :: ts) ++ [Gather (t :: ts)]).
    split; [reflexivity |].
    rewrite !count_app, !count_cancels by reflexivity.
    repeat split.
    intros Hnil. subst tasks. rewrite Hnil in Ht. discriminate.
Qed.

Lemma close_stdin_calm (env : os) (p : process) (c : Controller.t) :
  exists tr,
    close_stdin env p c = (Ok tt, c, tr)
    /\ count is_status tr = 0%nat
    /\ count is_forced tr = 0%nat.
Proof.
  unfold close_stdin, try_except, bind, call, pass, ret.
  destruct (stdin p); [| exists []; repeat split; reflexivity].
  destruct (stdin_close env) as [[] | e1];
    [destruct (stdin_has_wait_closed env);
     [destruct (stdin_wait_closed env) as [[] | e2] |] |];
    eexists; (split; [reflexivity | split; reflexivity]).
Qed.

Lemma graceful_step_calm (n : Z) (g : list event) :
  graceful_step n g -> count is_status g = 0%nat /\ count is_forced g = 0%nat.
Proof. intros H. inversion H; split; reflexivity. Qed.

Lemma forced_step_calm (n : Z) (f : list event) :
  forced_step n f -> count is_status f = 0%nat.
Proof. intros H. inversion H; reflexivity. Qed.

Lemma forced_wait_calm (w : list event) :
  forced_wait w -> count is_status w = 0%nat.
Proof. intros H. inversion H; reflexivity. Qed.

(** A child that leaves within the graceful wait is only asked once. *)
Lemma terminate_process_graceful
      (env : os) (p : process) (n : Z) (c : Controller.t) :
  pid p = Some n ->
  wait_graceful env = Ok tt ->
  exists graceful,
    terminate_process env p c = (Ok tt, c, graceful ++ [WaitFor 5])
    /\ graceful_step n graceful.
Proof.
  intros Hpid Hwait. unfold terminate_process. rewrite Hpid.
  destruct (signal_group_run n SIGTERM (getpgid_term env) (killpg_term env)
              Terminate (proc_terminate env) c) as (g & Hg & Hgs).
  unfold bind at 1. rewrite Hg.
  unfold bind at 1. unfold try_except_timeout, bind at 1, call at 1.
  rewrite Hwait. unfold ret, pass.
  exists g. split; [cbn [app]; rewrite ?app_nil_r; reflexivity |].
  destruct Hgs as [(g0 & ->) | [-> | (g0 & ->)]]; constructor.
Qed.

(** A failure of the graceful wait that is not a timeout ends the method
    there. *)
Lemma terminate_process_wait_failure
      (env : os) (p : process) (n : Z) (c : Controller.t) (e : exn) :
  pid p = Some n ->
  wait_graceful env = Raise e -> e <> TimeoutError ->
  exists graceful,
    terminate_process env p c = (Raise e, c, graceful ++ [WaitFor 5])
    /\ graceful_step n graceful.
Proof.
  intros Hpid Hwait Hne. unfold terminate_process. rewrite Hpid.
  destruct (signal_group_run n SIGTERM (getpgid_term env) (killpg_term env)
              Terminate (proc_terminate env) c) as (g & Hg & Hgs).
  unfold bind at 1. rewrite Hg.
  unfold bind at 1. unfold try_except_timeout, bind at 1, call at 1.
  rewrite Hwait.
  exists g. split.
  - destruct e; try contradiction; cbn [app]; rewrite ?app_nil_r; reflexivity.
  - destruct Hgs as [(g0 & ->) | [-> | (g0 & ->)]]; constructor.
Qed.

(** Whatever else fails, [_terminate_process] returns normally and
    reports no status when the graceful wait ends or times out. *)
Lemma terminate_process_returns
      (env : os) (p : process) (c : Controller.t) :
  wait_graceful env = Ok tt \/ wait_graceful env = Raise TimeoutError ->
  exists tr,
    terminate_process env p c = (Ok tt, c, tr) /\ count is_status tr = 0%nat.
Proof.
  intros Hwait. destruct (pid p) as [n |] eqn:Hpid.
  - destruct Hwait as [Hwait | Hwait].
    + destruct (terminate_process_graceful env p n c Hpid Hwait) as (g & H & Hg).
      eexists. split; [exact H |].
      rewrite count_app. destruct (graceful_step_calm n g Hg) as [-> _].
      reflexivity.
    + destruct (terminate_process_escalates env p n c Hpid Hwait)
        as (g & f & w & H & Hg & Hf & Hw).
      eexists. split; [exact H |].
      rewrite !count_app.
      destruct (graceful_step_calm n g Hg) as [-> _].
      rewrite (forced_step_calm n f Hf), (forced_wait_calm w Hw). reflexivity.
  - exists []. unfold terminate_process. rewrite Hpid. split; reflexivity.
Qed.

(** The run of [stop()] up to the signalling step. *)
Lemma stop_unfold (env : os) (c : Controller.t) (p : process) :
  proc c = Some p ->
  exists tr0,
    count is_status tr0 = 0%nat /\ count is_forced tr0 = 0%nat
    /\ forall r c2 tr,
        terminate_process env p
          (mkCtl (server_cmd c) (cwd c) (proc c) [] (wait_task c))
        = (r, c2, tr) ->
        stop env c
        = match r with
          | Ok _ =>
              (Ok tt,
               mkCtl (server_cmd c2) (cwd c2) None (reader_tasks c2) (wait_task c2),
               tr0 ++ tr ++ [SetProc None; Status false])
          | Raise e => (Raise e, c2, tr0 ++ tr)
          end.
Proof.
  intros Hproc.
  destruct (cancel_readers_calm env c) as (tr1 & H1 & Hs1 & Hf1 & _).
  set (c1 := mkCtl (server_cmd c) (cwd c) (proc c) [] (wait_task c)) in *.
  destruct (close_stdin_calm env p c1) as (tr2 & H2 & Hs2 & Hf2).
  exists (Log (lit "Stopping server...") :: tr1 ++ tr2).
  split; [| split].
  - change (Log (lit "Stopping server...") :: tr1 ++ tr2)
      with ([Log (lit "Stopping server...")] ++ tr1 ++ tr2).
    rewrite !count_app, Hs1, Hs2. reflexivity.
  - change (Log (lit "Stopping server...") :: tr1 ++ tr2)
      with ([Log (lit "Stopping server...")] ++ tr1 ++ tr2).
    rewrite !count_app, Hf1, Hf2. reflexivity.
  - intros r c2 tr H3.
    unfold stop. unfold bind at 1. unfold get. rewrite Hproc.
    unfold bind at 1. unfold log at 1, emit at 1.
    unfold bind at 1. rewrite H1.
    unfold bind at 1. rewrite H2.
    unfold bind at 1. rewrite H3.
    destruct r as [[] | e].
    + cbv beta iota zeta delta [bind set_proc get put on_status emit].
      cbn [app]. rewrite <- !app_assoc. reflexivity.
    + cbn [app]. rewrite <- !app_assoc. reflexivity.
Qed.

(** X1.  When the child leaves within the graceful wait, [stop()] asks it
    once (the graceful step and the wait of 5), sends no forced signal,
    and only then sets the handle to [None] and reports "offline",
    last. *)
Theorem stop_graceful_exit_sends_no_kill
        (env : os) (c : Controller.t) (p : process) (n : Z) :
  proc c = Some p ->
  pid p = Some n ->
  wait_graceful env = Ok tt ->
  exists before graceful c',
    stop env c
    = (Ok tt, c', before ++ graceful ++ [WaitFor 5; SetProc None; Status false])
    /\ graceful_step n graceful
    /\ count is_forced (before ++ graceful ++ [WaitFor 5; SetProc None; Status false]) = 0%nat
    /\ count is_status before = 0%nat
    /\ proc c' = None.
Proof.
  intros Hproc Hpid Hwait.
  destruct (stop_unfold env c p Hproc) as (tr0 & Hs0 & Hf0 & Hstop).
  destruct (terminate_process_graceful env p n
              (mkCtl (server_cmd c) (cwd c) (proc c) [] (wait_task c))
              Hpid Hwait) as (g & Hterm & Hg).
  specialize (Hstop _ _ _ Hterm). cbv beta iota in Hstop.
  exists tr0, g. eexists.
  split; [rewrite Hstop, <- app_assoc; reflexivity |].
  split; [exact Hg |].
  split; [| split; [exact Hs0 | reflexivity]].
  rewrite !count_app, Hf0.
  destruct (graceful_step_calm n g Hg) as [_ ->]. reflexivity.
Qed.

Lemma stop_graceful_exit_sends_no_kill_witness :
  proc running_controller = Some example_process
  /\ pid example_process = Some 4242%Z
  /\ wait_graceful cooperative_os = Ok tt
  /\ exists before graceful c',
      stop cooperative_os running_controller
      = (Ok tt, c', before ++ graceful ++ [WaitFor 5; SetProc None; Status false])
      /\ graceful_step 4242 graceful
      /\ count is_forced (before ++ graceful ++ [WaitFor 5; SetProc None; Status false]) = 0%nat
      /\ count is_status before = 0%nat
      /\ proc c' = None.
Proof.
  split; [reflexivity |]. split; [reflexivity |]. split; [reflexivity |].
  apply (stop_graceful_exit_sends_no_kill cooperative_os running_controller
           example_process 4242);
    reflexivity.
Defined.

(** [stop()] on a held process, with a graceful wait that ends or times
    out. *)
Lemma stop_always_ends_offline_aux
      (env : os) (c : Controller.t) (p : process) :
  proc c = Some p ->
  wait_graceful env = Ok tt \/ wait_graceful env = Raise TimeoutError ->
  exists tr,
    stop env c
    = (Ok tt, mkCtl (server_cmd c) (cwd c) None [] (wait_task c),
       tr ++ [Status false])
    /\ count is_status tr = 0%nat
    /\ is_running (mkCtl (server_cmd c) (cwd c) None [] (wait_task c)) = false.
Proof.
  intros Hproc Hwait.
  destruct (stop_unfold env c p Hproc) as (tr0 & Hs0 & _ & Hstop).
  destruct (terminate_process_returns env p
              (mkCtl (server_cmd c) (cwd c) (proc c) [] (wait_task c)) Hwait)
    as (tr & Hterm & Hs).
  specialize (Hstop _ _ _ Hterm). cbv beta iota in Hstop.
  exists (tr0 ++ tr ++ [SetProc None]).
  split; [rewrite Hstop, <- !app_assoc; reflexivity |].
  split; [rewrite !count_app, Hs0, Hs; reflexivity | reflexivity].
Qed.

(** X2.  Whatever fails while tearing down (closing the pipe, the group
    lookup, either signal, either later wait), and with or without a
    process id, [stop()] on a held process returns normally as long as
    the graceful wait ends or times out: the handle is dropped, the
    reader list is empty, and "offline" is reported exactly once, as the
    last thing done. *)
Theorem stop_always_ends_offline
        (env : os) (c : Controller.t) (p : process) :
  proc c = Some p ->
  wait_graceful env = Ok tt \/ wait_graceful env = Raise TimeoutError ->
  exists tr,
    stop env c
    = (Ok tt, mkCtl (server_cmd c) (cwd c) None [] (wait_task c),
       tr ++ [Status false])
    /\ count is_status tr = 0%nat
    /\ is_running (mkCtl (server_cmd c) (cwd c) None [] (wait_task c)) = false.
Proof.
  exact (stop_always_ends_offline_aux env c p).
Qed.

Lemma stop_always_ends_offline_witness :
  proc running_controller = Some example_process
  /\ (wait_graceful stubborn_os = Ok tt
      \/ wait_graceful stubborn_os = Raise TimeoutError)
  /\ exists tr,
      stop stubborn_os running_controller
      = (Ok tt,
         mkCtl (server_cmd running_controller) (cwd running_controller)
               None [] (wait_task running_controller),
         tr ++ [Status false])
      /\ count is_status tr = 0%nat
      /\ is_running (mkCtl (server_cmd running_controller)
                           (cwd running_controller)
                           None [] (wait_task running_controller)) = false.
Proof.
  split; [reflexivity |]. split; [right; reflexivity |].
  apply (stop_always_ends_offline stubborn_os running_controller example_process);
    [reflexivity | right; reflexivity].
Defined.

(** X3.  A failure of the graceful wait that is not a timeout is not
    caught: [stop()] raises it after the graceful step, the handle stays
    in place, no forced signal is sent and no status is reported. *)
Theorem stop_propagates_wait_failure
        (env : os) (c : Controller.t) (p : process) (n : Z) (e : exn) :
  proc c = Some p ->
  pid p = Some n ->
  wait_graceful env = Raise e ->
  e <> TimeoutError ->
  exists tr,
    stop env c
    = (Raise e, mkCtl (server_cmd c) (cwd c) (Some p) [] (wait_task c), tr)
    /\ count is_status tr = 0%nat
    /\ count is_forced tr = 0%nat.
Proof.
  intros Hproc Hpid Hwait Hne.
  destruct (stop_unfold env c p Hproc) as (tr0 & Hs0 & Hf0 & Hstop).
  destruct (terminate_process_wait_failure env p n
              (mkCtl (server_cmd c) (cwd c) (proc c) [] (wait_task c)) e
              Hpid Hwait Hne) as (g & Hterm & Hg).
  specialize (Hstop _ _ _ Hterm). cbv beta iota in Hstop.
  eexists. split; [rewrite Hstop, Hproc; reflexivity |].
  destruct (graceful_step_calm n g Hg) as [Hgs Hgf].
  rewrite !count_app, Hs0, Hf0, Hgs, Hgf. split; reflexivity.
Qed.

Lemma stop_propagates_wait_failure_witness :
  let env :=
    mkOs (Ok example_process) (fun _ => false) (Ok tt) true (Ok tt) (Ok tt)
         (Ok 4242%Z) (Ok tt) (Ok tt) (Raise OSError)
         (Ok 4242%Z) (Ok tt) (Ok tt) (Ok tt) (Ok tt) in
  proc running_controller = Some example_process
  /\ pid example_process = Some 4242%Z
  /\ wait_graceful env = Raise OSError
  /\ OSError <> TimeoutError
  /\ exists tr,
      stop env running_controller
      = (Raise OSError,
         mkCtl (server_cmd running_controller) (cwd running_controller)
               (Some example_process) [] (wait_task running_controller), tr)
      /\ count is_status tr = 0%nat
      /\ count is_forced tr = 0%nat.
Proof.
  intros env.
  split; [reflexivity |]. split; [reflexivity |]. split; [reflexivity |].
  split; [discriminate |].
  apply (stop_propagates_wait_failure env running_controller example_process
           4242 OSError);
    [reflexivity | reflexivity | reflexivity | discriminate].
Defined.

(** X4.  When the spawn fails, [start()] raises the failure and changes
    nothing: the controller's fields are as before, "online" is not
    reported and no background task is created, so the controller is
    still not running. *)
Theorem start_spawn_failure_changes_nothing
        (env : os) (c : Controller.t) (e : exn) :
  is_running c = false ->
  create_subprocess_shell env = Raise e ->
  exists tr,
    start env c = (Raise e, c, tr)
    /\ count is_status tr = 0%nat
    /\ count is_create_task tr = 0%nat
    /\ count is_spawn tr = 1%nat.
Proof.
  intros Hrun Hspawn.
  unfold start, bind, get. rewrite Hrun.
  unfold call, log, emit, pass, ret. rewrite Hspawn.
  destruct (cwd c) as [[| ch d] |];
    eexists; (split; [reflexivity | repeat split]).
Qed.

Lemma start_spawn_failure_changes_nothing_witness :
  let env :=
    mkOs (Raise OSError) (fun _ => false) (Ok tt) true (Ok tt) (Ok tt)
         (Ok 4242%Z) (Ok tt) (Ok tt) (Ok tt)
         (Ok 4242%Z) (Ok tt) (Ok tt) (Ok tt) (Ok tt) in
  is_running idle_controller = false
  /\ create_subprocess_shell env = Raise OSError
  /\ exists tr,
      start env idle_controller = (Raise OSError, idle_controller, tr)
      /\ count is_status tr = 0%nat
      /\ count is_create_task tr = 0%nat
      /\ count is_spawn tr = 1%nat.
Proof.
  intros env. split; [reflexivity |]. split; [reflexivity |].
  apply (start_spawn_failure_changes_nothing env idle_controller OSError);
    reflexivity.
Defined.

(** X5.  Without a handle, or with a handle that has no input pipe,
    [send_command] writes nothing: it logs that the server is not
    running and returns. *)
Theorem send_command_without_pipe_only_logs
        (env : os) (c : Controller.t) (command : str) :
  proc c = None \/ (exists p, proc c = Some p /\ stdin p = None) ->
  send_command env command c
  = (Ok tt, c, [Log (lit "Server is not running.")]).
Proof.
  intros H.
  unfold send_command, bind, get.
  destruct H as [H | (p & H & Hin)]; rewrite H.
  - reflexivity.
  - destruct p as [pid0 rc0 in0 out0 err0]. simpl in Hin. subst in0.
    reflexivity.
Qed.

Lemma send_command_without_pipe_only_logs_witness :
  (proc idle_controller = None
   \/ exists p, proc idle_controller = Some p /\ stdin p = None)
  /\ send_command cooperative_os (lit "say hi") idle_controller
     = (Ok tt, idle_controller, [Log (lit "Server is not running.")]).
Proof.
  split; [left; reflexivity |].
  apply (send_command_without_pipe_only_logs cooperative_os idle_controller
           (lit "say hi")).
  left; reflexivity.
Defined.

(** What [_cancel_readers] shows and leaves. *)
Lemma cancel_readers_trace (env : os) (c : Controller.t) :
  cancel_readers env c
  = (Ok tt, mkCtl (server_cmd c) (cwd c) (proc c) [] (wait_task c),
     cancellation (pending_readers env c)).
Proof.
  unfold cancel_readers, cancellation, pending_readers.
  unfold bind at 1. unfold get.
  set (tasks := filter (fun t => negb (task_done env t)) (reader_tasks c)).
  unfold bind at 1. rewrite cancel_each.
  destruct tasks as [| t ts]; reflexivity.
Qed.

Lemma cancellation_calm (ts : list task) :
  count is_status (cancellation ts) = 0%nat.
Proof.
  unfold cancellation. rewrite count_app, count_cancels by reflexivity.
  destruct ts; reflexivity.
Qed.

(** The watcher's teardown on a controller that holds a process. *)
Lemma exit_teardown_run (env : os) (waited : result Z) (c : Controller.t) :
  exit_teardown env waited c
  = (match waited with Ok _ => Ok tt | Raise e => Raise e end,
     mkCtl (server_cmd c) (cwd c) None [] (wait_task c),
     (Wait
      :: match waited with
         | Ok rc => [Log (lit "Server exited (code " ++ str_of_int rc ++ lit ").")]
         | Raise _ => []
         end)
     ++ cancellation (pending_readers env c) ++ [SetProc None; Status false]).
Proof.
  unfold exit_teardown, try_finally.
  unfold bind at 2. unfold call, log, emit.
  destruct waited as [rc | e].
  - unfold bind at 1. rewrite cancel_readers_trace.
    cbv beta iota zeta delta [bind set_proc get put on_status emit].
    cbn [app server_cmd cwd proc reader_tasks wait_task].
    rewrite <- ?app_assoc. reflexivity.
  - unfold bind at 1. rewrite cancel_readers_trace.
    cbv beta iota zeta delta [bind set_proc get put on_status emit].
    cbn [app server_cmd cwd proc reader_tasks wait_task].
    rewrite <- ?app_assoc. reflexivity.
Qed.

(** X6.  The watcher of a held process always tears down.  After the
    wait, and after the line with the exit code when the wait returned,
    every reader task that is not done is cancelled, in order, and the
    cancelled tasks are gathered; then the handle is set to [None] and
    "offline" is reported, once and last.  This happens whether the wait
    returned or failed, and a failure of the wait is raised again only
    after it. *)
Theorem wait_for_exit_always_tears_down
        (env : os) (waited : result Z) (c : Controller.t) (p : process) :
  proc c = Some p ->
  exists tr,
    wait_for_exit env waited c
    = (match waited with Ok _ => Ok tt | Raise e => Raise e end,
       mkCtl (server_cmd c) (cwd c) None [] (wait_task c),
       tr ++ [SetProc None; Status false])
    /\ tr = [Wait]
            ++ match waited with
               | Ok rc =>
                   [Log (lit "Server exited (code " ++ str_of_int rc ++ lit ").")]
               | Raise _ => []
               end
            ++ cancellation (pending_readers env c)
    /\ count is_status tr = 0%nat.
Proof.
  intros Hp.
  eexists. split; [| split; [reflexivity |]].
  - unfold wait_for_exit. unfold bind at 1. unfold get. rewrite Hp.
    rewrite exit_teardown_run. cbn [app]. rewrite <- ?app_assoc. reflexivity.
  - rewrite !count_app, cancellation_calm. destruct waited; reflexivity.
Qed.

Lemma wait_for_exit_always_tears_down_witness :
  proc running_controller = Some example_process
  /\ exists tr,
      wait_for_exit cooperative_os (Raise OSError) running_controller
      = (Raise OSError,
         mkCtl (server_cmd running_controller) (cwd running_controller)
               None [] (wait_task running_controller),
         tr ++ [SetProc None; Status false])
      /\ tr = [Wait;
               Cancel (ReadStream (Some (Pipe 8)));
               Cancel (ReadStream (Some (Pipe 9)));
               Gather [ReadStream (Some (Pipe 8)); ReadStream (Some (Pipe 9))]]
      /\ count is_status tr = 0%nat.
Proof.
  split; [reflexivity |].
  apply (wait_for_exit_always_tears_down cooperative_os (Raise OSError)
           running_controller example_process).
  reflexivity.
Defined.

(** X7.  After a [stop()] that returned, [start()] is not refused: it
    spawns a new child, stores its handle and reports "online" once. *)
Theorem start_after_stop_spawns_again
        (env1 env2 : os) (c : Controller.t) (p q : process) :
  proc c = Some p ->
  wait_graceful env1 = Ok tt \/ wait_graceful env1 = Raise TimeoutError ->
  create_subprocess_shell env2 = Ok q ->
  exists c1 tr1 c2 tr2,
    stop env1 c = (Ok tt, c1, tr1)
    /\ start env2 c1 = (Ok tt, c2, tr2)
    /\ proc c2 = Some q
    /\ count is_spawn tr2 = 1%nat
    /\ count is_online tr2 = 1%nat.
Proof.
  intros Hproc Hwait Hspawn.
  destruct (stop_always_ends_offline_aux env1 c p Hproc Hwait)
    as (tr & Hstop & _ & Hrun).
  destruct (start_spawns env2 _ q Hrun Hspawn) as (tr2 & Hstart & Hon & Hsp).
  do 4 eexists.
  split; [exact Hstop |]. split; [exact Hstart |].
  split; [reflexivity |]. split; assumption.
Qed.

Lemma start_after_stop_spawns_again_witness :
  proc running_controller = Some example_process
  /\ (wait_graceful stubborn_os = Ok tt
      \/ wait_graceful stubborn_os = Raise TimeoutError)
  /\ create_subprocess_shell cooperative_os = Ok example_process
  /\ exists c1 tr1 c2 tr2,
      stop stubborn_os running_controller = (Ok tt, c1, tr1)
      /\ start cooperative_os c1 = (Ok tt, c2, tr2)
      /\ proc c2 = Some example_process
      /\ count is_spawn tr2 = 1%nat
      /\ count is_online tr2 = 1%nat.
Proof.
  split; [reflexivity |]. split; [right; reflexivity |]. split; [reflexivity |].
  apply (start_after_stop_spawns_again stubborn_os cooperative_os
           running_controller example_process example_process);
    [reflexivity | right; reflexivity | reflexivity].
Defined.

(** X8.  The watcher's teardown after a [stop()] that returned is
    redundant and harmless: no reader is left to cancel, the controller's
    fields stay as [stop()] left them, and all that shows is the wait,
    the exit line, the handle set to [None] once more and a second
    "offline" report. *)
Theorem teardown_after_stop_is_idempotent
        (env1 env2 : os) (c : Controller.t) (p : process) (rc : Z) :
  proc c = Some p ->
  wait_graceful env1 = Ok tt \/ wait_graceful env1 = Raise TimeoutError ->
  exists c1 tr1,
    stop env1 c = (Ok tt, c1, tr1)
    /\ exit_teardown env2 (Ok rc) c1
       = (Ok tt, c1,
          [Wait;
           Log (lit "Server exited (code " ++ str_of_int rc ++ lit ").");
           SetProc None;
           Status false])
    /\ wait_for_exit env2 (Ok rc) c1 = (Ok tt, c1, []).
Proof.
  intros Hproc Hwait.
  destruct (stop_always_ends_offline_aux env1 c p Hproc Hwait)
    as (tr & Hstop & _ & _).
  do 2 eexists. split; [exact Hstop |].
  split.
  - rewrite exit_teardown_run. reflexivity.
  - reflexivity.
Qed.

Lemma teardown_after_stop_is_idempotent_witness :
  proc running_controller = Some example_process
  /\ (wait_graceful cooperative_os = Ok tt
      \/ wait_graceful cooperative_os = Raise TimeoutError)
  /\ exists c1 tr1,
      stop cooperative_os running_controller = (Ok tt, c1, tr1)
      /\ exit_teardown stubborn_os (Ok 0%Z) c1
         = (Ok tt, c1,
            [Wait;
             Log (lit "Server exited (code " ++ str_of_int 0 ++ lit ").");
             SetProc None;
             Status false])
      /\ wait_for_exit stubborn_os (Ok 0%Z) c1 = (Ok tt, c1, []).
Proof.
  split; [reflexivity |]. split; [left; reflexivity |].
  apply (teardown_after_stop_is_idempotent cooperative_os stubborn_os
           running_controller example_process 0);
    [reflexivity | left; reflexivity].
Defined.

(** ** The line sanitizer *)

Section Sanitizer.

(** Inside or outside a match, a new [ESC [] starts a match of its own. *)
Lemma ansi_restart (b : bool) (u : str) :
  ANSI_RE_sub b (ESC :: 91%N :: u) = ANSI_RE_sub true u.
Proof.
  destruct b; reflexivity.
Qed.

(** What precedes an [ESC [] is filtered on its own. *)
Lemma ansi_split_at_escape (n : nat) :
  forall (s1 : str) (b : bool) (u : str),
    (List.length s1 <= n)%nat ->
    ANSI_RE_sub b (s1 ++ ESC :: 91%N :: u)
    = ANSI_RE_sub b s1 ++ ANSI_RE_sub true u.
Proof.
  induction n as [| n IH]; intros s1 b u Hlen.
  - destruct s1; [| simpl in Hlen; lia]. apply ansi_restart.
  - destruct s1 as [| c s1]; [apply ansi_restart |].
    simpl in Hlen.
    cbn [app ANSI_RE_sub].
    destruct (b && is_param c); [apply IH; lia |].
    destruct (b && is_final c); [apply IH; lia |].
    destruct s1 as [| c2 s1].
    + cbn [app].
      replace ((c =? ESC)%N && (ESC =? 91)%N) with false
        by (rewrite andb_false_r; reflexivity).
      rewrite ansi_restart. reflexivity.
    + cbn [app].
      destruct ((c =? ESC)%N && (c2 =? 91)%N).
      * apply IH. simpl in Hlen. lia.
      * change (c2 :: s1 ++ ESC :: 91%N :: u)
          with ((c2 :: s1) ++ ESC :: 91%N :: u).
        rewrite IH by lia. reflexivity.
Qed.

Lemma ansi_params_skipped (params : str) (f : char) (s2 : str) :
  forallb is_param params = true -> is_final f = true ->
  ANSI_RE_sub true (params ++ f :: s2) = ANSI_RE_sub false s2.
Proof.
  intros Hp Hf. induction params as [| c params IH].
  - cbn [app ANSI_RE_sub].
    destruct (is_param f) eqn:E; cbn [andb].
    + unfold is_param, is_final in *.
      destruct (N.eqb_spec f 109); [subst; discriminate |].
      destruct (N.eqb_spec f 75); [subst; discriminate |].
      destruct (N.eqb_spec f 72); [subst; discriminate |].
      destruct (N.eqb_spec f 70); [subst; discriminate |].
      discriminate.
    + rewrite Hf. reflexivity.
  - simpl in Hp. apply andb_prop in Hp as [Hc Hp].
    cbn [app ANSI_RE_sub]. rewrite Hc. cbn [andb]. apply IH. exact Hp.
Qed.

End Sanitizer.

(** X9.  A control sequence [ESC [ params final], with parameters among
    digits and semicolons and a final byte among [m K H F], is removed
    whole wherever it stands: the text before it and the text after it
    are filtered as if each stood alone. *)
Theorem ansi_sequence_is_removed (s1 params : str) (f : char) (s2 : str) :
  forallb is_param params = true ->
  is_final f = true ->
  ANSI_RE_sub false (s1 ++ ESC :: 91%N :: params ++ f :: s2)
  = ANSI_RE_sub false s1 ++ ANSI_RE_sub false s2.
Proof.
  intros Hp Hf.
  rewrite (ansi_split_at_escape (List.length s1)) by lia.
  rewrite ansi_params_skipped by assumption. reflexivity.
Qed.

Lemma ansi_sequence_is_removed_witness :
  forallb is_param (lit "1;31") = true
  /\ is_final 109%N = true
  /\ ANSI_RE_sub false
       (lit "[INFO] " ++ ESC :: 91%N :: lit "1;31" ++ 109%N :: lit "Server started.")
     = lit "[INFO] Server started.".
Proof.
  split; [reflexivity |]. split; [reflexivity |].
  transitivity (ANSI_RE_sub false (lit "[INFO] ")
                ++ ANSI_RE_sub false (lit "Server started."));
    [| reflexivity].
  apply (ansi_sequence_is_removed (lit "[INFO] ") (lit "1;31") 109%N
           (lit "Server started.")); reflexivity.
Defined.

Lemma ansi_filter_plain (s : str) :
  forallb not_esc s = true -> ANSI_RE_sub false s = s.
Proof.
  intros Hs. induction s as [| c s IH]; [reflexivity |].
  simpl in Hs. apply andb_prop in Hs as [Hc Hs].
  cbn [ANSI_RE_sub andb].
  unfold not_esc in Hc. apply negb_true_iff in Hc.
  destruct s as [| c2 s]; [reflexivity |].
  rewrite Hc. cbn [andb]. rewrite IH by exact Hs. reflexivity.
Qed.

(** X10.  The filter only removes: its output is never longer than its
    input, and a text with no [ESC] in it comes out unchanged. *)
Theorem ansi_filter_keeps_plain_text (s : str) :
  forallb not_esc s = true ->
  ANSI_RE_sub false s = s
  /\ forall b t, (List.length (ANSI_RE_sub b t) <= List.length t)%nat.
Proof.
  intros Hs. split.
  - apply ansi_filter_plain. exact Hs.
  - intros b t. remember (List.length t) as n eqn:Hn.
    assert (Hle : (List.length t <= n)%nat) by lia. clear Hn.
    revert b t Hle.
    induction n as [| n IH]; intros b t Hle.
    + destruct t; [simpl; lia | simpl in Hle; lia].
    + destruct t as [| c t]; [simpl; lia |].
      simpl in Hle. cbn [ANSI_RE_sub].
      destruct (b && is_param c); [specialize (IH true t); simpl; lia |].
      destruct (b && is_final c); [specialize (IH false t); simpl; lia |].
      destruct t as [| c2 t]; [simpl; lia |].
      destruct ((c =? ESC)%N && (c2 =? 91)%N).
      * specialize (IH true t). simpl in *. lia.
      * specialize (IH false (c2 :: t)). simpl in *. lia.
Qed.

Lemma ansi_filter_keeps_plain_text_witness :
  forallb not_esc (lit "[INFO] Server started.") = true
  /\ ANSI_RE_sub false (lit "[INFO] Server started.")
     = lit "[INFO] Server started.".
Proof.
  split; [reflexivity |].
  apply (ansi_filter_keeps_plain_text (lit "[INFO] Server started.")).
  reflexivity.
Defined.

(** ** The UTF-8 codec *)

Section Codec.

Lemma to_N_byte_of_N (n : N) : (n <= 255)%N -> Byte.to_N (byte_of_N n) = n.
Proof.
  intros H. unfold byte_of_N.
  destruct (Byte.of_N n) as [b |] eqn:E.
  - apply Byte.to_of_N. exact E.
  - apply Byte.of_N_None_iff in E. lia.
Qed.

Lemma high_bits_clear (x k i : N) :
  (x < 2 ^ k)%N -> (k <= i)%N -> N.testbit x i = false.
Proof.
  intros Hx Hi.
  destruct (N.eq_dec x 0) as [-> | Hx0]; [apply N.bits_0 |].
  apply N.bits_above_log2.
  apply N.lt_le_trans with k; [| exact Hi].
  apply N.log2_lt_pow2; [lia | exact Hx].
Qed.

Lemma marker_disjoint (m k x : N) :
  N.land m (N.ones k) = 0%N -> (x < 2 ^ k)%N -> N.land m x = 0%N.
Proof.
  intros Hm Hx. apply N.bits_inj. intros i.
  rewrite N.land_spec, N.bits_0.
  destruct (N.lt_ge_cases i k) as [Hi | Hi].
  - assert (Hb : N.testbit (N.land m (N.ones k)) i = false)
      by (rewrite Hm; apply N.bits_0).
    rewrite N.land_spec, N.ones_spec_low in Hb by exact Hi.
    rewrite andb_true_r in Hb. rewrite Hb. reflexivity.
  - rewrite (high_bits_clear x k i Hx Hi). apply andb_false_r.
Qed.

(** Setting the marker bits of a byte adds them, since the payload is
    below them. *)
Lemma lor_marker (m k x : N) :
  N.land m (N.ones k) = 0%N -> (x < 2 ^ k)%N -> N.lor m x = (m + x)%N.
Proof.
  intros Hm Hx.
  pose proof (marker_disjoint m k x Hm Hx) as Hd.
  rewrite <- N.lxor_lor by exact Hd.
  symmetry. apply N.add_nocarry_lxor. exact Hd.
Qed.

Ltac settle_tests :=
  repeat (match goal with
          | |- context [(?a <? ?b)%N] => destruct (N.ltb_spec a b); try lia
          | |- context [(?a <=? ?b)%N] => destruct (N.leb_spec a b); try lia
          | |- context [(?a =? ?b)%N] => destruct (N.eqb_spec a b); try lia
          end; cbn [andb orb negb]).

(** The three places where the encoder cuts a code point. *)
Lemma payload_low (c : N) : N.land c 0x3F = (c mod 64)%N.
Proof. change 0x3F%N with (N.ones 6). apply N.land_ones. Qed.

Lemma payload_shift (c k : N) : N.shiftr c k = (c / 2 ^ k)%N.
Proof. apply N.shiftr_div_pow2. Qed.

Lemma lead_shift (b k : N) : N.shiftl b k = (b * 2 ^ k)%N.
Proof. apply N.shiftl_mul_pow2. Qed.

Lemma continuation_byte (x : N) :
  (x < 64)%N -> N.lor 0x80 x = (128 + x)%N.
Proof. intros H. apply (lor_marker 0x80 6 x); [reflexivity | exact H]. Qed.

(** One encoded scalar value at the head of the data decodes to itself
    and leaves the rest of the data to be decoded. *)
Lemma decode_encoded_char (c : char) (rest : list N) :
  scalar c = true ->
  decode_from 0 (List.map Byte.to_N (utf8_char c) ++ rest)
  = c :: decode_from 0 rest.
Proof.
  intros Hc. unfold scalar in Hc.
  assert (Hrange : (c < 0xD800 \/ 0xE000 <= c < 0x110000)%N).
  { apply orb_prop in Hc as [Hc | Hc].
    - apply N.ltb_lt in Hc. left. exact Hc.
    - apply andb_prop in Hc as [H1 H2].
      apply N.leb_le in H1. apply N.ltb_lt in H2. right. split; assumption. }
  clear Hc. unfold utf8_char.
  pose proof (N.div_mod' c 64) as Hc64.
  pose proof (N.mod_lt c 64 ltac:(discriminate)) as Hr0.
  pose proof (N.div_mod' (c / 64) 64) as Hq64.
  pose proof (N.mod_lt (c / 64) 64 ltac:(discriminate)) as Hr1.
  pose proof (N.div_mod' (c / 64 / 64) 64) as Hp64.
  pose proof (N.mod_lt (c / 64 / 64) 64 ltac:(discriminate)) as Hr2.
  remember (c mod 64)%N as r eqn:Er.
  remember (c / 64)%N as q eqn:Eq.
  remember (q mod 64)%N as r1 eqn:Er1.
  remember (q / 64)%N as q1 eqn:Eq1.
  remember (q1 mod 64)%N as r2 eqn:Er2.
  remember (q1 / 64)%N as q2 eqn:Eq2.
  destruct (N.ltb_spec c 0x80) as [H1 | H1].
  { (* one byte *)
    cbn [List.map app]. rewrite to_N_byte_of_N by lia.
    cbn [decode_from decode_step].
    rewrite (proj2 (N.ltb_lt c 0x80) H1). reflexivity. }
  destruct (N.ltb_spec c 0x800) as [H2 | H2].
  { (* two bytes *)
    cbn [List.map app].
    rewrite payload_low, payload_shift.
    change (2 ^ 6)%N with 64%N. rewrite <- Er, <- Eq.
    rewrite continuation_byte by exact Hr0.
    rewrite (lor_marker 0xC0 6 q)
      by (reflexivity || (change (2 ^ 6)%N with 64%N; lia)).
    rewrite !to_N_byte_of_N by lia.
    cbn [decode_from]. unfold decode_step, is_continuation.
    rewrite !lead_shift. change (2 ^ 6)%N with 64%N.
    settle_tests; cbn [Nat.sub decode_from]; f_equal; lia. }
  replace ((0xD800 <=? c) && (c <=? 0xDFFF))%N with false
    by (symmetry; apply andb_false_iff;
        destruct Hrange as [H | [H _]];
        [left; apply N.leb_gt; lia | right; apply N.leb_gt; lia]).
  destruct (N.ltb_spec c 0x10000) as [H3 | H3].
  { (* three bytes *)
    cbn [List.map app].
    rewrite !payload_low, !payload_shift.
    change (2 ^ 6)%N with 64%N. change (2 ^ 12)%N with (64 * 64)%N.
    rewrite <- N.Div0.div_div.
    rewrite <- Er, <- Eq, <- Er1, <- Eq1.
    rewrite !continuation_byte by assumption.
    rewrite (lor_marker 0xE0 5 q1)
      by (reflexivity || (change (2 ^ 5)%N with 32%N; lia)).
    rewrite !to_N_byte_of_N by lia.
    cbn [decode_from]. unfold decode_step, is_continuation.
    rewrite !lead_shift.
    change (2 ^ 6)%N with 64%N. change (2 ^ 12)%N with 4096%N.
    settle_tests; cbn [Nat.sub decode_from]; f_equal; lia. }
  (* four bytes *)
  cbn [List.map app].
  rewrite !payload_low, !payload_shift.
  change 0x07%N with (N.ones 3). rewrite N.land_ones.
  change (2 ^ 3)%N with 8%N.
  change (2 ^ 6)%N with 64%N. change (2 ^ 12)%N with (64 * 64)%N.
  change (2 ^ 18)%N with (64 * 64 * 64)%N.
  rewrite <- !N.Div0.div_div.
  rewrite <- Er, <- Eq, <- Er1, <- Eq1, <- Er2, <- Eq2.
  rewrite (N.mod_small q2 8) by lia.
  rewrite !continuation_byte by assumption.
  rewrite (lor_marker 0xF0 4 q2)
    by (reflexivity || (change (2 ^ 4)%N with 16%N; lia)).
  rewrite !to_N_byte_of_N by lia.
  cbn [decode_from]. unfold decode_step, is_continuation.
  rewrite !lead_shift.
  change (2 ^ 6)%N with 64%N. change (2 ^ 12)%N with 4096%N.
  change (2 ^ 18)%N with 262144%N.
  settle_tests; cbn [Nat.sub decode_from]; f_equal; lia.
Qed.

End Codec.

Lemma encode_cons (c : char) (s : str) :
  encode_utf8_replace (c :: s) = utf8_char c ++ encode_utf8_replace s.
Proof. reflexivity. Qed.

Lemma decode_encoded (s : str) :
  forallb scalar s = true ->
  decode_utf8_replace (encode_utf8_replace s) = s.
Proof.
  unfold decode_utf8_replace.
  induction s as [| c s IH]; intros H; [reflexivity |].
  simpl in H. apply andb_prop in H as [Hc Hs].
  rewrite encode_cons, map_app, decode_encoded_char by exact Hc.
  rewrite IH by exact Hs. reflexivity.
Qed.

(** X11.  Decoding what the encoder wrote gives the text back: for every
    text made of Unicode scalar values (no lone surrogate),
    [decode(encode(text))] is [text]. *)
Theorem utf8_round_trip (s : str) :
  forallb scalar s = true ->
  decode_utf8_replace (encode_utf8_replace s) = s.
Proof. exact (decode_encoded s). Qed.

Lemma utf8_round_trip_witness :
  forallb scalar [0x73; 0xE9; 0x20AC; 0x1F600; 0x10FFFF]%N = true
  /\ decode_utf8_replace
       (encode_utf8_replace [0x73; 0xE9; 0x20AC; 0x1F600; 0x10FFFF]%N)
     = [0x73; 0xE9; 0x20AC; 0x1F600; 0x10FFFF]%N.
Proof.
  split; [reflexivity |].
  apply (utf8_round_trip [0x73; 0xE9; 0x20AC; 0x1F600; 0x10FFFF]%N).
  reflexivity.
Defined.

Section Echo.

Lemma forallb_dropwhile (P f : char -> bool) (s : str) :
  forallb P s = true -> forallb P (dropwhile f s) = true.
Proof.
  induction s as [| c s IH]; intros H; [reflexivity |].
  simpl. destruct (f c); [| exact H].
  simpl in H. apply andb_prop in H as [_ H]. apply IH. exact H.
Qed.

Lemma forallb_rev (P : char -> bool) (s : str) :
  forallb P s = true -> forallb P (rev s) = true.
Proof.
  intros H. apply forallb_forall. intros x Hx.
  apply in_rev in Hx. rewrite forallb_forall in H. apply H. exact Hx.
Qed.

Lemma forallb_rstrip (P f : char -> bool) (s : str) :
  forallb P s = true -> forallb P (rstrip f s) = true.
Proof.
  intros H. unfold rstrip.
  apply forallb_rev, forallb_dropwhile, forallb_rev. exact H.
Qed.

(** The line feed that ends a line goes first when trailing line ends are
    stripped. *)
Lemma rstrip_line (s : str) :
  rstrip is_crlf (s ++ [LF]) = rstrip is_crlf s.
Proof.
  unfold rstrip. rewrite rev_app_distr. reflexivity.
Qed.

(** What [clean_line] makes of an encoded line of plain text. *)
Lemma clean_encoded_line (text : str) :
  forallb scalar text = true ->
  forallb not_esc text = true ->
  clean_line (encode_utf8_replace (text ++ [LF])) = rstrip is_crlf text.
Proof.
  intros Hs He. unfold clean_line.
  rewrite decode_encoded.
  - rewrite rstrip_line.
    apply ansi_filter_plain. apply forallb_rstrip. exact He.
  - rewrite forallb_app, Hs. reflexivity.
Qed.

(** A text without a line feed is encoded without the byte of one: the
    bytes of a longer sequence all have their high bit set. *)
Lemma encoded_char_has_no_lf (c : char) :
  scalar c = true -> not_lf c = true ->
  Forall (fun b => Byte.to_N b <> 10%N) (utf8_char c).
Proof.
  intros Hc Hl. unfold not_lf in Hl. apply negb_true_iff in Hl.
  apply N.eqb_neq in Hl. unfold LF in Hl.
  unfold scalar in Hc.
  assert (Hrange : (c < 0xD800 \/ 0xE000 <= c < 0x110000)%N).
  { apply orb_prop in Hc as [Hc | Hc].
    - apply N.ltb_lt in Hc. left. exact Hc.
    - apply andb_prop in Hc as [H1 H2].
      apply N.leb_le in H1. apply N.ltb_lt in H2. right. split; assumption. }
  clear Hc. unfold utf8_char.
  pose proof (N.div_mod' c 64) as Hc64.
  pose proof (N.mod_lt c 64 ltac:(discriminate)) as Hr0.
  pose proof (N.div_mod' (c / 64) 64) as Hq64.
  pose proof (N.mod_lt (c / 64) 64 ltac:(discriminate)) as Hr1.
  pose proof (N.div_mod' (c / 64 / 64) 64) as Hp64.
  pose proof (N.mod_lt (c / 64 / 64) 64 ltac:(discriminate)) as Hr2.
  remember (c mod 64)%N as r eqn:Er.
  remember (c / 64)%N as q eqn:Eq.
  remember (q mod 64)%N as r1 eqn:Er1.
  remember (q / 64)%N as q1 eqn:Eq1.
  remember (q1 mod 64)%N as r2 eqn:Er2.
  remember (q1 / 64)%N as q2 eqn:Eq2.
  destruct (N.ltb_spec c 0x80) as [H1 | H1].
  { repeat constructor. rewrite to_N_byte_of_N by lia. exact Hl. }
  destruct (N.ltb_spec c 0x800) as [H2 | H2].
  { rewrite payload_low, payload_shift.
    change (2 ^ 6)%N with 64%N. rewrite <- Er, <- Eq.
    rewrite continuation_byte by exact Hr0.
    rewrite (lor_marker 0xC0 6 q)
      by (reflexivity || (change (2 ^ 6)%N with 64%N; lia)).
    repeat constructor; rewrite to_N_byte_of_N by lia; lia. }
  replace ((0xD800 <=? c) && (c <=? 0xDFFF))%N with false
    by (symmetry; apply andb_false_iff;
        destruct Hrange as [H | [H _]];
        [left; apply N.leb_gt; lia | right; apply N.leb_gt; lia]).
  destruct (N.ltb_spec c 0x10000) as [H3 | H3].
  { rewrite !payload_low, !payload_shift.
    change (2 ^ 6)%N with 64%N. change (2 ^ 12)%N with (64 * 64)%N.
    rewrite <- N.Div0.div_div.
    rewrite <- Er, <- Eq, <- Er1, <- Eq1.
    rewrite !continuation_byte by assumption.
    rewrite (lor_marker 0xE0 5 q1)
      by (reflexivity || (change (2 ^ 5)%N with 32%N; lia)).
    repeat constructor; rewrite to_N_byte_of_N by lia; lia. }
  rewrite !payload_low, !payload_shift.
  change 0x07%N with (N.ones 3). rewrite N.land_ones.
  change (2 ^ 3)%N with 8%N.
  change (2 ^ 6)%N with 64%N. change (2 ^ 12)%N with (64 * 64)%N.
  change (2 ^ 18)%N with (64 * 64 * 64)%N.
  rewrite <- !N.Div0.div_div.
  rewrite <- Er, <- Eq, <- Er1, <- Eq1, <- Er2, <- Eq2.
  rewrite (N.mod_small q2 8) by lia.
  rewrite !continuation_byte by assumption.
  rewrite (lor_marker 0xF0 4 q2)
    by (reflexivity || (change (2 ^ 4)%N with 16%N; lia)).
  repeat constructor; rewrite to_N_byte_of_N by lia; lia.
Qed.

Lemma encoded_has_no_lf (text : str) :
  forallb scalar text = true -> forallb not_lf text = true ->
  Forall (fun b => Byte.to_N b <> 10%N) (encode_utf8_replace text).
Proof.
  induction text as [| c text IH]; intros Hs Hl; [constructor |].
  simpl in Hs, Hl.
  apply andb_prop in Hs as [Hc Hs]. apply andb_prop in Hl as [Hcl Hl].
  rewrite encode_cons. apply Forall_app. split.
  - apply encoded_char_has_no_lf; assumption.
  - apply IH; assumption.
Qed.

Lemma find_lf_line (body : bytes) :
  Forall (fun b => Byte.to_N b <> 10%N) body ->
  find_lf (body ++ [Byte.x0a]) = Some (List.length body).
Proof.
  induction 1 as [| b body Hb _ IH]; [reflexivity |].
  cbn [app find_lf List.length].
  rewrite (proj2 (N.eqb_neq _ _) Hb), IH. reflexivity.
Qed.

(** [readline()] on one whole line. *)
Lemma readline_line (body : bytes) :
  Forall (fun b => Byte.to_N b <> 10%N) body ->
  readline (body ++ [Byte.x0a])
  = if (STREAM_LIMIT <? Z.of_nat (List.length body))%Z then Raise ValueError
    else Ok (body ++ [Byte.x0a]).
Proof.
  intros H. unfold readline. rewrite (find_lf_line body H).
  replace (firstn (S (List.length body)) (body ++ [Byte.x0a]))
    with (body ++ [Byte.x0a]); [reflexivity |].
  symmetry. apply firstn_all2. rewrite length_app. simpl. lia.
Qed.

End Echo.

(** X12.  What [send_command] writes for a line of plain text (scalar
    values, no [ESC], no line feed) comes back to [_read_stream], from a
    child that echoes its input, as one line.  When the encoded command
    is within the limit of the stream reader, the line is logged as the
    text that was typed, less any trailing carriage returns.  When it is
    longer, [readline()] raises [ValueError], which [_read_stream] does
    not catch: the reader ends with that error and logs nothing. *)
Theorem sent_line_is_logged_as_typed
        (env : os) (c c' : Controller.t) (p : process) (w : pipe)
        (command : str) :
  proc c = Some p -> stdin p = Some w ->
  forallb scalar command = true ->
  forallb not_esc command = true ->
  forallb not_lf command = true ->
  exists data,
    send_command env command c
    = (stdin_drain env, c, [StdinWrite data; StdinDrain])
    /\ read_stream (Some [readline data]) c'
       = if (Z.of_nat (List.length (encode_utf8_replace command))
             <=? STREAM_LIMIT)%Z
         then (Ok tt, c', [Log (rstrip is_crlf command)])
         else (Raise ValueError, c', []).
Proof.
  intros Hp Hw Hs He Hl.
  exists (encode_utf8_replace (command ++ [LF])). split.
  - unfold send_command, bind, get. rewrite Hp.
    destruct p as [pid0 rc0 in0 out0 err0]. simpl in Hw. subst in0.
    unfold emit, call. destruct (stdin_drain env); reflexivity.
  - pose proof (clean_encoded_line command Hs He) as Hclean.
    rewrite encode_line in *.
    rewrite (readline_line (encode_utf8_replace command))
      by (apply encoded_has_no_lf; assumption).
    unfold read_stream, read_lines.
    destruct (Z.leb_spec (Z.of_nat (List.length (encode_utf8_replace command)))
                STREAM_LIMIT) as [Hfit | Hlong].
    + rewrite (proj2 (Z.ltb_ge _ _) Hfit).
      destruct (encode_utf8_replace command ++ [Byte.x0a]) as [| b bs] eqn:E.
      * destruct (encode_utf8_replace command); discriminate.
      * unfold bind, log, emit, pass, ret. rewrite Hclean. reflexivity.
    + rewrite (proj2 (Z.ltb_lt _ _) Hlong). reflexivity.
Qed.

Lemma sent_line_is_logged_as_typed_witness :
  proc running_controller = Some example_process
  /\ stdin example_process = Some (Pipe 7)
  /\ forallb scalar (lit "say hi") = true
  /\ forallb not_esc (lit "say hi") = true
  /\ forallb not_lf (lit "say hi") = true
  /\ exists data,
      send_command cooperative_os (lit "say hi") running_controller
      = (Ok tt, running_controller, [StdinWrite data; StdinDrain])
      /\ read_stream (Some [readline data]) idle_controller
         = (Ok tt, idle_controller, [Log (lit "say hi")]).
Proof.
  repeat (split; [reflexivity |]).
  apply (sent_line_is_logged_as_typed cooperative_os running_controller
           idle_controller example_process (Pipe 7) (lit "say hi"));
    reflexivity.
Defined.

(** ** More on rendering *)

Section RenderShape.

Lemma fill_succeeds (part : str) (width : Z) :
  (1 <= width)%Z ->
  TextWrap.fill part width
  = Ok (join [LF]
          (TextWrap.wrap_loop (TextWrap.weight (TextWrap.split_chunks part))
             (TextWrap.split_chunks part) [] width)).
Proof.
  intros H. unfold TextWrap.fill, TextWrap.wrap, TextWrap.wrap_chunks.
  destruct (Z.leb_spec width 0); [lia | reflexivity].
Qed.

Lemma render_parts_shape (width : Z) (parts : list str) :
  (1 <= width)%Z ->
  forall rendered,
  exists entries,
    LogBuffer.render_parts parts width rendered = Ok (rendered ++ entries)
    /\ Forall2 (fun part entry => TextWrap.fill part width = Ok entry)
               parts entries.
Proof.
  intros Hw. induction parts as [| part parts IH]; intros rendered.
  - exists []. rewrite app_nil_r. split; [reflexivity | constructor].
  - cbn [LogBuffer.render_parts]. rewrite (fill_succeeds part width Hw).
    destruct (IH (rendered ++
                  [join [LF]
                     (TextWrap.wrap_loop
                        (TextWrap.weight (TextWrap.split_chunks part))
                        (TextWrap.split_chunks part) [] width)]))
      as (entries & H & HF).
    eexists (_ :: entries). split.
    + rewrite H, <- app_assoc. reflexivity.
    + constructor; [apply fill_succeeds; exact Hw | exact HF].
Qed.

Lemma render_messages_shape (width : Z) (msgs : list str) :
  (1 <= width)%Z ->
  forall rendered,
  exists entries,
    LogBuffer.render_messages msgs width rendered = Ok (rendered ++ entries)
    /\ Forall2 (fun part entry => TextWrap.fill part width = Ok entry)
               (flat_map Util.split_lines msgs) entries.
Proof.
  intros Hw. induction msgs as [| msg msgs IH]; intros rendered.
  - exists []. rewrite app_nil_r. split; [reflexivity | constructor].
  - cbn [LogBuffer.render_messages flat_map].
    destruct (render_parts_shape width (Util.split_lines msg) Hw rendered)
      as (e1 & H1 & F1).
    rewrite H1.
    destruct (IH (rendered ++ e1)) as (e2 & H2 & F2).
    exists (e1 ++ e2). split.
    + rewrite H2, <- app_assoc. reflexivity.
    + apply Forall2_app; assumption.
Qed.

End RenderShape.

Section LinesFit.

Import TextWrap.

Lemma len_app (a b : str) : len (a ++ b) = (len a + len b)%Z.
Proof. unfold len. rewrite length_app. lia. Qed.

Lemma len_nonneg (a : str) : (0 <= len a)%Z.
Proof. unfold len. lia. Qed.

Lemma concat_snoc (l : list str) (c : str) :
  List.concat (l ++ [c]) = List.concat l ++ c.
Proof. rewrite concat_app. simpl. rewrite app_nil_r. reflexivity. Qed.

(** The inner loop keeps the line within the width and its running
    length exact. *)
Lemma take_fitting_fits (chunks : list str) :
  forall (cur_line : list str) (cur_len width : Z)
         (chunks2 cur_line2 : list str) (cur_len2 : Z),
    take_fitting chunks cur_line cur_len width = (chunks2, cur_line2, cur_len2) ->
    len (List.concat cur_line) = cur_len -> (cur_len <= width)%Z ->
    len (List.concat cur_line2) = cur_len2 /\ (cur_len2 <= width)%Z.
Proof.
  induction chunks as [| c rest IH]; intros cl n w chunks2 cl2 n2 H Hn Hw;
    simpl in H.
  - injection H as <- <- <-. auto.
  - destruct (Z.leb_spec (n + len c) w) as [Hfit | Hfit].
    + apply (IH _ _ _ _ _ _ H); [| exact Hfit].
      rewrite concat_snoc, len_app, Hn. reflexivity.
    + injection H as <- <- <-. auto.
Qed.

Lemma rfind_in_bound (c : char) (s : str) :
  forall i, (0 <= i)%Z -> (rfind_in c s i < i + len s)%Z.
Proof.
  induction s as [| x s IH]; intros i Hi; simpl.
  - unfold len. simpl. lia.
  - specialize (IH (i + 1)%Z ltac:(lia)).
    unfold len in *. simpl List.length. rewrite Nat2Z.inj_succ.
    destruct (Z.leb_spec 0 (rfind_in c s (i + 1))); [lia |].
    destruct (x =? c)%N; lia.
Qed.

Lemma slice_to_fits (s : str) (e : Z) : (0 <= e)%Z -> (len (slice_to s e) <= e)%Z.
Proof.
  intros He. unfold slice_to, norm_index, len.
  rewrite length_firstn.
  destruct (Z.ltb_spec e 0); lia.
Qed.

Lemma handle_long_word_fits
      (c : str) (rest cur_line : list str) (cur_len width : Z) :
  len (List.concat cur_line) = cur_len ->
  (cur_len <= width)%Z -> (1 <= width)%Z ->
  (len (List.concat (snd (handle_long_word (c :: rest) cur_line cur_len width)))
   <= width)%Z.
Proof.
  intros Hn Hfit Hw. unfold handle_long_word. cbv zeta. cbn [snd].
  destruct (Z.ltb_spec width 1) as [? | _]; [lia |].
  rewrite concat_snoc, len_app, Hn.
  set (space_left := (width - cur_len)%Z).
  assert (Hs : (0 <= space_left)%Z) by (subst space_left; lia).
  pose proof (rfind_in_bound HYPHEN (slice_to c space_left) 0 ltac:(lia)) as Hr.
  pose proof (slice_to_fits c space_left Hs) as Hl.
  fold (rfind HYPHEN c space_left) in Hr.
  destruct (_ && _ && _) eqn:E.
  - apply andb_prop in E as [E _]. apply andb_prop in E as [_ E].
    apply Z.ltb_lt in E.
    pose proof (slice_to_fits c (rfind HYPHEN c space_left + 1) ltac:(lia)).
    lia.
  - lia.
Qed.

Lemma drop_trailing_ws_shorter (cur_line : list str) :
  (len (List.concat (drop_trailing_ws cur_line))
   <= len (List.concat cur_line))%Z.
Proof.
  unfold drop_trailing_ws.
  destruct (rev cur_line) as [| last before] eqn:E; [lia |].
  destruct (strip_is_empty last); [| lia].
  assert (Hl : cur_line = rev before ++ [last]).
  { rewrite <- (rev_involutive cur_line), E. reflexivity. }
  rewrite Hl, concat_snoc, len_app. pose proof (len_nonneg last). lia.
Qed.

(** A pass of the outer loop adds at most one line, and that line fits. *)
Lemma wrap_step_fits (chunks lines : list str) (width : Z) :
  (1 <= width)%Z ->
  Forall (fun l => (len l <= width)%Z) lines ->
  Forall (fun l => (len l <= width)%Z) (snd (wrap_step chunks lines width)).
Proof.
  intros Hw Hlines. unfold wrap_step.
  set (chunks1 := match chunks with
                  | c :: rest =>
                      if strip_is_empty c && nonempty lines then rest else chunks
                  | [] => chunks
                  end).
  destruct (take_fitting chunks1 [] 0 width) as [[chunks2 cur_line] cur_len]
    eqn:Htake.
  destruct (take_fitting_fits _ _ _ _ _ _ _ Htake eq_refl ltac:(lia))
    as [Hlen Hfit].
  assert (H2 : forall chunks3 cur_line2,
             (len (List.concat cur_line2) <= width)%Z ->
             Forall (fun l => (len l <= width)%Z)
               (snd (chunks3 : list str,
                     if nonempty (drop_trailing_ws cur_line2)
                     then lines ++ [List.concat (drop_trailing_ws cur_line2)]
                     else lines))).
  { intros chunks3 cl2 Hcl2. cbn [snd].
    destruct (nonempty (drop_trailing_ws cl2)); [| exact Hlines].
    apply Forall_app. split; [exact Hlines |].
    constructor; [| constructor].
    pose proof (drop_trailing_ws_shorter cl2). lia. }
  destruct chunks2 as [| c2 r2].
  - apply H2. lia.
  - destruct (width <? len c2)%Z.
    + pose proof (handle_long_word_fits c2 r2 cur_line cur_len width
                    Hlen Hfit Hw) as Hh.
      destruct (handle_long_word (c2 :: r2) cur_line cur_len width)
        as [chunks3 cl2].
      apply H2. exact Hh.
    + apply H2. lia.
Qed.

Lemma wrap_loop_fits (width : Z) (fuel : nat) :
  (1 <= width)%Z ->
  forall chunks lines,
    Forall (fun l => (len l <= width)%Z) lines ->
    Forall (fun l => (len l <= width)%Z) (wrap_loop fuel chunks lines width).
Proof.
  intros Hw. induction fuel as [| fuel IH]; intros chunks lines H; simpl.
  - exact H.
  - destruct chunks as [| c rest]; [exact H |].
    pose proof (wrap_step_fits (c :: rest) lines width Hw H) as Hs.
    destruct (wrap_step (c :: rest) lines width) as [chunks' lines'].
    apply IH. exact Hs.
Qed.

End LinesFit.

(** X14.  No rendered line is wider than asked: every entry that
    [render] returns is a run of lines joined by line feeds, each line at
    most [max(20, width)] characters long, however long the words of the
    message are. *)
Theorem rendered_lines_fit_the_width (b : LogBuffer.t) (width : Z) :
  exists out,
    LogBuffer.render b width = Ok out
    /\ Forall (fun entry =>
                 exists lines,
                   entry = join [LF] lines
                   /\ Forall (fun l => (len l <= Z.max 20 width)%Z) lines)
              out.
Proof.
  destruct (render_messages_shape (Z.max 20 width) (LogBuffer.messages b)
              ltac:(lia) []) as (entries & H & HF).
  exists entries. split; [exact H |].
  clear H. induction HF as [| part entry parts entries Hfill _ IH];
    constructor; [| exact IH].
  rewrite fill_succeeds in Hfill by lia. injection Hfill as <-.
  eexists. split; [reflexivity |].
  apply wrap_loop_fits; [lia | constructor].
Qed.

Section Ink.

Import TextWrap.

Lemma ink_app (a b : str) : ink (a ++ b) = ink a ++ ink b.
Proof. apply filter_app. Qed.

Lemma ink_blank (s : str) : strip_is_empty s = true -> ink s = [].
Proof.
  unfold strip_is_empty, ink, visible.
  induction s as [| c s IH]; intros H; [reflexivity |].
  simpl in *. apply andb_prop in H as [Hc Hs].
  rewrite Hc. simpl. apply IH. exact Hs.
Qed.

Lemma ink_spaces (n : nat) : ink (repeat SPACE n) = [].
Proof. induction n; [reflexivity | exact IHn]. Qed.

Lemma ws_is_space (c : char) : is_ws c = true -> isspace c = true.
Proof.
  unfold is_ws, isspace. intros H.
  apply orb_prop in H as [H | H].
  - rewrite H. reflexivity.
  - apply N.eqb_eq in H. subst c. reflexivity.
Qed.

Lemma linebreak_is_space (c : char) : is_linebreak c = true -> isspace c = true.
Proof.
  unfold is_linebreak, isspace. intros H.
  repeat (apply orb_prop in H as [H | H]);
    try (apply N.eqb_eq in H; subst c; reflexivity);
    apply andb_prop in H as [H1 H2];
    apply N.leb_le in H1; apply N.leb_le in H2.
  - replace ((9 <=? c) && (c <=? 13))%N with true
      by (symmetry; apply andb_true_intro; split; apply N.leb_le; lia).
    reflexivity.
  - replace ((28 <=? c) && (c <=? 32))%N with true
      by (symmetry; apply andb_true_intro; split; apply N.leb_le; lia).
    rewrite orb_true_r. reflexivity.
Qed.

Lemma ink_expandtabs (tabsize : Z) (s : str) :
  forall col, ink (expandtabs_from tabsize col s) = ink s.
Proof.
  induction s as [| c s IH]; intros col; [reflexivity |].
  cbn [expandtabs_from].
  destruct (N.eqb_spec c TAB) as [-> | Hc].
  - change (ink (TAB :: s)) with (ink s).
    destruct (0 <? tabsize)%Z; [| apply IH].
    rewrite ink_app, ink_spaces, IH. reflexivity.
  - unfold ink in *. cbn [filter]. rewrite IH. reflexivity.
Qed.

Lemma ink_munge (text : str) : ink (munge_whitespace text) = ink text.
Proof.
  unfold munge_whitespace. rewrite <- (ink_expandtabs 8 text 0).
  unfold expandtabs.
  induction (expandtabs_from 8 0 text) as [| c s IH]; [reflexivity |].
  unfold ink in *. cbn [List.map filter]. rewrite IH.
  destruct (is_ws c) eqn:E; [| reflexivity].
  unfold visible. rewrite (ws_is_space c E). reflexivity.
Qed.

Lemma ink_join (lines : list str) :
  ink (join [LF] lines) = ink (List.concat lines).
Proof.
  induction lines as [| l lines IH]; [reflexivity |].
  destruct lines as [| l2 lines].
  - simpl. rewrite app_nil_r. reflexivity.
  - change (join [LF] (l :: l2 :: lines))
      with (l ++ [LF] ++ join [LF] (l2 :: lines)).
    change (List.concat (l :: l2 :: lines))
      with (l ++ List.concat (l2 :: lines)).
    rewrite !ink_app, IH. reflexivity.
Qed.

Lemma ink_splitlines (s : str) :
  forall skip cur,
    ink (List.concat (splitlines_from skip cur s)) = ink (cur ++ s).
Proof.
  induction s as [| c s IH]; intros skip cur.
  - simpl. destruct cur; simpl; rewrite ?app_nil_r; reflexivity.
  - cbn [splitlines_from].
    destruct (skip && (c =? LF)%N) eqn:E1.
    + apply andb_prop in E1 as [_ E1]. apply N.eqb_eq in E1. subst c.
      rewrite IH, !ink_app. reflexivity.
    + destruct (N.eqb_spec c CR) as [-> | Hc].
      * cbn [List.concat]. rewrite ink_app, IH, !ink_app. reflexivity.
      * destruct (is_linebreak c) eqn:E2.
        -- cbn [List.concat]. rewrite ink_app, IH, !ink_app.
           change (ink (c :: s)) with (if visible c then c :: ink s else ink s).
           unfold visible. rewrite (linebreak_is_space c E2). reflexivity.
        -- rewrite IH, <- app_assoc. reflexivity.
Qed.

Lemma ink_split_lines (msg : str) :
  ink (List.concat (Util.split_lines msg)) = ink msg.
Proof.
  unfold Util.split_lines, splitlines.
  pose proof (ink_splitlines msg false []) as H.
  destruct (splitlines_from false [] msg); exact H.
Qed.

(** The inner loop only moves chunks from the stack to the line. *)
Lemma take_fitting_moves (chunks : list str) :
  forall (cur_line : list str) (cur_len width : Z)
         (chunks2 cur_line2 : list str) (cur_len2 : Z),
    take_fitting chunks cur_line cur_len width = (chunks2, cur_line2, cur_len2) ->
    List.concat cur_line2 ++ List.concat chunks2
    = List.concat cur_line ++ List.concat chunks.
Proof.
  induction chunks as [| c rest IH]; intros cl n w chunks2 cl2 n2 H;
    simpl in H.
  - injection H as <- <- <-. reflexivity.
  - destruct (n + len c <=? w)%Z.
    + rewrite (IH _ _ _ _ _ _ H), concat_snoc, <- app_assoc. reflexivity.
    + injection H as <- <- <-. reflexivity.
Qed.

(** Breaking a long word cuts it in two and keeps both halves. *)
Lemma handle_long_word_moves
      (c : str) (rest cur_line : list str) (cur_len width : Z) :
  List.concat (snd (handle_long_word (c :: rest) cur_line cur_len width))
  ++ List.concat (fst (handle_long_word (c :: rest) cur_line cur_len width))
  = List.concat cur_line ++ List.concat (c :: rest).
Proof.
  unfold handle_long_word. cbv zeta. cbn [fst snd List.concat].
  rewrite concat_snoc, <- app_assoc. f_equal.
  rewrite app_assoc. f_equal.
  unfold slice_to, slice_from. apply firstn_skipn.
Qed.

Lemma ink_drop_trailing_ws (cur_line : list str) :
  ink (List.concat (drop_trailing_ws cur_line)) = ink (List.concat cur_line).
Proof.
  unfold drop_trailing_ws.
  destruct (rev cur_line) as [| last before] eqn:E; [reflexivity |].
  destruct (strip_is_empty last) eqn:B; [| reflexivity].
  assert (Hl : cur_line = rev before ++ [last]).
  { rewrite <- (rev_involutive cur_line), E. reflexivity. }
  rewrite Hl, concat_snoc, ink_app, (ink_blank last B), app_nil_r.
  reflexivity.
Qed.

(** A pass of the outer loop moves ink from the chunks to the lines and
    loses none. *)
Lemma wrap_step_keeps_ink (chunks lines : list str) (width : Z) :
  ink (List.concat (snd (wrap_step chunks lines width))
       ++ List.concat (fst (wrap_step chunks lines width)))
  = ink (List.concat lines ++ List.concat chunks).
Proof.
  unfold wrap_step.
  set (chunks1 := match chunks with
                  | c :: rest =>
                      if strip_is_empty c && nonempty lines then rest else chunks
                  | [] => chunks
                  end).
  assert (H1 : ink (List.concat chunks1) = ink (List.concat chunks)).
  { subst chunks1. destruct chunks as [| c rest]; [reflexivity |].
    destruct (strip_is_empty c) eqn:B; [| reflexivity].
    destruct (nonempty lines); [| reflexivity].
    cbn [andb List.concat]. rewrite ink_app, (ink_blank c B). reflexivity. }
  destruct (take_fitting chunks1 [] 0 width) as [[chunks2 cur_line] cur_len]
    eqn:Htake.
  pose proof (take_fitting_moves _ _ _ _ _ _ _ Htake) as Hmove.
  cbn [List.concat app] in Hmove.
  assert (H2 : forall chunks3 cur_line2,
             List.concat cur_line2 ++ List.concat chunks3
             = List.concat cur_line ++ List.concat chunks2 ->
             ink (List.concat
                    (snd (chunks3,
                          if nonempty (drop_trailing_ws cur_line2)
                          then lines ++ [List.concat (drop_trailing_ws cur_line2)]
                          else lines))
                  ++ List.concat
                       (fst (chunks3,
                             if nonempty (drop_trailing_ws cur_line2)
                             then lines ++ [List.concat (drop_trailing_ws cur_line2)]
                             else lines)))
             = ink (List.concat lines ++ List.concat chunks)).
  { intros chunks3 cl2 H. cbn [fst snd].
    match goal with
    | |- ink (List.concat ?L ++ _) = _ =>
        assert (Hl : ink (List.concat L)
                     = ink (List.concat lines) ++ ink (List.concat cl2))
    end.
    { pose proof (ink_drop_trailing_ws cl2) as Hd.
      destruct (drop_trailing_ws cl2) as [| x xs].
      - cbn [nonempty]. rewrite <- Hd. cbn [List.concat].
        change (ink []) with (@nil char). rewrite app_nil_r. reflexivity.
      - cbn [nonempty]. rewrite concat_snoc, ink_app, Hd. reflexivity. }
    rewrite !ink_app, Hl, <- app_assoc.
    rewrite <- (ink_app (List.concat cl2)), H, Hmove, H1. reflexivity. }
  destruct chunks2 as [| c2 r2].
  - apply H2. reflexivity.
  - destruct (width <? len c2)%Z.
    + pose proof (handle_long_word_moves c2 r2 cur_line cur_len width) as Hh.
      destruct (handle_long_word (c2 :: r2) cur_line cur_len width)
        as [chunks3 cl2].
      apply H2. exact Hh.
    + apply H2. reflexivity.
Qed.

(** With budget for every pass, the loop ends with all the ink of the
    chunks in the lines. *)
Lemma wrap_loop_keeps_ink (width : Z) (fuel : nat) :
  (1 <= width)%Z ->
  forall chunks lines,
    (weight chunks <= fuel)%nat ->
    ink (List.concat (wrap_loop fuel chunks lines width))
    = ink (List.concat lines ++ List.concat chunks).
Proof.
  intros Hw. induction fuel as [| fuel IH]; intros chunks lines Hf.
  - assert (chunks = []) by (apply weight_zero; lia). subst chunks.
    simpl. rewrite app_nil_r. reflexivity.
  - destruct chunks as [| c rest]; [simpl; rewrite app_nil_r; reflexivity |].
    simpl wrap_loop.
    pose proof (wrap_step_progress (c :: rest) lines width
                  ltac:(discriminate) Hw) as Hp.
    pose proof (wrap_step_keeps_ink (c :: rest) lines width) as Hk.
    destruct (wrap_step (c :: rest) lines width) as [chunks' lines'].
    cbn [fst snd] in *.
    rewrite IH by lia. exact Hk.
Qed.

Lemma fill_keeps_ink (part entry : str) (width : Z) :
  (1 <= width)%Z ->
  TextWrap.fill part width = Ok entry -> ink entry = ink part.
Proof.
  intros Hw H. rewrite fill_succeeds in H by exact Hw. injection H as <-.
  rewrite ink_join, wrap_loop_keeps_ink by (exact Hw || lia).
  cbn [List.concat app]. unfold split_chunks.
  rewrite split_concat. apply ink_munge.
Qed.

Lemma ink_all_split_lines (msgs : list str) :
  ink (List.concat (flat_map Util.split_lines msgs)) = ink (List.concat msgs).
Proof.
  induction msgs as [| msg msgs IH]; [reflexivity |].
  cbn [flat_map List.concat].
  rewrite concat_app, !ink_app, IH, ink_split_lines. reflexivity.
Qed.

End Ink.

(** X15.  Rendering loses no visible character, adds none and keeps their
    order: with the white space taken out, what [render] returns reads
    the same as the stored messages. *)
Theorem render_keeps_every_visible_character (b : LogBuffer.t) (width : Z) :
  exists out,
    LogBuffer.render b width = Ok out
    /\ ink (List.concat out) = ink (List.concat (LogBuffer.messages b)).
Proof.
  destruct (render_messages_shape (Z.max 20 width) (LogBuffer.messages b)
              ltac:(lia) []) as (entries & H & HF).
  exists entries. split; [exact H |].
  transitivity (ink (List.concat
                       (flat_map Util.split_lines (LogBuffer.messages b)))).
  - clear H. induction HF as [| part entry parts entries Hfill _ IH];
      [reflexivity |].
    cbn [List.concat]. rewrite !ink_app, IH.
    rewrite (fill_keeps_ink part entry (Z.max 20 width)) by (lia || exact Hfill).
    reflexivity.
  - apply ink_all_split_lines.
Qed.

Lemma splitlines_from_clean (s : str) :
  forall skip cur,
    no_linebreak cur = true ->
    Forall (fun l => no_linebreak l = true) (splitlines_from skip cur s).
Proof.
  induction s as [| c s IH]; intros skip cur Hcur.
  - simpl. destruct cur; constructor; [exact Hcur | constructor].
  - cbn [splitlines_from].
    destruct (skip && (c =? LF)%N); [apply IH; exact Hcur |].
    destruct (c =? CR)%N; [constructor; [exact Hcur | apply IH; reflexivity] |].
    destruct (is_linebreak c) eqn:E;
      [constructor; [exact Hcur | apply IH; reflexivity] |].
    apply IH. unfold no_linebreak in *.
    rewrite forallb_app, Hcur. simpl. rewrite E. reflexivity.
Qed.


(** X16.  [split_lines] always returns at least one part, and no part
    contains a line boundary: every part is a single line. *)
Theorem split_lines_gives_single_lines (text : str) :
  Util.split_lines text <> []
  /\ Forall (fun l => no_linebreak l = true) (Util.split_lines text).
Proof.
  unfold Util.split_lines, splitlines.
  pose proof (splitlines_from_clean text false [] eq_refl) as H.
  destruct (splitlines_from false [] text) as [| l ls].
  - split; [discriminate | repeat constructor].
  - split; [discriminate | exact H].
Qed.

(** ** More on the resource sampler *)

Lemma after_snoc (os : list Stats.observation) :
  forall (s : Stats.t) (o : Stats.observation),
    Stats.after s (os ++ [o]) = fst (Stats.sample (Stats.after s os) o).
Proof.
  induction os as [| o' os IH]; intros s o.
  - rewrite after_nil. cbn [app]. rewrite after_cons, after_nil. reflexivity.
  - cbn [app]. rewrite !after_cons. apply IH.
Qed.

(** A push on a window that is in order keeps the most recent readings. *)
Lemma deque_append_recent (d : Stats.deque) (x : Q) :
  (1 <= Stats.maxlen d)%Z ->
  (Z.of_nat (List.length (Stats.items d)) <= Stats.maxlen d)%Z ->
  Stats.items (Stats.deque_append d x)
  = most_recent (Z.to_nat (Stats.maxlen d)) (Stats.items d ++ [x]).
Proof.
  intros Hm Hlen. unfold Stats.deque_append, most_recent. cbn [Stats.items].
  rewrite length_app. cbn [List.length].
  destruct (Z.ltb_spec (Stats.maxlen d)
              (Z.of_nat (List.length (Stats.items d) + 1))) as [H | H].
  - replace (List.length (Stats.items d) + 1 - Z.to_nat (Stats.maxlen d))%nat
      with 1%nat by lia.
    reflexivity.
  - replace (List.length (Stats.items d) + 1 - Z.to_nat (Stats.maxlen d))%nat
      with 0%nat by lia.
    reflexivity.
Qed.

Lemma cpu_count_after (os : list Stats.observation) :
  forall s, Stats.cpu_count (Stats.after s os) = Stats.cpu_count s.
Proof.
  induction os as [| o os IH]; intros s; [reflexivity |].
  rewrite after_cons, IH.
  destruct (Stats.warmed s) eqn:Hw.
  - rewrite sample_warm_state by exact Hw. reflexivity.
  - rewrite sample_cold by exact Hw. reflexivity.
Qed.

(** The window after the warm-up call and any run of further calls. *)
Lemma window_after (n : Z) (cpus : option Z) (o0 : Stats.observation)
      (os : list Stats.observation) :
  Stats.items (Stats.cpu_history (Stats.after (Stats.new n cpus) (o0 :: os)))
  = most_recent (Z.to_nat (Z.max 1 n))
      (List.map (Stats.cpu_display (Stats.cpu_count (Stats.new n cpus))) os).
Proof.
  induction os as [| o os IH] using rev_ind; [reflexivity |].
  change (o0 :: os ++ [o]) with ((o0 :: os) ++ [o]).
  rewrite after_snoc.
  destruct (after_calls os (Stats.new n cpus) o0 (new_window_ok n cpus))
    as ((Hm & Hlen & _) & Hw & Hcap).
  rewrite sample_warm_state by exact Hw. cbn [Stats.cpu_history].
  rewrite deque_append_recent by assumption.
  rewrite Hcap, IH, cpu_count_after. cbn [Stats.new Stats.cpu_history Stats.maxlen].
  rewrite most_recent_snoc, map_app. reflexivity.
Qed.

(** X17.  Once warm, the sampler's window always holds the most recent
    [max(1, cpu_history_size)] normalised readings, oldest first, and the
    CPU percent of every answer is the mean of the window with the new
    reading in it. *)
Theorem window_is_the_most_recent_readings
        (n : Z) (cpus : option Z) (o0 : Stats.observation)
        (os : list Stats.observation) (o : Stats.observation) :
  let s := Stats.new n cpus in
  let d := Stats.cpu_display (Stats.cpu_count s) in
  let k := Z.to_nat (Z.max 1 n) in
  Stats.items (Stats.cpu_history (Stats.after s (o0 :: os)))
  = most_recent k (List.map d os)
  /\ exists smp,
      snd (Stats.sample (Stats.after s (o0 :: os)) o) = Ok (Some smp)
      /\ Stats.mean (most_recent k (List.map d (os ++ [o])))
         = Ok (Stats.cpu_percent smp).
Proof.
  intros s d k. split; [apply window_after |].
  destruct (after_calls os s o0 (new_window_ok n cpus))
    as ((Hm & Hlen & _) & Hw & Hcap).
  pose proof (window_after n cpus o0 (os ++ [o])) as Hwin.
  change (o0 :: os ++ [o]) with ((o0 :: os) ++ [o]) in Hwin.
  rewrite after_snoc, sample_warm_state in Hwin by exact Hw.
  cbn [Stats.cpu_history] in Hwin.
  fold s d k in Hwin.
  destruct (Stats.mean (most_recent k (List.map d (os ++ [o])))) as [m | e]
    eqn:Hmean.
  - rewrite <- Hwin in Hmean.
    destruct (sample_warm_answer _ o m Hw Hmean) as (smp & Hs & Hc & _).
    exists smp. rewrite Hc. auto.
  - exfalso. rewrite <- Hwin in Hmean.
    pose proof (deque_append_nonempty
                  (Stats.cpu_history (Stats.after s (o0 :: os)))
                  (Stats.cpu_display (Stats.cpu_count (Stats.after s (o0 :: os))) o)
                  Hm) as Hne.
    unfold Stats.mean in Hmean.
    match type of Hmean with
    | match ?l with [] => _ | _ => _ end = _ =>
        destruct l eqn:El; [exact (Hne eq_refl) | discriminate Hmean]
    end.
Qed.

Lemma accumulate_unreadable (acc : Q * Z) (p : Stats.ps_process) (e : exn) :
  Stats.ps_cpu_percent p = Raise e -> Stats.accumulate acc p = acc.
Proof.
  intros H. unfold Stats.accumulate. destruct acc as [c r]. rewrite H.
  reflexivity.
Qed.

(** X18.  A descendant whose CPU read fails is as if it were not there:
    with or without it in the list of children, [sample] leaves the same
    sampler and gives the same answer. *)
Theorem unreadable_descendant_is_skipped
        (s : Stats.t) (tgt p : Stats.ps_process)
        (before after_ : list Stats.ps_process)
        (sys : result Q) (vm : result Z) (e : exn) :
  Stats.ps_cpu_percent p = Raise e ->
  Stats.sample s (Stats.mkObs tgt (Ok (before ++ p :: after_)) sys vm)
  = Stats.sample s (Stats.mkObs tgt (Ok (before ++ after_)) sys vm).
Proof.
  intros Hp.
  assert (Ht : Stats.totals (Stats.mkObs tgt (Ok (before ++ p :: after_)) sys vm)
               = Stats.totals (Stats.mkObs tgt (Ok (before ++ after_)) sys vm)).
  { unfold Stats.totals, Stats.procs_of. cbn [Stats.children Stats.target].
    change (tgt :: before ++ p :: after_) with ((tgt :: before) ++ p :: after_).
    change (tgt :: before ++ after_) with ((tgt :: before) ++ after_).
    rewrite !fold_left_app. cbn [fold_left].
    rewrite (accumulate_unreadable _ p e Hp). reflexivity. }
  unfold Stats.sample, Stats.cpu_display. rewrite Ht. reflexivity.
Qed.

Lemma unreadable_descendant_is_skipped_witness :
  let gone := Stats.mkProc 31 (Raise OSError) (Ok 4096%Z) in
  let kid := Stats.mkProc 30 (Ok 12) (Ok 1048576%Z) in
  let tgt := Stats.mkProc 29 (Ok 50) (Ok 2097152%Z) in
  let s := Stats.after (Stats.new 5 (Some 4%Z)) [lone_process 29 0 0] in
  Stats.ps_cpu_percent gone = Raise OSError
  /\ Stats.sample s (Stats.mkObs tgt (Ok ([kid] ++ gone :: [])) (Ok 3) (Ok 0%Z))
     = Stats.sample s (Stats.mkObs tgt (Ok ([kid] ++ [])) (Ok 3) (Ok 0%Z)).
Proof.
  intros gone kid tgt s. split; [reflexivity |].
  apply (unreadable_descendant_is_skipped s tgt gone [kid] [] (Ok 3) (Ok 0%Z)
           OSError).
  reflexivity.
Defined.

(** X19.  With [lo <= hi], [clamp] lands in [[lo, hi]], leaves a value of
    that interval as it is, and clamping twice is clamping once. *)
Theorem clamp_lands_in_the_interval (value lo hi : Q) :
  lo <= hi ->
  (lo <= Util.clamp value lo hi /\ Util.clamp value lo hi <= hi)
  /\ Util.clamp (Util.clamp value lo hi) lo hi = Util.clamp value lo hi
  /\ (forall v, lo <= v -> v <= hi -> Util.clamp v lo hi = v).
Proof.
  intros H. unfold Util.clamp. repeat split.
  - destruct (Qlt_le_dec hi value); [exact H |].
    destruct (Qlt_le_dec value lo); [apply Qle_refl | assumption].
  - destruct (Qlt_le_dec hi value); [apply Qle_refl |].
    destruct (Qlt_le_dec value lo); assumption.
  - destruct (Qlt_le_dec hi value) as [H1 | H1].
    + destruct (Qlt_le_dec hi hi) as [H2 | _];
        [exfalso; apply (Qlt_irrefl hi); exact H2 |].
      destruct (Qlt_le_dec hi lo) as [H3 | _]; [| reflexivity].
      exfalso. apply (Qlt_irrefl hi). apply Qlt_le_trans with lo; assumption.
    + destruct (Qlt_le_dec value lo) as [H2 | H2].
      * destruct (Qlt_le_dec hi lo) as [H3 | _].
        -- exfalso. apply (Qlt_irrefl hi).
           apply Qlt_le_trans with lo; assumption.
        -- destruct (Qlt_le_dec lo lo) as [H4 | _]; [| reflexivity].
           exfalso. apply (Qlt_irrefl lo). exact H4.
      * destruct (Qlt_le_dec hi value) as [H3 | _].
        -- exfalso. apply (Qlt_irrefl hi).
           apply Qlt_le_trans with value; assumption.
        -- destruct (Qlt_le_dec value lo) as [H4 | _]; [| reflexivity].
           exfalso. apply (Qlt_irrefl value).
           apply Qlt_le_trans with lo; assumption.
  - intros v Hlo Hhi.
    destruct (Qlt_le_dec hi v) as [H1 | _].
    + exfalso. apply (Qlt_irrefl hi). apply Qlt_le_trans with v; assumption.
    + destruct (Qlt_le_dec v lo) as [H2 | _]; [| reflexivity].
      exfalso. apply (Qlt_irrefl v). apply Qlt_le_trans with lo; assumption.
Qed.

Lemma clamp_lands_in_the_interval_witness :
  0 <= 100
  /\ Util.clamp 250 0 100 = 100
  /\ Util.clamp (-3) 0 100 = 0
  /\ Util.clamp (Util.clamp 250 0 100) 0 100 = Util.clamp 250 0 100.
Proof.
  split; [discriminate |].
  split; [reflexivity |]. split; [reflexivity |].
  destruct (clamp_lands_in_the_interval 250 0 100) as (_ & H & _);
    [discriminate | exact H].
Defined.

(** X20.  When the machine's memory cannot be read, a warm sampler still
    answers, with a total of [max(4096, rss_mb)] MB: never below the
    resident figure it reports beside it, which is never negative. *)
Theorem memory_total_falls_back_above_rss
        (n : Z) (cpus : option Z) (o0 : Stats.observation)
        (os : list Stats.observation) (o : Stats.observation) (e : exn) :
  Stats.virtual_memory_total o = Raise e ->
  exists smp,
    snd (Stats.sample (Stats.after (Stats.new n cpus) (o0 :: os)) o)
    = Ok (Some smp)
    /\ Stats.total_ram_mb smp = Z.max 4096 (Stats.rss_mb smp)
    /\ (Stats.rss_mb smp <= Stats.total_ram_mb smp)%Z
    /\ (0 <= Stats.rss_mb smp)%Z.
Proof.
  intros Hvm.
  destruct (after_calls os (Stats.new n cpus) o0 (new_window_ok n cpus))
    as ((Hm & _) & Hw & _).
  set (s := Stats.after (Stats.new n cpus) (o0 :: os)) in *.
  pose proof (deque_append_nonempty (Stats.cpu_history s)
                (Stats.cpu_display (Stats.cpu_count s) o) Hm) as Hne.
  unfold Stats.sample. rewrite Hw, Hvm. cbn [negb]. cbv zeta.
  unfold Stats.mean.
  destruct (Stats.items _) as [| x xs]; [contradiction |].
  eexists. split; [reflexivity |].
  cbn [Stats.total_ram_mb Stats.rss_mb]. lia.
Qed.

Lemma memory_total_falls_back_above_rss_witness :
  let o := Stats.mkObs (Stats.mkProc 29 (Ok 50) (Ok 8589934592%Z)) (Ok [])
                       (Ok 3) (Raise OSError) in
  Stats.virtual_memory_total o = Raise OSError
  /\ exists smp,
      snd (Stats.sample (Stats.after (Stats.new 5 None) [o]) o) = Ok (Some smp)
      /\ Stats.total_ram_mb smp = 8192%Z
      /\ Stats.rss_mb smp = 8192%Z.
Proof.
  intros o. split; [reflexivity |].
  destruct (memory_total_falls_back_above_rss 5 None o [] o OSError eq_refl)
    as (smp & Hs & Ht & _ & _).
  exists smp. split; [exact Hs |].
  vm_compute in Hs. injection Hs as <-. split; reflexivity.
Defined.

(** ** The command history *)

Section CommandHistory.

Import History.

Lemma str_eqb_eq (a b : str) : str_eqb a b = true <-> a = b.
Proof.
  unfold str_eqb. destruct (list_eq_dec N.eq_dec a b); split; intros H;
    try assumption; try reflexivity; try discriminate; contradiction.
Qed.

Lemma adjacent_distinct_tail (a : str) (h : list str) :
  adjacent_distinct (a :: h) = true -> adjacent_distinct h = true.
Proof.
  destruct h as [| b h]; [reflexivity |].
  cbn [adjacent_distinct]. intros H. apply andb_prop in H as [_ H]. exact H.
Qed.

Lemma adjacent_distinct_skipn (n : nat) :
  forall h, adjacent_distinct h = true -> adjacent_distinct (skipn n h) = true.
Proof.
  induction n as [| n IH]; intros h H; [exact H |].
  destruct h as [| a h]; [reflexivity |].
  cbn [skipn]. apply IH. apply (adjacent_distinct_tail a). exact H.
Qed.

(** A new entry that differs from the latest keeps the history free of
    repeats. *)
Lemma adjacent_distinct_snoc (h : list str) (c : str) :
  adjacent_distinct h = true ->
  (forall latest, hd_error (rev h) = Some latest -> str_eqb latest c = false) ->
  adjacent_distinct (h ++ [c]) = true.
Proof.
  induction h as [| a h IH]; intros H Hlast; [reflexivity |].
  destruct h as [| b h].
  - cbn [app adjacent_distinct]. rewrite (Hlast a eq_refl). reflexivity.
  - change ((a :: b :: h) ++ [c]) with (a :: ((b :: h) ++ [c])).
    cbn [adjacent_distinct] in H. apply andb_prop in H as [Hab H].
    change ((b :: h) ++ [c]) with (b :: (h ++ [c])) at 1.
    cbn [adjacent_distinct]. rewrite Hab. cbn [andb].
    change (b :: h ++ [c]) with ((b :: h) ++ [c]).
    apply IH; [exact H |].
    intros latest Hl. apply Hlast.
    cbn [rev] in *. destruct (rev h ++ [b]) eqn:E.
    + destruct (rev h); discriminate.
    + simpl in *. exact Hl.
Qed.

Lemma last_200_snoc_latest (h : list str) (c : str) :
  (List.length h <= 200)%nat ->
  hd_error (rev (last_200 (h ++ [c]))) = Some c
  /\ (List.length (last_200 (h ++ [c])) <= 200)%nat.
Proof.
  intros Hlen. unfold last_200. rewrite length_app. cbn [List.length].
  split.
  - destruct (Nat.eq_dec (List.length h) 200) as [E | E].
    + replace (List.length h + 1 - 200)%nat with 1%nat by lia.
      destruct h as [| a h]; [discriminate |].
      cbn [app skipn]. rewrite rev_app_distr. reflexivity.
    + replace (List.length h + 1 - 200)%nat with 0%nat by lia.
      cbn [skipn]. rewrite rev_app_distr. reflexivity.
  - rewrite length_skipn, length_app. cbn [List.length]. lia.
Qed.

End CommandHistory.

(** X21.  Submitting a command keeps the history tidy: a history of at
    most 200 entries with no entry repeated in a row stays so; a
    non-empty command becomes (or already is) the latest entry; and a
    value that is blank once stripped changes nothing. *)
Theorem remember_command_keeps_history_tidy
        (cmd_history : list str) (value : option str) :
  (List.length cmd_history <= 200)%nat ->
  adjacent_distinct cmd_history = true ->
  let command := fst (History.remember_command cmd_history value) in
  let history := snd (History.remember_command cmd_history value) in
  (List.length history <= 200)%nat
  /\ adjacent_distinct history = true
  /\ (command <> [] -> hd_error (rev history) = Some command)
  /\ (command = [] -> history = cmd_history).
Proof.
  intros Hlen Hadj. unfold History.remember_command.
  set (command := strip (match value with Some v => v | None => [] end)).
  destruct command as [| c0 cs] eqn:Ec.
  - cbn [fst snd]. repeat split; try assumption; try reflexivity.
    intros H. contradiction.
  - destruct (rev cmd_history) as [| latest older] eqn:Er.
    + cbn [fst snd].
      destruct (last_200_snoc_latest cmd_history (c0 :: cs) Hlen) as [H1 H2].
      repeat split; try assumption; try discriminate.
      * apply adjacent_distinct_skipn.
        apply adjacent_distinct_snoc; [exact Hadj |].
        intros l Hl. rewrite Er in Hl. discriminate.
      * intros _. exact H1.
    + destruct (str_eqb latest (c0 :: cs)) eqn:Eq.
      * cbn [fst snd]. apply str_eqb_eq in Eq. subst latest.
        repeat split; try assumption; try discriminate.
        intros _. rewrite Er. reflexivity.
      * cbn [fst snd].
        destruct (last_200_snoc_latest cmd_history (c0 :: cs) Hlen) as [H1 H2].
        repeat split; try assumption; try discriminate.
        -- apply adjacent_distinct_skipn.
           apply adjacent_distinct_snoc; [exact Hadj |].
           intros l Hl. rewrite Er in Hl. injection Hl as <-. exact Eq.
        -- intros _. exact H1.
Qed.

Lemma remember_command_keeps_history_tidy_witness :
  let h := [lit "list"; lit "say hi"] in
  (List.length h <= 200)%nat
  /\ adjacent_distinct h = true
  /\ (let command := fst (History.remember_command h (Some (lit " stop"))) in
      let history := snd (History.remember_command h (Some (lit " stop"))) in
      (List.length history <= 200)%nat
      /\ adjacent_distinct history = true
      /\ (command <> [] -> hd_error (rev history) = Some command)
      /\ (command = [] -> history = h)).
Proof.
  intros h. split; [simpl; lia |]. split; [reflexivity |].
  apply (remember_command_keeps_history_tidy h (Some (lit " stop")));
    [simpl; lia | reflexivity].
Defined.

Section Browsing.

Import History.

Lemma getitem_in_range (history : list str) (p : Z) :
  (0 <= p < Z.of_nat (List.length history))%Z ->
  exists entry, getitem history p = inl entry.
Proof.
  intros Hp. unfold getitem.
  destruct (Z.ltb_spec p 0); [lia |].
  destruct (Z.ltb_spec p 0); [lia |].
  destruct (nth_error history (Z.to_nat p)) as [x |] eqn:E.
  - exists x. reflexivity.
  - apply nth_error_None in E. lia.
Qed.

(** One press of [Up] or [Down] from a position in range cannot fail and
    leaves a position in range. *)
Lemma key_up_in_range (history : list str) (w : input) :
  position_ok history w ->
  exists w', key_up history w = (w', inl tt) /\ position_ok history w'
             /\ (history <> [] ->
                 hist_pos w'
                 = Some (match hist_pos w with
                         | None => Z.of_nat (List.length history) - 1
                         | Some p => Z.max 0 (p - 1)
                         end)%Z
                 /\ saved w' = match hist_pos w with
                               | None => Some (value w)
                               | Some _ => saved w
                               end).
Proof.
  intros Hok. unfold key_up, position_ok in *.
  destruct history as [| h0 hs] eqn:Eh.
  - exists w. split; [reflexivity |]. split; [exact Hok |].
    intros Hne. contradiction.
  - rewrite <- Eh in *.
    assert (Hlen : (0 < Z.of_nat (List.length history))%Z)
      by (rewrite Eh; simpl; lia).
    destruct (hist_pos w) as [p |].
    + destruct (getitem_in_range history (Z.max 0 (p - 1)) ltac:(lia)) as (x & Hx).
      rewrite Hx. eexists. split; [reflexivity |]. cbn [hist_pos saved].
      split; [lia | intros _; split; reflexivity].
    + destruct (getitem_in_range history (Z.of_nat (List.length history) - 1)
                  ltac:(lia)) as (x & Hx).
      rewrite Hx. eexists. split; [reflexivity |]. cbn [hist_pos saved].
      split; [lia | intros _; split; reflexivity].
Qed.

Lemma key_down_in_range (history : list str) (w : input) :
  position_ok history w ->
  exists w', key_down history w = (w', inl tt) /\ position_ok history w'.
Proof.
  intros Hok. unfold key_down, position_ok in *.
  destruct history as [| h0 hs] eqn:Eh; [exists w; auto |].
  rewrite <- Eh in *.
  destruct (hist_pos w) as [p |] eqn:Ep.
  - destruct (Z.ltb_spec p (Z.of_nat (List.length history) - 1)).
    + destruct (getitem_in_range history (p + 1) ltac:(lia)) as (x & Hx).
      rewrite Hx. eexists. split; [reflexivity |]. cbn [hist_pos]. lia.
    + eexists. split; [reflexivity |]. cbn [hist_pos]. exact I.
  - exists w. rewrite Ep. auto.
Qed.

Lemma press_in_range (history : list str) (keys : list key) :
  forall w, position_ok history w ->
            exists w', press keys history w = (w', inl tt)
                       /\ position_ok history w'.
Proof.
  induction keys as [| k keys IH]; intros w Hok.
  - exists w. auto.
  - cbn [press]. destruct k.
    + destruct (key_up_in_range history w Hok) as (w1 & H1 & Hok1 & _).
      rewrite H1. apply IH. exact Hok1.
    + destruct (key_down_in_range history w Hok) as (w1 & H1 & Hok1).
      rewrite H1. apply IH. exact Hok1.
Qed.

End Browsing.

(** X22.  Browsing cannot run off the history: from no position, or from
    a position inside the history, no run of [Up] and [Down] presses
    raises [IndexError], and the position it leaves is again none or one
    inside the history. *)
Theorem browsing_stays_inside_the_history
        (history : list str) (keys : list History.key) (w : History.input) :
  position_ok history w ->
  exists w',
    History.press keys history w = (w', inl tt) /\ position_ok history w'.
Proof. exact (press_in_range history keys w). Qed.

Lemma browsing_stays_inside_the_history_witness :
  let h := [lit "list"; lit "say hi"] in
  let w := History.mkInput (lit "st") 2 None None in
  position_ok h w
  /\ exists w',
      History.press [History.Up; History.Up; History.Up; History.Down] h w
      = (w', inl tt)
      /\ position_ok h w'.
Proof.
  intros h w. split; [exact I |].
  apply (browsing_stays_inside_the_history h
           [History.Up; History.Up; History.Up; History.Down] w).
  exact I.
Defined.

Section UpAndDown.

Import History.

Lemma press_app (history : list str) (keys1 keys2 : list key) :
  forall w,
    press (keys1 ++ keys2) history w
    = match press keys1 history w with
      | (w', inl _) => press keys2 history w'
      | (w', inr e) => (w', inr e)
      end.
Proof.
  induction keys1 as [| k keys1 IH]; intros w; [reflexivity |].
  cbn [app press].
  destruct ((match k with Up => key_up | Down => key_down end) history w)
    as [w1 [[] | e]]; [apply IH | reflexivity].
Qed.

(** [Up] pressed [k] times from a position climbs [k] entries, stopping
    at the oldest, and keeps what was saved. *)
Lemma ups_climb (history : list str) (k : nat) :
  forall w p v,
    hist_pos w = Some p -> saved w = Some v ->
    (0 <= p < Z.of_nat (List.length history))%Z ->
    exists w',
      press (repeat Up k) history w = (w', inl tt)
      /\ hist_pos w' = Some (Z.max 0 (p - Z.of_nat k))
      /\ saved w' = Some v.
Proof.
  induction k as [| k IH]; intros w p v Hp Hv Hr.
  - exists w. cbn [repeat press]. rewrite Hp. repeat split; [| exact Hv].
    f_equal. lia.
  - assert (Hne : history <> []) by (destruct history; [simpl in Hr; lia | discriminate]).
    assert (Hok : position_ok history w) by (unfold position_ok; rewrite Hp; exact Hr).
    destruct (key_up_in_range history w Hok) as (w1 & H1 & Hok1 & Hmore).
    destruct (Hmore Hne) as [Hp1 Hs1]. rewrite Hp in Hp1, Hs1.
    cbn [repeat press]. rewrite H1.
    destruct (IH w1 (Z.max 0 (p - 1)) v Hp1 ltac:(congruence) ltac:(lia))
      as (w' & H & Hp' & Hv').
    exists w'. split; [exact H |]. split; [| exact Hv'].
    rewrite Hp'. f_equal. lia.
Qed.

Lemma downs_idle (history : list str) (j : nat) (w : input) :
  hist_pos w = None -> press (repeat Down j) history w = (w, inl tt).
Proof.
  intros Hp. induction j as [| j IH]; [reflexivity |].
  cbn [repeat press]. unfold key_down. rewrite Hp.
  destruct history; exact IH.
Qed.

(** [Down] pressed enough times from a position walks to the latest
    entry, then puts back what was saved and forgets the position. *)
Lemma downs_restore (history : list str) (j : nat) :
  forall w p v,
    hist_pos w = Some p -> saved w = Some v ->
    (0 <= p < Z.of_nat (List.length history))%Z ->
    (Z.of_nat (List.length history) - p <= Z.of_nat j)%Z ->
    exists w',
      press (repeat Down j) history w = (w', inl tt)
      /\ value w' = v /\ hist_pos w' = None.
Proof.
  induction j as [| j IH]; intros w p v Hp Hv Hr Hj; [lia |].
  cbn [repeat press]. unfold key_down. rewrite Hp.
  destruct history as [| h0 hs] eqn:Eh; [simpl in Hr; lia |].
  rewrite <- Eh in *.
  destruct (Z.ltb_spec p (Z.of_nat (List.length history) - 1)) as [Hlt | Hge].
  - destruct (getitem_in_range history (p + 1) ltac:(lia)) as (x & Hx).
    rewrite Hx.
    apply (IH _ (p + 1)%Z v); cbn [hist_pos saved]; try reflexivity;
      try assumption; lia.
  - rewrite Hv.
    exists (mkInput v (len v) None (Some v)).
    split; [apply downs_idle; reflexivity | split; reflexivity].
Qed.

End UpAndDown.

(** X23.  Browsing up and coming back loses nothing: from a widget that
    is not browsing, pressing [Up] any number of times and then [Down] as
    many times gives back the text that was being typed and leaves the
    browsing position unset, however short the history is. *)
Theorem up_then_down_gives_back_the_typed_text
        (history : list str) (w : History.input) (k : nat) :
  History.hist_pos w = None ->
  history <> [] ->
  (1 <= k)%nat ->
  exists w',
    History.press (repeat History.Up k ++ repeat History.Down k) history w
    = (w', inl tt)
    /\ History.value w' = History.value w
    /\ History.hist_pos w' = None.
Proof.
  intros Hp Hne Hk.
  destruct k as [| k]; [lia |].
  assert (Hlen : (0 < Z.of_nat (List.length history))%Z)
    by (destruct history; [contradiction | simpl; lia]).
  assert (Hok : position_ok history w) by (unfold position_ok; rewrite Hp; exact I).
  destruct (key_up_in_range history w Hok) as (w1 & H1 & Hok1 & Hmore).
  destruct (Hmore Hne) as [Hp1 Hs1]. rewrite Hp in Hp1, Hs1.
  destruct (ups_climb history k w1 _ _ Hp1 Hs1 ltac:(lia))
    as (w2 & H2 & Hp2 & Hs2).
  destruct (downs_restore history (S k) w2 _ _ Hp2 Hs2 ltac:(lia) ltac:(lia))
    as (w3 & H3 & Hv3 & Hp3).
  exists w3. split; [| split; assumption].
  rewrite press_app.
  change (repeat History.Up (S k)) with (History.Up :: repeat History.Up k).
  cbn [History.press]. rewrite H1, H2. exact H3.
Qed.

Lemma up_then_down_gives_back_the_typed_text_witness :
  let h := [lit "list"; lit "say hi"] in
  let w := History.mkInput (lit "st") 2 None None in
  History.hist_pos w = None
  /\ h <> []
  /\ (1 <= 3)%nat
  /\ exists w',
      History.press (repeat History.Up 3 ++ repeat History.Down 3) h w
      = (w', inl tt)
      /\ History.value w' = lit "st"
      /\ History.hist_pos w' = None.
Proof.
  intros h w. split; [reflexivity |]. split; [discriminate |].
  split; [lia |].
  apply (up_then_down_gives_back_the_typed_text h w 3);
    [reflexivity | discriminate | lia].
Defined.

(** ** The names of backup archives *)

Section ArchiveNames.

Import Backup.

Lemma rfind_in_absent (c : char) (t : str) :
  forallb (fun x => negb (x =? c)%N) t = true ->
  forall i, rfind_in c t i = (-1)%Z.
Proof.
  induction t as [| x t IH]; intros H i; [reflexivity |].
  simpl in H. apply andb_prop in H as [Hx Ht].
  cbn [rfind_in]. rewrite (IH Ht). cbn.
  apply negb_true_iff in Hx. rewrite Hx. reflexivity.
Qed.

(** The last occurrence is the one after which the character no longer
    appears. *)
Lemma rfind_in_last (c : char) (s t : str) :
  forallb (fun x => negb (x =? c)%N) t = true ->
  forall i, (0 <= i)%Z -> rfind_in c (s ++ c :: t) i = (i + len s)%Z.
Proof.
  intros Ht. induction s as [| x s IH]; intros i Hi.
  - cbn [app rfind_in]. rewrite (rfind_in_absent c t Ht). cbn.
    rewrite N.eqb_refl. unfold len. simpl. lia.
  - cbn [app rfind_in]. rewrite IH by lia.
    pose proof (len_nonneg s).
    destruct (Z.leb_spec 0 (i + 1 + len s)); [| lia].
    unfold len in *. simpl List.length. lia.
Qed.

Lemma slice_to_all (s : str) : slice_to s (len s) = s.
Proof.
  unfold slice_to, norm_index. pose proof (len_nonneg s).
  destruct (Z.ltb_spec (len s) 0); [lia |].
  rewrite Z.min_id. unfold len. rewrite Nat2Z.id. apply firstn_all.
Qed.

Lemma slice_to_prefix (a b : str) : slice_to (a ++ b) (len a) = a.
Proof.
  unfold slice_to, norm_index. pose proof (len_nonneg a).
  destruct (Z.ltb_spec (len a) 0); [lia |].
  rewrite len_app. pose proof (len_nonneg b).
  rewrite Z.min_l by lia. unfold len. rewrite Nat2Z.id.
  rewrite firstn_app, Nat.sub_diag, firstn_all. cbn [firstn].
  apply app_nil_r.
Qed.

(** The stem of a name that ends in [.zip] is the name without it. *)
Lemma stem_of_zip (x : str) : x <> [] -> stem (x ++ lit ".zip") = x.
Proof.
  intros Hx. unfold stem, rfind.
  rewrite slice_to_all.
  change (lit ".zip") with (46%N :: [122; 105; 112]%N).
  rewrite rfind_in_last by (reflexivity || lia).
  rewrite len_app.
  assert (0 < len x)%Z
    by (destruct x; [contradiction | unfold len; simpl; lia]).
  change (len (46%N :: [122; 105; 112]%N)) with 4%Z.
  destruct (Z.ltb_spec 0 (0 + len x)); [| lia].
  destruct (Z.ltb_spec (0 + len x) (len x + 4 - 1)); [| lia].
  cbn [andb]. rewrite Z.add_0_l. apply slice_to_prefix.
Qed.

(** Reading from the right, a field with no separator in it is closed by
    the separator before it. *)
Lemma rsplit_from_field (sep : char) (m : nat) (t : str) :
  forallb (fun x => negb (x =? sep)%N) t = true ->
  forall rest acc fields,
    rsplit_from sep (S m) (rev t ++ sep :: rest) acc fields
    = rsplit_from sep m rest [] ((t ++ acc) :: fields).
Proof.
  induction t as [| c t IH] using rev_ind; intros Ht rest acc fields.
  - cbn [rev app rsplit_from]. rewrite N.eqb_refl. reflexivity.
  - rewrite forallb_app in Ht. apply andb_prop in Ht as [Ht Hc].
    simpl in Hc. rewrite andb_true_r in Hc. apply negb_true_iff in Hc.
    rewrite rev_app_distr. cbn [rev app rsplit_from]. rewrite Hc.
    rewrite IH by exact Ht. rewrite <- app_assoc. reflexivity.
Qed.

Lemma rsplit_from_rest (sep : char) (rest : str) (fields : list str) :
  rsplit_from sep 0 rest [] fields = rev rest :: fields.
Proof.
  destruct rest; [reflexivity |]. cbn [rsplit_from]. rewrite app_nil_r.
  reflexivity.
Qed.

(** Two fields without separator at the end of a text are split off, and
    everything before them is the first part, separators included. *)
Lemma rsplit_three (sep : char) (a d t : str) :
  forallb (fun x => negb (x =? sep)%N) d = true ->
  forallb (fun x => negb (x =? sep)%N) t = true ->
  rsplit sep 2 (a ++ [sep] ++ d ++ [sep] ++ t) = [a; d; t].
Proof.
  intros Hd Ht. unfold rsplit.
  rewrite !rev_app_distr. cbn [rev app]. rewrite <- !app_assoc. cbn [app].
  rewrite rsplit_from_field by exact Ht.
  rewrite rsplit_from_field by exact Hd.
  rewrite rsplit_from_rest, rev_involutive, !app_nil_r. reflexivity.
Qed.

Lemma quotient_range (n d q : Z) :
  (0 < d)%Z -> (0 <= n < d * q)%Z ->
  (0 <= n / d <= q - 1)%Z /\ (0 <= n mod d <= d - 1)%Z.
Proof.
  intros Hd Hn. split.
  - split; [apply Z.div_pos; lia |].
    apply Z.lt_succ_r. replace (Z.succ (q - 1)) with q by lia.
    apply Z.div_lt_upper_bound; lia.
  - pose proof (Z.mod_pos_bound n d Hd). lia.
Qed.

Lemma digit_is_no_underscore (x : Z) :
  (0 <= x <= 9)%Z -> negb (digit x =? UNDERSCORE)%N = true.
Proof.
  intros H. apply negb_true_iff, N.eqb_neq. unfold digit, UNDERSCORE. lia.
Qed.

Lemma two_digits_no_underscore (n : Z) :
  (0 <= n <= 99)%Z -> no_underscore (two_digits n) = true.
Proof.
  intros H. unfold no_underscore, two_digits. cbn [forallb].
  destruct (quotient_range n 10 10 ltac:(lia) ltac:(lia)) as [Hq Hr].
  rewrite !digit_is_no_underscore by lia. reflexivity.
Qed.

End ArchiveNames.

(** X24.  The name that [make_backup] gives an archive reads back: its
    stem is parsed by [list_backups] into the sanitized instance name,
    whatever underscores or dots that name holds, and the time of the
    backup as [YYYY-MM-DD HH:MM:SS].  [restore_backup], given no new
    name, reads the same instance name from it: it restores under that
    name when no directory of that name is in the way, and under that
    name followed by [_restored_] and the time of the restore when there
    is one, as for an instance that is still installed. *)
Theorem archive_name_reads_back
        (isalnum : char -> bool) (instance_name : str) (now : Backup.datetime) :
  on_the_clock now ->
  Backup.parse_stem
    (Backup.stem (Backup.archive_name isalnum instance_name now))
  = (Backup.safe_name isalnum instance_name, shown_timestamp now)
  /\ forall (dir_exists : str -> bool) (later : Backup.datetime),
       Backup.restored_name None
         (Backup.stem (Backup.archive_name isalnum instance_name now))
         dir_exists later
       = if dir_exists (Backup.safe_name isalnum instance_name)
         then Backup.safe_name isalnum instance_name
              ++ lit "_restored_" ++ Backup.strftime_stamp later
         else Backup.safe_name isalnum instance_name.
Proof.
  intros (Hy & Hmo & Hd & Hh & Hmi & Hs).
  set (safe := Backup.safe_name isalnum instance_name).
  set (date := Backup.four_digits (Backup.year now)
               ++ Backup.two_digits (Backup.month now)
               ++ Backup.two_digits (Backup.day now)).
  set (time := Backup.two_digits (Backup.hour now)
               ++ Backup.two_digits (Backup.minute now)
               ++ Backup.two_digits (Backup.second now)).
  assert (Hname : Backup.archive_name isalnum instance_name now
                  = (safe ++ [Backup.UNDERSCORE] ++ date
                     ++ [Backup.UNDERSCORE] ++ time) ++ lit ".zip").
  { unfold Backup.archive_name, Backup.strftime_stamp. subst safe date time.
    rewrite <- !app_assoc. reflexivity. }
  assert (Hdate : no_underscore date = true).
  { subst date. unfold no_underscore, Backup.four_digits.
    rewrite !forallb_app.
    fold (no_underscore (Backup.two_digits (Backup.year now / 100))).
    fold (no_underscore (Backup.two_digits (Backup.year now mod 100))).
    fold (no_underscore (Backup.two_digits (Backup.month now))).
    fold (no_underscore (Backup.two_digits (Backup.day now))).
    destruct (quotient_range (Backup.year now) 100 100 ltac:(lia) ltac:(lia))
      as [Hq Hr].
    rewrite !two_digits_no_underscore by lia. reflexivity. }
  assert (Htime : no_underscore time = true).
  { subst time. unfold no_underscore. rewrite !forallb_app.
    fold (no_underscore (Backup.two_digits (Backup.hour now))).
    fold (no_underscore (Backup.two_digits (Backup.minute now))).
    fold (no_underscore (Backup.two_digits (Backup.second now))).
    rewrite !two_digits_no_underscore by lia. reflexivity. }
  rewrite Hname, stem_of_zip
    by (destruct safe; discriminate).
  unfold Backup.parse_stem, Backup.restored_name.
  rewrite (rsplit_three Backup.UNDERSCORE safe date time Hdate Htime).
  split; reflexivity.
Qed.

Lemma archive_name_reads_back_witness :
  on_the_clock example_clock
  /\ Backup.parse_stem
       (Backup.stem
          (Backup.archive_name TextWrap.is_word (lit "my world_2") example_clock))
     = (lit "my_world_2", lit "2026-11-04 09:05:30")
  /\ Backup.restored_name None
       (Backup.stem
          (Backup.archive_name TextWrap.is_word (lit "my world_2") example_clock))
       (fun _ => true) example_clock
     = lit "my_world_2_restored_20261104_090530".
Proof.
  split; [unfold on_the_clock, example_clock; simpl; lia |].
  destruct (archive_name_reads_back TextWrap.is_word (lit "my world_2")
              example_clock) as [H1 H2];
    [unfold on_the_clock, example_clock; simpl; lia |].
  split; [rewrite H1 | rewrite H2]; reflexivity.
Defined.

(** X25.  [safe_name] changes no length and leaves only characters that
    are alphanumeric, hyphens or underscores; a name that is already safe
    is left as it is, so sanitizing twice is sanitizing once. *)
Theorem safe_name_is_safe (isalnum : char -> bool) (instance_name : str) :
  List.length (Backup.safe_name isalnum instance_name)
  = List.length instance_name
  /\ forallb (allowed_in_names isalnum) (Backup.safe_name isalnum instance_name)
     = true
  /\ Backup.safe_name isalnum (Backup.safe_name isalnum instance_name)
     = Backup.safe_name isalnum instance_name.
Proof.
  unfold Backup.safe_name. split; [apply length_map |].
  induction instance_name as [| c s [IH1 IH2]]; [split; reflexivity |].
  cbn [List.map forallb]. unfold allowed_in_names in *.
  destruct (isalnum c || (c =? HYPHEN)%N || (c =? Backup.UNDERSCORE)%N) eqn:E.
  - rewrite E, IH1. cbn [andb]. split; [reflexivity |].
    f_equal. exact IH2.
  - replace (isalnum Backup.UNDERSCORE
             || (Backup.UNDERSCORE =? HYPHEN)%N
             || (Backup.UNDERSCORE =? Backup.UNDERSCORE)%N)
      with true by (rewrite N.eqb_refl, orb_true_r; reflexivity).
    rewrite IH1. split; [reflexivity |]. f_equal. exact IH2.
Qed.

(** ** Blank values *)

Lemma dropwhile_nil (P : char -> bool) (s : str) :
  dropwhile P s = [] <-> forallb P s = true.
Proof.
  induction s as [| c s IH]; [split; reflexivity |].
  simpl. destruct (P c); [exact IH |].
  split; discriminate.
Qed.

Lemma dropwhile_head (P : char -> bool) (s : str) (c : char) (rest : str) :
  dropwhile P s = c :: rest -> P c = false.
Proof.
  induction s as [| x s IH]; [discriminate |].
  simpl. destruct (P x) eqn:E; [exact IH |].
  intros H. injection H as <- _. exact E.
Qed.

(** Stripping leaves nothing exactly when the text is white space only. *)
Lemma strip_nil (s : str) : strip s = [] <-> forallb isspace s = true.
Proof.
  unfold strip, rstrip. split.
  - intros H. apply dropwhile_nil.
    destruct (dropwhile isspace s) as [| c rest] eqn:E; [reflexivity |].
    exfalso.
    pose proof (dropwhile_head isspace s c rest E) as Hc.
    assert (Hr : dropwhile isspace (rev (c :: rest)) = []).
    { apply (f_equal (@rev char)) in H. rewrite rev_involutive in H. exact H. }
    apply dropwhile_nil in Hr. rewrite forallb_forall in Hr.
    specialize (Hr c ltac:(apply in_rev; rewrite rev_involutive; left; reflexivity)).
    congruence.
  - intros H. apply dropwhile_nil in H. rewrite H. reflexivity.
Qed.

(** X26.  [is_blank] holds for a missing value and for a text made only
    of white space (the empty text among them), and for nothing else: a
    text with one visible character is not blank. *)
Theorem is_blank_means_no_visible_character (value : option str) :
  Util.is_blank value = true
  <-> (value = None \/ exists s, value = Some s /\ ink s = []).
Proof.
  assert (Hink : forall s, ink s = [] <-> forallb isspace s = true).
  { intros s. unfold ink, visible.
    induction s as [| c s IH]; [split; reflexivity |].
    simpl. destruct (isspace c); simpl; [exact IH | split; discriminate]. }
  destruct value as [s |]; simpl.
  - split.
    + intros H. right. exists s. split; [reflexivity |].
      apply Hink, strip_nil. destruct (strip s); [reflexivity | discriminate].
    + intros [H | (s' & H & Hs)]; [discriminate |]. injection H as <-.
      apply Hink, strip_nil in Hs. rewrite Hs. reflexivity.
  - split; [intros _; left; reflexivity | reflexivity].
Qed.

Lemma is_blank_means_no_visible_character_witness :
  Util.is_blank (Some (lit "   ")) = true
  /\ Util.is_blank (Some (lit " a ")) = false.
Proof.
  split.
  - apply (is_blank_means_no_visible_character (Some (lit "   "))).
    right. exists (lit "   "). split; reflexivity.
  - reflexivity.
Defined.
